(** * Redraw-event core of the Neovim UI controller (src/src/ui.cpp)

    A shallow embedding of [nvim::ui_controller] and of the helpers of
    ui.cpp: decoded msgpack values, the type-checked event dispatcher, the
    highlight table, the grid pair with its writing/complete pointers, the
    mode table, the option state and the font-list parser.

    Conventions.
    - [size_t], [uint32_t], [uint16_t] and [long] values are integers of [Z]
      with the wrap-around of the C++ conversion written out.
    - A pointer into a [std::vector] is the index of the element it
      designates; a possibly-null pointer is an [option].
    - A member function is a function from the controller to a [result]:
      the controller after the call, or the way the call left the normal
      control flow ([std::abort], a thrown exception, an access outside a
      vector).
    - Logging and the calls made on the window are appended, in order, to
      the [trace] field of the controller. *)

From Stdlib Require Import ZArith String Ascii List Bool Lia.
From stdpp Require Import base list.
Import ListNotations.

Local Open Scope string_scope.
Local Open Scope list_scope.
Local Open Scope Z_scope.

(** ** Decoded values (msg::object) *)

(** Modelled from the spec: the msgpack value library (msg.hpp) is not part
    of the sources; the dispatcher "consumes already-decoded structured
    values: booleans, integers, strings, ordered sequences, and string-keyed
    maps".  ui.cpp itself tests map keys with [is<msg::string>], so a map is
    a sequence of pairs of arbitrary values. *)
#[warnings="-register-all"]
Inductive msg_object : Type :=
  | MNull
  | MBool (b : bool)
  | MInt (z : Z)
  | MStr (s : string)
  | MArr (elems : list msg_object)
  | MMap (pairs : list (msg_object * msg_object)).

(** The name of the dynamic type, as printed by [msg::type_string]. *)
Inductive msg_type : Type :=
  | TNull | TBool | TInt | TStr | TArr | TMap.

Definition type_of (o : msg_object) : msg_type :=
  match o with
  | MNull => TNull
  | MBool _ => TBool
  | MInt _ => TInt
  | MStr _ => TStr
  | MArr _ => TArr
  | MMap _ => TMap
  end.

(** ** Machine integers *)

Definition as_size_t (z : Z) : Z := z mod 2 ^ 64.
Definition as_uint32 (z : Z) : Z := z mod 2 ^ 32.
Definition as_uint16 (z : Z) : Z := z mod 2 ^ 16.
Definition as_long (z : Z) : Z := (z + 2 ^ 63) mod 2 ^ 64 - 2 ^ 63.

(** [std::string_view::npos] *)
Definition npos : Z := 2 ^ 64 - 1.

(** ** Control-flow outcomes *)

Inductive fault : Type :=
  | fault_abort          (* std::abort() *)
  | fault_out_of_range   (* std::out_of_range thrown and not caught *)
  | fault_undefined.     (* access outside the storage of a vector *)

Inductive result (A : Type) : Type :=
  | Ok (a : A)
  | Fault (f : fault).

Arguments Ok {A} a.
Arguments Fault {A} f.

Definition bind {A B : Type} (r : result A) (k : A -> result B) : result B :=
  match r with
  | Ok a => k a
  | Fault f => Fault f
  end.

Notation "'let*' x ':=' r 'in' k" := (bind r (fun x => k))
  (at level 10, x pattern, r at level 100, k at level 200).

(** ** Colours and cell attributes *)

(** Modelled from the spec: [rgb_color] is declared in ui.hpp, which is not
    part of the sources.  ui.cpp builds it with [rgb_color(rgb)] and
    [rgb_color(rgb, rgb_color::default_tag)] and asks [is_default()]: a
    colour is "either a concrete RGB value or a use-default sentinel". *)
Record rgb_color : Type := mk_rgb {
  rgb_value : Z;
  is_default : bool
}.

Definition rgb_concrete (rgb : Z) : rgb_color := mk_rgb rgb false.
Definition rgb_default_tag (rgb : Z) : rgb_color := mk_rgb rgb true.

(** Modelled from the spec: the flag enumerators of [cell_attributes] are
    declared in ui.hpp; they are taken as distinct bits of the flag word. *)
Definition flag_bold : Z := 1.
Definition flag_italic : Z := 2.
Definition flag_underline : Z := 4.
Definition flag_undercurl : Z := 8.
Definition flag_strikethrough : Z := 16.
Definition flag_reverse : Z := 32.
Definition flag_doublewidth : Z := 64.

Record cell_attributes : Type := mk_attrs {
  foreground : rgb_color;
  background : rgb_color;
  special : rgb_color;
  flags : Z
}.

Definition set_foreground (c : rgb_color) (a : cell_attributes) :=
  mk_attrs c (background a) (special a) (flags a).
Definition set_background (c : rgb_color) (a : cell_attributes) :=
  mk_attrs (foreground a) c (special a) (flags a).
Definition set_special (c : rgb_color) (a : cell_attributes) :=
  mk_attrs (foreground a) (background a) c (flags a).
Definition set_flags (f : Z) (a : cell_attributes) :=
  mk_attrs (foreground a) (background a) (special a) f.
Definition or_flag (f : Z) (a : cell_attributes) :=
  set_flags (Z.lor (flags a) f) a.
Definition has_flag (f : Z) (a : cell_attributes) : bool :=
  negb (Z.land (flags a) f =? 0).

(** ** Highlight table *)

Definition highlight_table : Type := list cell_attributes.

(** [hl_get_entry]: the pointer returned, as an index into the table. *)
Definition hl_get_entry (table : highlight_table) (hlid : Z) : nat :=
  if hlid <? Z.of_nat (length table) then Z.to_nat hlid else 0%nat.

(** The record a pointer into the table designates; [table[0]] of an empty
    vector is outside its storage. *)
Definition hl_deref (table : highlight_table) (p : nat)
  : result cell_attributes :=
  match table !! p with
  | Some a => Ok a
  | None => Fault fault_undefined
  end.

(** [resolve(id)] of the spec: [*hl_get_entry(table, id)]. *)
Definition resolve (table : highlight_table) (hlid : Z)
  : result cell_attributes :=
  hl_deref table (hl_get_entry table hlid).

(** [hl_new_entry]: the table after the call and the pointer returned.
    [table.resize(hlid, default_attrs)] gives the table [hlid] elements, and
    [table.back()] is then the element of index [hlid - 1]. *)
Definition hl_new_entry (table : highlight_table) (hlid : Z)
  : result (highlight_table * nat) :=
  let table_size := Z.of_nat (length table) in
  let* default_attrs := hl_deref table 0%nat in
  if hlid =? table_size then
    Ok (table ++ [default_attrs], length table)
  else if hlid <? table_size then
    Ok (<[Z.to_nat hlid := default_attrs]> table, Z.to_nat hlid)
  else
    Ok (table ++ replicate (Z.to_nat (hlid - table_size)) default_attrs,
        Z.to_nat (hlid - 1)).

(** ** Cells, cursors and grids *)

(** Modelled from the spec: [cell], [cursor_attributes], [grid], [mode_info]
    and [options] are declared in ui.hpp, which is not part of the sources.
    The fields are those ui.cpp reads and writes. *)
Record cell : Type := mk_cell {
  cell_text : string;
  attrs : cell_attributes
}.

Definition set_attrs (a : cell_attributes) (c : cell) : cell :=
  mk_cell (cell_text c) a.

Inductive cursor_shape : Type :=
  | shape_block
  | shape_vertical
  | shape_horizontal.

Record cursor_attributes : Type := mk_cursor_attrs {
  shape : cursor_shape;
  percentage : Z;
  blinkwait : Z;
  blinkon : Z;
  blinkoff : Z;
  blinks : bool;
  cursor_special : rgb_color;
  cursor_foreground : rgb_color;
  cursor_background : rgb_color
}.

(** [draw_tick] is taken to be a 64-bit unsigned counter. *)
Record grid : Type := mk_grid {
  grid_width : Z;
  grid_height : Z;
  cells : list cell;
  cursor_row : Z;
  cursor_col : Z;
  cursor_attrs : cursor_attributes;
  draw_tick : Z
}.

Definition set_cells (cs : list cell) (g : grid) : grid :=
  mk_grid (grid_width g) (grid_height g) cs (cursor_row g) (cursor_col g)
          (cursor_attrs g) (draw_tick g).
Definition set_size (w h : Z) (g : grid) : grid :=
  mk_grid w h (cells g) (cursor_row g) (cursor_col g)
          (cursor_attrs g) (draw_tick g).
Definition set_cursor (row col : Z) (g : grid) : grid :=
  mk_grid (grid_width g) (grid_height g) (cells g) row col
          (cursor_attrs g) (draw_tick g).
Definition set_cursor_attrs (a : cursor_attributes) (g : grid) : grid :=
  mk_grid (grid_width g) (grid_height g) (cells g) (cursor_row g)
          (cursor_col g) a (draw_tick g).
Definition set_draw_tick (t : Z) (g : grid) : grid :=
  mk_grid (grid_width g) (grid_height g) (cells g) (cursor_row g)
          (cursor_col g) (cursor_attrs g) t.

Record mode_info : Type := mk_mode_info {
  mode_name : string;
  mode_cursor_attrs : cursor_attributes
}.

Record options : Type := mk_options {
  ext_cmdline : bool;
  ext_hlstate : bool;
  ext_linegrid : bool;
  ext_messages : bool;
  ext_multigrid : bool;
  ext_popupmenu : bool;
  ext_tabline : bool;
  ext_termcolors : bool
}.

(** [operator==] of [options]: member-wise comparison. *)
Definition options_eqb (a b : options) : bool :=
  Bool.eqb (ext_cmdline a) (ext_cmdline b) &&
  Bool.eqb (ext_hlstate a) (ext_hlstate b) &&
  Bool.eqb (ext_linegrid a) (ext_linegrid b) &&
  Bool.eqb (ext_messages a) (ext_messages b) &&
  Bool.eqb (ext_multigrid a) (ext_multigrid b) &&
  Bool.eqb (ext_popupmenu a) (ext_popupmenu b) &&
  Bool.eqb (ext_tabline a) (ext_tabline b) &&
  Bool.eqb (ext_termcolors a) (ext_termcolors b).

(** ** Observable effects *)

(** One constructor per [os_log_error] / [os_log_info] call site. *)
Inductive log_record : Type :=
  | err_grid_out_of_bounds (event : string) (width height row col : Z)
  | err_argument_type (name : string) (object : msg_object)
  | err_event_type (object : msg_object)
  | info_unhandled_event (name : string) (args : list msg_object)
  | err_cell_update_type (object : msg_object)
  | err_row_overflow
  | err_cursor_out_of_bounds (width height row col : Z)
  | err_scroll_invalid_args (top bottom left right : Z)
  | err_rgb_type (object : msg_object)
  | err_map_key_type (event : string) (object : msg_object)
  | info_ignoring_highlight_attribute (name : string)
  | err_unknown_cursor_shape (object : msg_object)
  | err_highlight_id_type (object : msg_object)
  | err_cursor_property_map_type (object : msg_object)
  | err_mode_index_out_of_bounds (table_size index : Z)
  | info_option_type (option : string) (object : msg_object).

Inductive effect : Type :=
  | log (r : log_record)
  | window_redraw
  | window_title_set
  | window_font_set
  | window_options_set
  | semaphore_signal.

(** ** The controller *)

(** The two grid instances are [grid0] and [grid1]; the pointers [writing]
    and [complete] designate [grid1] when [true] and [grid0] when [false].
    [flush_wait] tells whether a semaphore is registered. *)
Record ui_controller : Type := mk_ui {
  grid0 : grid;
  grid1 : grid;
  writing : bool;
  complete : bool;
  hltable : highlight_table;
  mode_info_table : list mode_info;
  current_mode : Z;
  option_title : string;
  option_guifont : string;
  opts : options;
  flush_wait : bool;
  trace : list effect
}.

Definition grid_at (p : bool) (ui : ui_controller) : grid :=
  if p then grid1 ui else grid0 ui.

Definition set_grid_at (p : bool) (g : grid) (ui : ui_controller)
  : ui_controller :=
  mk_ui (if p then grid0 ui else g) (if p then g else grid1 ui)
        (writing ui) (complete ui) (hltable ui) (mode_info_table ui)
        (current_mode ui) (option_title ui) (option_guifont ui) (opts ui)
        (flush_wait ui) (trace ui).

Definition set_pointers (w c : bool) (ui : ui_controller) : ui_controller :=
  mk_ui (grid0 ui) (grid1 ui) w c (hltable ui) (mode_info_table ui)
        (current_mode ui) (option_title ui) (option_guifont ui) (opts ui)
        (flush_wait ui) (trace ui).

Definition set_hltable (t : highlight_table) (ui : ui_controller)
  : ui_controller :=
  mk_ui (grid0 ui) (grid1 ui) (writing ui) (complete ui) t
        (mode_info_table ui) (current_mode ui) (option_title ui)
        (option_guifont ui) (opts ui) (flush_wait ui) (trace ui).

Definition set_mode_info_table (t : list mode_info) (ui : ui_controller)
  : ui_controller :=
  mk_ui (grid0 ui) (grid1 ui) (writing ui) (complete ui) (hltable ui) t
        (current_mode ui) (option_title ui) (option_guifont ui) (opts ui)
        (flush_wait ui) (trace ui).

Definition set_current_mode (m : Z) (ui : ui_controller) : ui_controller :=
  mk_ui (grid0 ui) (grid1 ui) (writing ui) (complete ui) (hltable ui)
        (mode_info_table ui) m (option_title ui) (option_guifont ui)
        (opts ui) (flush_wait ui) (trace ui).

Definition set_option_title (t : string) (ui : ui_controller)
  : ui_controller :=
  mk_ui (grid0 ui) (grid1 ui) (writing ui) (complete ui) (hltable ui)
        (mode_info_table ui) (current_mode ui) t (option_guifont ui)
        (opts ui) (flush_wait ui) (trace ui).

Definition set_option_guifont (f : string) (ui : ui_controller)
  : ui_controller :=
  mk_ui (grid0 ui) (grid1 ui) (writing ui) (complete ui) (hltable ui)
        (mode_info_table ui) (current_mode ui) (option_title ui) f
        (opts ui) (flush_wait ui) (trace ui).

Definition set_opts (o : options) (ui : ui_controller) : ui_controller :=
  mk_ui (grid0 ui) (grid1 ui) (writing ui) (complete ui) (hltable ui)
        (mode_info_table ui) (current_mode ui) (option_title ui)
        (option_guifont ui) o (flush_wait ui) (trace ui).

Definition set_flush_wait (w : bool) (ui : ui_controller) : ui_controller :=
  mk_ui (grid0 ui) (grid1 ui) (writing ui) (complete ui) (hltable ui)
        (mode_info_table ui) (current_mode ui) (option_title ui)
        (option_guifont ui) (opts ui) w (trace ui).

Definition set_trace (t : list effect) (ui : ui_controller) : ui_controller :=
  mk_ui (grid0 ui) (grid1 ui) (writing ui) (complete ui) (hltable ui)
        (mode_info_table ui) (current_mode ui) (option_title ui)
        (option_guifont ui) (opts ui) (flush_wait ui) t.

(** Appends one effect to the trace. *)
Definition emit (e : effect) (ui : ui_controller) : ui_controller :=
  set_trace (trace ui ++ [e]) ui.

Definition os_log (r : log_record) (ui : ui_controller) : ui_controller :=
  emit (log r) ui.

(** A controller that differs from [ui] by the effects [l] appended to its
    trace only. *)
Definition logged (l : list effect) (ui : ui_controller) : ui_controller :=
  set_trace (trace ui ++ l) ui.

(** The grid [writing] points to, and its replacement. *)
Definition writing_grid (ui : ui_controller) : grid :=
  grid_at (writing ui) ui.
Definition complete_grid (ui : ui_controller) : grid :=
  grid_at (complete ui) ui.
Definition set_writing_grid (g : grid) (ui : ui_controller) : ui_controller :=
  set_grid_at (writing ui) g ui.

(** ** Typed argument binding: [is], [get], [call], [apply_one], [apply] *)

(** The parameter types that occur in the handlers' signatures. *)
Inductive param : Type :=
  | p_size_t
  | p_uint32
  | p_long
  | p_bool
  | p_string
  | p_array
  | p_map
  | p_object.

Definition param_type (T : param) : Type :=
  match T with
  | p_size_t | p_uint32 | p_long => Z
  | p_bool => bool
  | p_string => string
  | p_array => list msg_object
  | p_map => list (msg_object * msg_object)
  | p_object => msg_object
  end.

(** [is<T>]: an integral [T] other than [msg::boolean] accepts any
    [msg::integer]; [msg::object] accepts every value. *)
Definition is_ (T : param) (object : msg_object) : bool :=
  match T, object with
  | (p_size_t | p_uint32 | p_long), MInt _ => true
  | p_bool, MBool _ => true
  | p_string, MStr _ => true
  | p_array, MArr _ => true
  | p_map, MMap _ => true
  | p_object, _ => true
  | _, _ => false
  end.

(** [get<T>]: the narrowing conversion is [msg::integer::as<T>];
    unwrapping a value of another type is outside the contract of
    [msg::object::get]. *)
Definition get_ (T : param) (object : msg_object) : result (param_type T) :=
  match T as T0, object return result (param_type T0) with
  | p_size_t, MInt z => Ok (as_size_t z)
  | p_uint32, MInt z => Ok (as_uint32 z)
  | p_long, MInt z => Ok (as_long z)
  | p_bool, MBool b => Ok b
  | p_string, MStr s => Ok s
  | p_array, MArr l => Ok l
  | p_map, MMap m => Ok m
  | p_object, o => Ok o
  | _, _ => Fault fault_undefined
  end.

(** A member function of the controller, after its call returns. *)
Definition handler : Type := ui_controller -> result ui_controller.

(** A pointer to a member function of parameter types [Ts...]. *)
Fixpoint member_function (Ts : list param) : Type :=
  match Ts with
  | [] => handler
  | T :: Ts' => param_type T -> member_function Ts'
  end.

(** [call]: [member_function(get<Ts>(array[Indexes])...)] *)
Fixpoint call (Ts : list param)
  : member_function Ts -> list msg_object -> handler :=
  match Ts as Ts0 return member_function Ts0 -> list msg_object -> handler with
  | [] => fun f _ => f
  | T :: Ts' => fun f array ui =>
      match array with
      | [] => Fault fault_undefined
      | object :: rest =>
          let* v := get_ T object in call Ts' (f v) rest ui
      end
  end.

(** The fold [(is<Ts>(args[index++]) && ...)]. *)
Fixpoint is_all (Ts : list param) (args : list msg_object) : bool :=
  match Ts, args with
  | [], _ => true
  | T :: Ts', object :: rest => is_ T object && is_all Ts' rest
  | _ :: _, [] => false
  end.

Definition apply_one (Ts : list param) (f : member_function Ts)
    (name : string) (object : msg_object) : handler :=
  fun ui =>
    match object with
    | MArr args =>
        if (length Ts <=? length args)%nat && is_all Ts args
        then call Ts f args ui
        else Ok (os_log (err_argument_type name object) ui)
    | _ => Ok (os_log (err_argument_type name object) ui)
    end.

Fixpoint apply (Ts : list param) (f : member_function Ts)
    (name : string) (array : list msg_object) : handler :=
  fun ui =>
    match array with
    | [] => Ok ui
    | tuple :: rest =>
        let* ui' := apply_one Ts f name tuple ui in
        apply Ts f name rest ui'
    end.

(** ** Access to the cell vector through pointers *)

Definition in_bounds {A : Type} (l : list A) (i : Z) : bool :=
  (0 <=? i) && (i <? Z.of_nat (length l)).

Definition load {A : Type} (l : list A) (i : Z) : result A :=
  match (if 0 <=? i then l !! Z.to_nat i else None) with
  | Some x => Ok x
  | None => Fault fault_undefined
  end.

Definition store {A : Type} (l : list A) (i : Z) (x : A) : result (list A) :=
  if in_bounds l i then Ok (<[Z.to_nat i := x]> l) else Fault fault_undefined.

(** [for (int i = 1; i < repeat; ++i) cell[i] = *cell], [k] iterations
    starting at the cell of index [i]; [*cell] holds [c]. *)
Fixpoint fill (k : nat) (cs : list cell) (i : Z) (c : cell)
  : result (list cell) :=
  match k with
  | O => Ok cs
  | S k' => let* cs' := store cs i c in fill k' cs' (i + 1) c
  end.

(** [memcpy(dest, src, sizeof(cell) * width)] inside one cell vector. *)
Definition copy_cells (cs : list cell) (dest src width : Z)
  : result (list cell) :=
  if width =? 0 then Ok cs
  else if (0 <=? src) && (src + width <=? Z.of_nat (length cs)) &&
          (0 <=? dest) && (dest + width <=? Z.of_nat (length cs))
  then Ok (take (Z.to_nat dest) cs
           ++ take (Z.to_nat width) (drop (Z.to_nat src) cs)
           ++ drop (Z.to_nat (dest + width)) cs)
  else Fault fault_undefined.

(** The copy loop of [grid_scroll], [k] iterations. *)
Fixpoint scroll_rows (k : nat) (cs : list cell) (dest src row_width width : Z)
  : result (list cell) :=
  match k with
  | O => Ok cs
  | S k' =>
      let* cs' := copy_cells cs dest src width in
      scroll_rows k' cs' (dest + row_width) (src + row_width) row_width width
  end.

(** ** Cell updates of [grid_line] *)

(** [hlattr] is a pointer into the highlight table, null until an update
    of the event carries a highlight id. *)
Record cell_update : Type := mk_cell_update {
  text : string;
  hlattr : option nat;
  repeat : Z
}.

(** [cell_update()] *)
Definition cell_update_new : cell_update := mk_cell_update "" None 0.

(** [cell_update::set]: [None] for [false]; on [true] the update after the
    call.  Each case is one [type_check<...>(array)] followed by the [get]s
    of the elements. *)
Definition cell_update_set (object : msg_object) (hltable : highlight_table)
    (u : cell_update) : option cell_update :=
  match object with
  | MArr [MStr s] =>
      Some (mk_cell_update s (hlattr u) 1)
  | MArr [MStr s; MInt h] =>
      Some (mk_cell_update s (Some (hl_get_entry hltable (as_size_t h))) 1)
  | MArr [MStr s; MInt h; MInt r] =>
      Some (mk_cell_update s (Some (hl_get_entry hltable (as_size_t h)))
                           (as_size_t r))
  | _ => None
  end.

(** The local variables of the loop of [grid_line]: the cell vector of the
    grid, the pointer [cell] (an index of the vector), [remaining] and
    [update]. *)
Record line_state : Type := mk_line_state {
  ls_cells : list cell;
  ls_cell : Z;
  ls_remaining : Z;
  ls_update : cell_update
}.

(** One iteration either goes on to the next object, returns from
    [grid_line] (with or without a log record), or leaves the vector. *)
Inductive line_step : Type :=
  | line_next (s : line_state)
  | line_return (cs : list cell) (r : option log_record)
  | line_fault (f : fault).

Definition line_of_result (r : result line_state) : line_step :=
  match r with
  | Ok s => line_next s
  | Fault f => line_fault f
  end.

(** The cell attributes a possibly-null [hlattr] designates. *)
Definition deref_hlattr (hltable : highlight_table) (p : option nat)
  : result (option cell_attributes) :=
  match p with
  | None => Ok None
  | Some i => let* a := hl_deref hltable i in Ok (Some a)
  end.

(** ** Font strings *)

Definition isdigit (c : ascii) : bool :=
  (48 <=? Z.of_nat (nat_of_ascii c)) && (Z.of_nat (nat_of_ascii c) <=? 57).

Definition digit_value (c : ascii) : Z := Z.of_nat (nat_of_ascii c) - 48.

(** The [while (index)] loop of [make_font]; the result is [index] and
    [size] when the loop is left.  The loop runs at most [fontstr.size()]
    times, and [index] is 0 after that many iterations. *)
Fixpoint scan_size (fuel : nat) (fontstr : list ascii)
    (index multiply size : Z) : Z * Z :=
  match fuel with
  | O => (index, size)
  | S fuel' =>
      if index =? 0 then (index, size)
      else
        let index := index - 1 in
        match fontstr !! Z.to_nat index with
        | Some digit =>
            if isdigit digit then
              scan_size fuel' fontstr index
                        (as_size_t (multiply * 10))
                        (as_size_t (size + multiply * digit_value digit))
            else (index, size)
        | None => (index, size)
        end
  end.

Definition char_at (s : list ascii) (i : Z) (c : ascii) : bool :=
  match (if 0 <=? i then s !! Z.to_nat i else None) with
  | Some x => Ascii.eqb x c
  | None => false
  end.

Fixpoint find_index (p : ascii -> bool) (s : list ascii) : option nat :=
  match s with
  | [] => None
  | c :: s' => if p c then Some O else option_map S (find_index p s')
  end.

(** [string.find(c, pos)] and [string.find_first_not_of(c, pos)] *)
Definition find_if (p : ascii -> bool) (s : list ascii) (pos : Z) : Z :=
  if Z.of_nat (length s) <=? pos then npos
  else match find_index p (drop (Z.to_nat pos) s) with
       | Some k => pos + Z.of_nat k
       | None => npos
       end.

Definition find (s : list ascii) (c : ascii) (pos : Z) : Z :=
  find_if (Ascii.eqb c) s pos.

Definition find_first_not_of (s : list ascii) (c : ascii) (pos : Z) : Z :=
  find_if (fun x => negb (Ascii.eqb c x)) s pos.

(** [string.substr(pos, n)] throws when [pos > size()]. *)
Definition substr (s : list ascii) (pos n : Z) : result (list ascii) :=
  if Z.of_nat (length s) <? pos then Fault fault_out_of_range
  else Ok (take (Z.to_nat n) (drop (Z.to_nat pos) s)).

(** [string.substr(pos)] *)
Definition substr_from (s : list ascii) (pos : Z) : result (list ascii) :=
  if Z.of_nat (length s) <? pos then Fault fault_out_of_range
  else Ok (drop (Z.to_nat pos) s).

(** The loop of [find_unescaped_comma].  Every iteration that does not
    return moves [pos] past one more comma, so [string.size() + 1]
    iterations are enough ([find_unescaped_comma_loop_spec]). *)
Fixpoint find_unescaped_comma_loop (fuel : nat) (string : list ascii)
    (pos : Z) : Z :=
  match fuel with
  | O => npos
  | S fuel' =>
      let pos := find string "," pos in
      if pos =? npos then pos
      else if negb (pos =? 0) && negb (char_at string (pos - 1) "\")
      then pos
      else find_unescaped_comma_loop fuel' string (as_size_t (pos + 1))
  end.

Definition find_unescaped_comma (string : list ascii) (pos : Z) : Z :=
  find_unescaped_comma_loop (S (length string)) string pos.

(** ** Notions used to state the properties *)

(** A tuple the dispatcher binds to a handler of parameter types [Ts]: a
    sequence that starts with one value of each declared type. *)
Definition tuple_accepted (Ts : list param) (object : msg_object) : Prop :=
  exists args extra,
    object = MArr (args ++ extra) /\
    Forall2 (fun T o => is_ T o = true) Ts args.

(** The tuples the specification describes: a sequence whose length equals
    the declared parameter count and whose elements have the declared
    types. *)
Definition tuple_exact (Ts : list param) (object : msg_object) : Prop :=
  exists args,
    object = MArr args /\ Forall2 (fun T o => is_ T o = true) Ts args.


Definition is_title_set (e : effect) : bool :=
  match e with
  | window_title_set => true
  | _ => false
  end.

Definition title_set_count (t : list effect) : nat :=
  length (List.filter is_title_set t).

(** The invariant of the double buffer: [writing] and [complete] designate
    different grids. *)
Definition pointers_distinct (ui : ui_controller) : Prop :=
  writing ui <> complete ui.

(** A member function keeps a property of the controller, whatever its
    arguments are. *)
Fixpoint keeps (P : ui_controller -> Prop) (Ts : list param)
  : member_function Ts -> Prop :=
  match Ts as Ts0 return member_function Ts0 -> Prop with
  | [] => fun h => forall ui ui', P ui -> h ui = Ok ui' -> P ui'
  | T :: Ts' => fun f => forall v, keeps P Ts' (f v)
  end.

(** An update of [grid_line] that does not carry the repeat count 0. *)
Definition positive_repeat (object : msg_object) : bool :=
  match object with
  | MArr [_; _; MInt r] => negb (as_size_t r =? 0)
  | _ => true
  end.

(** The number a sequence of decimal digits denotes. *)
Definition decimal (digits : list ascii) : Z :=
  fold_left (fun acc c => 10 * acc + digit_value c) digits 0.

(** The character of index [j] exists and satisfies [p]. *)
Definition char_sat (p : ascii -> bool) (s : list ascii) (j : Z) : bool :=
  match (if 0 <=? j then s !! Z.to_nat j else None) with
  | Some x => p x
  | None => false
  end.

(** The places where [find_unescaped_comma] stops: a comma that is not the
    first character of the string and does not follow a backslash. *)
Definition is_separator (s : list ascii) (j : Z) : bool :=
  char_at s j "," && negb (j =? 0) && negb (char_at s (j - 1) "\").

(** [r] is what a search from [pos] for the first index below [hi] that
    satisfies [q] returns: that index, or [npos] when there is none. *)
Definition first_spec (q : Z -> bool) (pos hi r : Z) : Prop :=
  (r = npos /\ forall j, pos <= j < hi -> q j = false) \/
  (pos <= r < hi /\ q r = true /\ forall j, pos <= j < r -> q j = false).

(** The index a search returns when [a] characters are put in front of the
    string. *)
Definition shift_index (a r : Z) : Z :=
  if r =? npos then npos else a + r.

(** No index of [f] is a separator. *)
Definition no_separator (f : list ascii) : bool :=
  forallb (fun j => negb (is_separator f (Z.of_nat j))) (seq 0 (length f)).

(** A field of a font list: not empty, without separator inside, and not
    ending with a backslash. *)
Definition is_field (f : list ascii) : bool :=
  negb (length f =? 0)%nat && no_separator f
  && negb (char_at f (Z.of_nat (length f) - 1) "\").

(** What follows a separator and its spaces: a character that is neither a
    space nor a comma. *)
Definition starts_field (rest : list ascii) : bool :=
  match rest with
  | c :: _ => negb (Ascii.eqb c " ") && negb (Ascii.eqb c ",")
  | [] => false
  end.

(** The font list made of the field [f] and of the fields [more], each
    given with the number of spaces between the comma before it and
    itself. *)
Fixpoint join_fields (f : list ascii) (more : list (nat * list ascii))
  : list ascii :=
  match more with
  | [] => f
  | (k, f') :: more' =>
      f ++ ","%char :: replicate k " "%char ++ join_fields f' more'
  end.

(** The cell vector of a grid has the size [grid_resize] gave it. *)
Definition grid_sized (g : grid) : Prop :=
  Z.of_nat (length (cells g)) = as_size_t (grid_width g * grid_height g).

(** The colour the pairs of a highlight definition give for the key [name],
    starting from [init]: the value of the last pair with that key and an
    integer value. *)
Definition defined_color (name : string)
    (definition : list (msg_object * msg_object)) (init : rgb_color)
  : rgb_color :=
  fold_left
    (fun c kv =>
       match kv with
       | (MStr k, MInt z) =>
           if String.eqb k name then rgb_concrete (as_uint32 z) else c
       | _ => c
       end) definition init.

(** Some pair of the definition has the string [name] as its key. *)
Definition key_occurs (name : string)
    (definition : list (msg_object * msg_object)) : bool :=
  existsb
    (fun kv =>
       match fst kv with
       | MStr k => String.eqb k name
       | _ => false
       end) definition.

(** The keys of a highlight definition that stand for a flag, with the
    flag [hl_attr_define] sets for each. *)
Definition flag_names : list (string * Z) :=
  [("underline", flag_underline); ("bold", flag_bold);
   ("italic", flag_italic); ("strikethrough", flag_strikethrough);
   ("undercurl", flag_undercurl); ("reverse", flag_reverse)].

(** Both grids of the controller have the size [grid_resize] gave them. *)
Definition grids_sized (ui : ui_controller) : Prop :=
  grid_sized (grid0 ui) /\ grid_sized (grid1 ui).

(** What the loop of [grid_line] keeps while the repeat counts are
    positive: the pointer [cell] is in the row, [remaining] is the distance
    to the end of the row, the row is in the vector, and [hlattr] is null or
    points into the highlight table. *)
Definition line_inv (hl : highlight_table) (rowbegin rowend : Z)
    (s : line_state) : Prop :=
  rowbegin <= ls_cell s /\
  ls_cell s + ls_remaining s = rowend /\
  0 <= ls_remaining s /\
  rowend <= Z.of_nat (length (ls_cells s)) /\
  forall i : nat, hlattr (ls_update s) = Some i -> (i < length hl)%nat.

(** The cells the copy loop of [grid_scroll] writes: [j] is one of the
    [width] cells starting at [dest] in one of [k] rows that lie
    [row_width] apart. *)
Fixpoint in_rows (k : nat) (dest row_width width j : Z) : bool :=
  match k with
  | O => false
  | S k' =>
      ((dest <=? j) && (j <? dest + width))
      || in_rows k' (dest + row_width) row_width width j
  end.

(** The cells a scroll by [rows] moves: those of the region whose
    source row, [rows] further down, is in the region as well. *)
Definition scroll_moved (top bottom left_ right_ rows r c : Z) : bool :=
  (top <=? r) && (r <? bottom) && (top <=? r + rows) && (r + rows <? bottom)
  && (left_ <=? c) && (c <? right_).

(** The option names [set_option] knows. *)
Definition known_options : list string :=
  ["guifont"; "ext_cmdline"; "ext_hlstate"; "ext_linegrid"; "ext_messages";
   "ext_multigrid"; "ext_popupmenu"; "ext_tabline"; "ext_termcolors"].

(** The number of property maps in the argument of [mode_info_set]: the
    objects that are maps. *)
Definition property_map_count (objects : list msg_object) : nat :=
  length (List.filter (fun o => match o with MMap _ => true | _ => false end)
                      objects).



(** ** A concrete controller for the examples *)

Definition sample_attrs : cell_attributes :=
  mk_attrs (rgb_default_tag 16777215) (rgb_default_tag 0)
           (rgb_default_tag 255) 0.
Definition sample_cursor : cursor_attributes :=
  mk_cursor_attrs shape_block 0 0 0 0 false
                  (rgb_concrete 0) (rgb_concrete 0) (rgb_concrete 0).
Definition sample_bar : cursor_attributes :=
  mk_cursor_attrs shape_vertical 25 0 0 0 false
                  (rgb_concrete 0) (rgb_concrete 0) (rgb_concrete 0).
Definition sample_cell : cell := mk_cell "" sample_attrs.
Definition sample_make_cell (t : string) (a : option cell_attributes) : cell :=
  mk_cell t (match a with Some x => x | None => sample_attrs end).
Definition sample_mode_info : mode_info := mk_mode_info "" sample_cursor.
Definition sample_grid : grid :=
  mk_grid 4 2 (replicate 8 sample_cell) 0 0 sample_cursor 0.
(** In the examples a font size is the integer it is converted from. *)
Definition sample_double : Type := Z.
Definition sample_double_of_size_t (size : Z) : sample_double := size.
Definition sample_options : options :=
  mk_options false false false false false false false false.
Definition sample_ui : ui_controller :=
  mk_ui sample_grid sample_grid true false [sample_attrs]
        [mk_mode_info "normal" sample_cursor; mk_mode_info "insert" sample_bar]
        0 "nvim" "" sample_options false [].


(** ** The member functions of [ui_controller] *)

Section Controller.

(** The constructors of ui.hpp that ui.cpp calls: [nvim::cell(text, attrs)]
    with a possibly-null [attrs], the default-constructed [cell] and the
    value-initialised [mode_info]; [double] and the conversion
    [double(size_t)]. *)
Variable make_cell : string -> option cell_attributes -> cell.
Variable default_cell : cell.
Variable default_mode_info : mode_info.
Variable double : Type.
Variable double_of_size_t : Z -> double.

Record font : Type := mk_font {
  font_name : string;
  font_size : double
}.

(** [get_grid]: the pointer [writing], unless the index is not 1. *)
Definition get_grid (index : Z) (ui : ui_controller) : result bool :=
  if negb (index =? 1) then Fault fault_abort else Ok (writing ui).

(** [grid::get(row, col)]: the cells are stored row after row. *)
Definition grid_get (g : grid) (row col : Z) : Z :=
  row * grid_width g + col.

Definition grid_resize (grid_id width height : Z) : handler :=
  fun ui =>
    let* p := get_grid grid_id ui in
    let g := grid_at p ui in
    let n := Z.to_nat (as_size_t (width * height)) in
    Ok (set_grid_at p
          (set_cells (resize n default_cell (cells g))
                     (set_size width height g)) ui).

(** The body of the loop of [grid_line] for one object of [cells]. *)
Definition grid_line_step (hltable : highlight_table) (rowbegin : Z)
    (object : msg_object) (s : line_state) : line_step :=
  match cell_update_set object hltable (ls_update s) with
  | None => line_return (ls_cells s) (Some (err_cell_update_type object))
  | Some update =>
      if ls_remaining s <? repeat update then
        line_return (ls_cells s) (Some err_row_overflow)
      else if (String.length (text update) =? 0)%nat then
        if ls_cell s =? rowbegin then line_return (ls_cells s) None
        else
          line_of_result (
            let* lcell := load (ls_cells s) (ls_cell s - 1) in
            let* here := load (ls_cells s) (ls_cell s) in
            let* cs1 := store (ls_cells s) (ls_cell s)
                              (set_attrs (attrs lcell) here) in
            let* cs2 := store cs1 (ls_cell s - 1)
                              (set_attrs
                                 (or_flag flag_doublewidth (attrs lcell))
                                 lcell) in
            Ok (mk_line_state cs2 (ls_cell s + 1)
                              (as_size_t (ls_remaining s - 1)) update))
      else
        line_of_result (
          let* a := deref_hlattr hltable (hlattr update) in
          let c := make_cell (text update) a in
          let* cs1 := store (ls_cells s) (ls_cell s) c in
          let* cs2 := fill (Z.to_nat (repeat update - 1)) cs1
                           (ls_cell s + 1) c in
          Ok (mk_line_state cs2 (ls_cell s + repeat update)
                            (as_size_t (ls_remaining s - repeat update))
                            update))
  end.

(** The loop of [grid_line]: the cell vector when the function returns and
    the record it logged, if any. *)
Fixpoint grid_line_loop (hltable : highlight_table) (rowbegin : Z)
    (objects : list msg_object) (s : line_state)
  : result (list cell * option log_record) :=
  match objects with
  | [] => Ok (ls_cells s, None)
  | object :: rest =>
      match grid_line_step hltable rowbegin object s with
      | line_next s' => grid_line_loop hltable rowbegin rest s'
      | line_return cs r => Ok (cs, r)
      | line_fault f => Fault f
      end
  end.

(** The state of the loop after the objects [objects] when none of them
    made [grid_line] return. *)
Fixpoint grid_line_run (hltable : highlight_table) (rowbegin : Z)
    (objects : list msg_object) (s : line_state) : option line_state :=
  match objects with
  | [] => Some s
  | object :: rest =>
      match grid_line_step hltable rowbegin object s with
      | line_next s' => grid_line_run hltable rowbegin rest s'
      | _ => None
      end
  end.

(** The local variables of [grid_line] when the loop is entered. *)
Definition grid_line_enter (g : grid) (row col : Z) : line_state :=
  mk_line_state (cells g) (grid_get g row 0 + col)
                (as_size_t (grid_width g - col)) cell_update_new.

Definition log_opt (r : option log_record) (ui : ui_controller)
  : ui_controller :=
  match r with
  | Some r => os_log r ui
  | None => ui
  end.

Definition grid_line (grid_id row col : Z) (cells_arg : list msg_object)
  : handler :=
  fun ui =>
    let* p := get_grid grid_id ui in
    let g := grid_at p ui in
    if (grid_height g <=? row) || (grid_width g <=? col) then
      Ok (os_log (err_grid_out_of_bounds "grid_line" (grid_width g)
                                         (grid_height g) row col) ui)
    else
      let rowbegin := grid_get g row 0 in
      let s := grid_line_enter g row col in
      let* out := grid_line_loop (hltable ui) rowbegin cells_arg s in
      Ok (log_opt (snd out) (set_grid_at p (set_cells (fst out) g) ui)).

Definition grid_clear (grid_id : Z) : handler :=
  fun ui =>
    let* p := get_grid grid_id ui in
    let g := grid_at p ui in
    let* def := hl_deref (hltable ui) 0%nat in
    let empty :=
      set_attrs (set_background (background def) (attrs default_cell))
                default_cell in
    Ok (set_grid_at p (set_cells (map (fun _ => empty) (cells g)) g) ui).

Definition grid_cursor_goto (grid_id row col : Z) : handler :=
  fun ui =>
    let* p := get_grid grid_id ui in
    let g := grid_at p ui in
    if (grid_height g <=? row) || (grid_width g <=? col) then
      Ok (os_log (err_cursor_out_of_bounds (grid_width g) (grid_height g)
                                           row col) ui)
    else Ok (set_grid_at p (set_cursor row col g) ui).

Definition grid_scroll (grid_id top bottom left right rows : Z) : handler :=
  fun ui =>
    if (bottom <? top) || (right <? left) then
      Ok (os_log (err_scroll_invalid_args top bottom left right) ui)
    else
      let* p := get_grid grid_id ui in
      let g := grid_at p ui in
      let height := as_size_t (bottom - top) in
      let width := as_size_t (right - left) in
      if (grid_height g <? bottom) || (grid_width g <? right) then
        Ok (os_log (err_grid_out_of_bounds "grid_scroll" (grid_width g)
                                           (grid_height g) bottom right) ui)
      else
        let dest :=
          if 0 <=? rows then grid_get g top left
          else grid_get g (bottom - 1) left in
        let row_width :=
          if 0 <=? rows then grid_width g else - grid_width g in
        let count :=
          if 0 <=? rows then as_long (height - rows)
          else as_long (height + rows) in
        let src := dest + grid_width g * rows in
        let* cs := scroll_rows (Z.to_nat count) (cells g) dest src
                               row_width width in
        Ok (set_grid_at p (set_cells cs g) ui).

(** [flush]: [completed] is the pointer [writing] had; the exchange stores
    it in [complete] and gives [writing] the pointer [complete] had; the
    grid [writing] now designates is assigned the completed grid. *)
Definition flush : handler :=
  fun ui =>
    let completed := writing ui in
    let ui1 :=
      set_grid_at completed
        (set_draw_tick (as_size_t (draw_tick (grid_at completed ui) + 1))
                       (grid_at completed ui)) ui in
    let ui2 := set_pointers (complete ui1) completed ui1 in
    let ui3 := set_grid_at (writing ui2) (grid_at completed ui2) ui2 in
    if flush_wait ui3 then
      Ok (set_flush_wait false (emit semaphore_signal ui3))
    else Ok (emit window_redraw ui3).

(** [adjust_defaults(def, attrs)] when [def] and [attrs] are distinct
    objects: the attributes [attrs] holds after the call. *)
Definition adjust_defaults (def attrs : cell_attributes) : cell_attributes :=
  let reversed := has_flag flag_reverse attrs in
  let a1 :=
    if is_default (foreground attrs)
    then set_foreground (if reversed then background def else foreground def)
                        attrs
    else attrs in
  let a2 :=
    if is_default (background a1)
    then set_background (if reversed then foreground def else background def)
                        a1
    else a1 in
  if is_default (special a2) then set_special (special def) a2 else a2.

(** [adjust_defaults(def, attrs)] when both references designate the same
    object, as in the first iteration over the highlight table: every read
    of [def] sees the writes already made through [attrs]. *)
Definition adjust_defaults_aliased (attrs : cell_attributes)
  : cell_attributes :=
  let reversed := has_flag flag_reverse attrs in
  let a1 :=
    if is_default (foreground attrs)
    then set_foreground (if reversed then background attrs
                         else foreground attrs) attrs
    else attrs in
  let a2 :=
    if is_default (background a1)
    then set_background (if reversed then foreground a1 else background a1) a1
    else a1 in
  if is_default (special a2) then set_special (special a2) a2 else a2.

Definition default_colors_set (fg bg sp : Z) : handler :=
  fun ui =>
    match hltable ui with
    | [] => Fault fault_undefined
    | _ :: rest =>
        let def0 :=
          mk_attrs (rgb_default_tag fg) (rgb_default_tag bg)
                   (rgb_default_tag sp) 0 in
        let def := adjust_defaults_aliased def0 in
        let table := def :: map (adjust_defaults def) rest in
        let g := writing_grid ui in
        let cs :=
          map (fun c => set_attrs (adjust_defaults def (attrs c)) c)
              (cells g) in
        Ok (set_writing_grid (set_cells cs g) (set_hltable table ui))
    end.

(** [set_rgb_color]: the colour after the call and the controller (for the
    log). *)
Definition set_rgb_color (color : rgb_color) (object : msg_object)
    (ui : ui_controller) : rgb_color * ui_controller :=
  match object with
  | MInt z => (rgb_concrete (as_uint32 z), ui)
  | _ => (color, os_log (err_rgb_type object) ui)
  end.

(** The body of the loop of [hl_attr_define] for one pair of the map;
    [attrs] is the record the pointer returned by [hl_new_entry]
    designates. *)
Definition hl_attr_define_pair (pair : msg_object * msg_object)
    (st : cell_attributes * ui_controller) : cell_attributes * ui_controller :=
  let '(attrs, ui) := st in
  match fst pair with
  | MStr name =>
      if String.eqb name "foreground" then
        let '(c, ui') := set_rgb_color (foreground attrs) (snd pair) ui in
        (set_foreground c attrs, ui')
      else if String.eqb name "background" then
        let '(c, ui') := set_rgb_color (background attrs) (snd pair) ui in
        (set_background c attrs, ui')
      else if String.eqb name "underline" then
        (or_flag flag_underline attrs, ui)
      else if String.eqb name "bold" then
        (or_flag flag_bold attrs, ui)
      else if String.eqb name "italic" then
        (or_flag flag_italic attrs, ui)
      else if String.eqb name "strikethrough" then
        (or_flag flag_strikethrough attrs, ui)
      else if String.eqb name "undercurl" then
        (or_flag flag_undercurl attrs, ui)
      else if String.eqb name "special" then
        let '(c, ui') := set_rgb_color (special attrs) (snd pair) ui in
        (set_special c attrs, ui')
      else if String.eqb name "reverse" then
        (or_flag flag_reverse attrs, ui)
      else (attrs, os_log (info_ignoring_highlight_attribute name) ui)
  | key => (attrs, os_log (err_map_key_type "hl_attr_define" key) ui)
  end.

(** [std::swap(attrs->background, attrs->foreground)] *)
Definition swap_colors (a : cell_attributes) : cell_attributes :=
  mk_attrs (background a) (foreground a) (special a) (flags a).

Definition hl_attr_define (hlid : Z) (definition : list (msg_object * msg_object))
  : handler :=
  fun ui =>
    let* entry := hl_new_entry (hltable ui) hlid in
    let '(table, p) := entry in
    let* attrs0 := hl_deref table p in
    let '(attrs1, ui1) :=
      fold_left (fun st pair => hl_attr_define_pair pair st) definition
                (attrs0, ui) in
    let attrs2 :=
      if has_flag flag_reverse attrs1 then swap_colors attrs1 else attrs1 in
    Ok (set_hltable (<[p := attrs2]> table) ui1).

(** [to_cursor_shape]: the shape and the controller (for the log). *)
Definition to_cursor_shape (object : msg_object) (ui : ui_controller)
  : cursor_shape * ui_controller :=
  let unknown := (shape_block, os_log (err_unknown_cursor_shape object) ui) in
  match object with
  | MStr name =>
      if String.eqb name "block" then (shape_block, ui)
      else if String.eqb name "vertical" then (shape_vertical, ui)
      else if String.eqb name "horizontal" then (shape_horizontal, ui)
      else unknown
  | _ => unknown
  end.

Definition set_cursor_colors (sp fg bg : rgb_color) (c : cursor_attributes)
  : cursor_attributes :=
  mk_cursor_attrs (shape c) (percentage c) (blinkwait c) (blinkon c)
                  (blinkoff c) (blinks c) sp fg bg.

Definition set_color_attrs (cursor_attrs : cursor_attributes)
    (hltable : highlight_table) (object : msg_object) (ui : ui_controller)
  : result (cursor_attributes * ui_controller) :=
  match object with
  | MInt z =>
      let hlid := as_size_t z in
      let* hl_attrs := hl_deref hltable (hl_get_entry hltable hlid) in
      if negb (hlid =? 0) then
        Ok (set_cursor_colors (special hl_attrs) (foreground hl_attrs)
                              (background hl_attrs) cursor_attrs, ui)
      else
        Ok (set_cursor_colors (special hl_attrs) (background hl_attrs)
                              (foreground hl_attrs) cursor_attrs, ui)
  | _ => Ok (cursor_attrs, os_log (err_highlight_id_type object) ui)
  end.

(** [to<uint16_t>] and [to<msg::string>] *)
Definition to_uint16 (object : msg_object) : Z :=
  match object with
  | MInt z => as_uint16 z
  | _ => 0
  end.

Definition to_string (object : msg_object) : string :=
  match object with
  | MStr s => s
  | _ => ""
  end.

Definition set_mode_cursor (c : cursor_attributes) (info : mode_info)
  : mode_info :=
  mk_mode_info (mode_name info) c.

(** The body of the loop of [to_mode_info] for one pair of the map. *)
Definition to_mode_info_pair (hl_table : highlight_table)
    (pair : msg_object * msg_object) (st : mode_info * ui_controller)
  : result (mode_info * ui_controller) :=
  let '(info, ui) := st in
  let c := mode_cursor_attrs info in
  match fst pair with
  | MStr name =>
      if String.eqb name "cursor_shape" then
        let '(sh, ui') := to_cursor_shape (snd pair) ui in
        Ok (set_mode_cursor
              (mk_cursor_attrs sh (percentage c) (blinkwait c) (blinkon c)
                 (blinkoff c) (blinks c) (cursor_special c)
                 (cursor_foreground c) (cursor_background c)) info, ui')
      else if String.eqb name "cell_percentage" then
        Ok (set_mode_cursor
              (mk_cursor_attrs (shape c) (to_uint16 (snd pair)) (blinkwait c)
                 (blinkon c) (blinkoff c) (blinks c) (cursor_special c)
                 (cursor_foreground c) (cursor_background c)) info, ui)
      else if String.eqb name "blinkwait" then
        Ok (set_mode_cursor
              (mk_cursor_attrs (shape c) (percentage c) (to_uint16 (snd pair))
                 (blinkon c) (blinkoff c) (blinks c) (cursor_special c)
                 (cursor_foreground c) (cursor_background c)) info, ui)
      else if String.eqb name "blinkon" then
        Ok (set_mode_cursor
              (mk_cursor_attrs (shape c) (percentage c) (blinkwait c)
                 (to_uint16 (snd pair)) (blinkoff c) (blinks c)
                 (cursor_special c) (cursor_foreground c)
                 (cursor_background c)) info, ui)
      else if String.eqb name "blinkoff" then
        Ok (set_mode_cursor
              (mk_cursor_attrs (shape c) (percentage c) (blinkwait c)
                 (blinkon c) (to_uint16 (snd pair)) (blinks c)
                 (cursor_special c) (cursor_foreground c)
                 (cursor_background c)) info, ui)
      else if String.eqb name "name" then
        Ok (mk_mode_info (to_string (snd pair)) c, ui)
      else if String.eqb name "attr_id" then
        let* r := set_color_attrs c hl_table (snd pair) ui in
        Ok (set_mode_cursor (fst r) info, snd r)
      else Ok (info, ui)
  | key => Ok (info, os_log (err_map_key_type "mode_info_set" key) ui)
  end.

Fixpoint to_mode_info_loop (hl_table : highlight_table)
    (map : list (msg_object * msg_object)) (st : mode_info * ui_controller)
  : result (mode_info * ui_controller) :=
  match map with
  | [] => Ok st
  | kv :: rest =>
      let* st' := to_mode_info_pair hl_table kv st in
      to_mode_info_loop hl_table rest st'
  end.

Definition to_mode_info (hl_table : highlight_table)
    (map : list (msg_object * msg_object)) (ui : ui_controller)
  : result (mode_info * ui_controller) :=
  let* st := to_mode_info_loop hl_table map (default_mode_info, ui) in
  let '(info, ui') := st in
  let c := mode_cursor_attrs info in
  if negb (blinkwait c =? 0) && negb (blinkoff c =? 0)
     && negb (blinkon c =? 0)
  then Ok (set_mode_cursor
             (mk_cursor_attrs (shape c) (percentage c) (blinkwait c)
                (blinkon c) (blinkoff c) true (cursor_special c)
                (cursor_foreground c) (cursor_background c)) info, ui')
  else Ok (info, ui').

(** The loop of [mode_info_set]: one [push_back] per property map. *)
Fixpoint mode_info_set_loop (property_maps : list msg_object)
    (ui : ui_controller) : result ui_controller :=
  match property_maps with
  | [] => Ok ui
  | object :: rest =>
      match object with
      | MMap map =>
          let* r := to_mode_info (hltable ui) map ui in
          let '(info, ui') := r in
          mode_info_set_loop rest
            (set_mode_info_table (mode_info_table ui' ++ [info]) ui')
      | _ =>
          mode_info_set_loop rest
            (os_log (err_cursor_property_map_type object) ui)
      end
  end.

Definition mode_info_set (enabled : bool) (property_maps : list msg_object)
  : handler :=
  fun ui =>
    mode_info_set_loop property_maps
      (set_current_mode 0 (set_mode_info_table [] ui)).

Definition mode_change (name : string) (index : Z) : handler :=
  fun ui =>
    let table_size := Z.of_nat (length (mode_info_table ui)) in
    if table_size <=? index then
      Ok (os_log (err_mode_index_out_of_bounds table_size index) ui)
    else
      match mode_info_table ui !! Z.to_nat index with
      | Some info =>
          Ok (set_writing_grid
                (set_cursor_attrs (mode_cursor_attrs info) (writing_grid ui))
                ui)
      | None => Fault fault_undefined
      end.

Definition set_title (new_title : string) : handler :=
  fun ui => Ok (emit window_title_set (set_option_title new_title ui)).

Definition get_title (ui : ui_controller) : string := option_title ui.
Definition get_font_string (ui : ui_controller) : string := option_guifont ui.
Definition get_options (ui : ui_controller) : options := opts ui.

(** [make_font] *)
Definition make_font (fontstr : list ascii) (default_size : double) : font :=
  let '(index, size) :=
    scan_size (length fontstr) fontstr (Z.of_nat (length fontstr)) 1 0 in
  if negb (size =? 0) && negb (index =? 0) && char_at fontstr index "h"
     && char_at fontstr (index - 1) ":"
  then mk_font (string_of_list_ascii (take (Z.to_nat (index - 1)) fontstr))
               (double_of_size_t size)
  else mk_font (string_of_list_ascii fontstr) default_size.

(** The [for (;;)] loop of [get_fonts], from the iteration that starts with
    [index]: the fonts pushed from there on.  The test [pos == npos] that
    closes the body is always false where it stands.  Every iteration that
    does not leave the loop moves [index] past one more comma, so
    [fontopt.size() + 1] iterations are enough. *)
Fixpoint get_fonts_loop (fuel : nat) (fontopt : list ascii)
    (default_size : double) (index : Z) : result (list font) :=
  match fuel with
  | O => Ok []
  | S fuel' =>
      let pos := find_unescaped_comma fontopt index in
      if pos =? npos then
        let* fontstr := substr_from fontopt index in
        Ok [make_font fontstr default_size]
      else
        let* fontstr := substr fontopt index (as_size_t (pos - index)) in
        let index' := find_first_not_of fontopt " " (as_size_t (pos + 1)) in
        let* fonts := get_fonts_loop fuel' fontopt default_size index' in
        Ok (make_font fontstr default_size :: fonts)
  end.

(** [get_fonts], on the stored font string. *)
Definition parse_font_list (guifont : string) (default_size : double)
  : result (list font) :=
  if (String.length guifont =? 0)%nat then Ok []
  else
    let fontopt := list_ascii_of_string guifont in
    get_fonts_loop (S (length fontopt)) fontopt default_size 0.

Definition get_fonts (default_size : double) (ui : ui_controller)
  : result (list font) :=
  parse_font_list (option_guifont ui) default_size.

Definition set_font_option (value : msg_object) (ui : ui_controller)
  : ui_controller :=
  match value with
  | MStr s => emit window_font_set (set_option_guifont s ui)
  | _ => os_log (info_option_type "guifont" value) ui
  end.

(** [set_ext_option]: the flag after the call and the controller (for the
    log). *)
Definition set_ext_option (opt : bool) (value : msg_object)
    (ui : ui_controller) : bool * ui_controller :=
  match value with
  | MBool b => (b, ui)
  | _ => (opt, os_log (info_option_type "ext" value) ui)
  end.

Definition set_option (name : string) (value : msg_object) : handler :=
  fun ui =>
    let o := opts ui in
    let ext (get : options -> bool) (put : bool -> options) :=
      let '(b, ui') := set_ext_option (get o) value ui in
      Ok (set_opts (put b) ui') in
    if String.eqb name "guifont" then Ok (set_font_option value ui)
    else if String.eqb name "ext_cmdline" then
      ext ext_cmdline (fun b =>
        mk_options b (ext_hlstate o) (ext_linegrid o) (ext_messages o)
          (ext_multigrid o) (ext_popupmenu o) (ext_tabline o)
          (ext_termcolors o))
    else if String.eqb name "ext_hlstate" then
      ext ext_hlstate (fun b =>
        mk_options (ext_cmdline o) b (ext_linegrid o) (ext_messages o)
          (ext_multigrid o) (ext_popupmenu o) (ext_tabline o)
          (ext_termcolors o))
    else if String.eqb name "ext_linegrid" then
      ext ext_linegrid (fun b =>
        mk_options (ext_cmdline o) (ext_hlstate o) b (ext_messages o)
          (ext_multigrid o) (ext_popupmenu o) (ext_tabline o)
          (ext_termcolors o))
    else if String.eqb name "ext_messages" then
      ext ext_messages (fun b =>
        mk_options (ext_cmdline o) (ext_hlstate o) (ext_linegrid o) b
          (ext_multigrid o) (ext_popupmenu o) (ext_tabline o)
          (ext_termcolors o))
    else if String.eqb name "ext_multigrid" then
      ext ext_multigrid (fun b =>
        mk_options (ext_cmdline o) (ext_hlstate o) (ext_linegrid o)
          (ext_messages o) b (ext_popupmenu o) (ext_tabline o)
          (ext_termcolors o))
    else if String.eqb name "ext_popupmenu" then
      ext ext_popupmenu (fun b =>
        mk_options (ext_cmdline o) (ext_hlstate o) (ext_linegrid o)
          (ext_messages o) (ext_multigrid o) b (ext_tabline o)
          (ext_termcolors o))
    else if String.eqb name "ext_tabline" then
      ext ext_tabline (fun b =>
        mk_options (ext_cmdline o) (ext_hlstate o) (ext_linegrid o)
          (ext_messages o) (ext_multigrid o) (ext_popupmenu o) b
          (ext_termcolors o))
    else if String.eqb name "ext_termcolors" then
      ext ext_termcolors (fun b =>
        mk_options (ext_cmdline o) (ext_hlstate o) (ext_linegrid o)
          (ext_messages o) (ext_multigrid o) (ext_popupmenu o)
          (ext_tabline o) b)
    else Ok ui.

(** ** The dispatcher *)

Definition redraw_event (event_object : msg_object) : handler :=
  fun ui =>
    match event_object with
    | MArr (MStr name :: args) =>
        if String.eqb name "grid_line" then
          apply [p_size_t; p_size_t; p_size_t; p_array] grid_line name args ui
        else if String.eqb name "grid_resize" then
          apply [p_size_t; p_size_t; p_size_t] grid_resize name args ui
        else if String.eqb name "grid_scroll" then
          apply [p_size_t; p_size_t; p_size_t; p_size_t; p_size_t; p_long]
                grid_scroll name args ui
        else if String.eqb name "flush" then
          apply [] flush name args ui
        else if String.eqb name "grid_clear" then
          apply [p_size_t] grid_clear name args ui
        else if String.eqb name "hl_attr_define" then
          apply [p_size_t; p_map] hl_attr_define name args ui
        else if String.eqb name "default_colors_set" then
          apply [p_uint32; p_uint32; p_uint32] default_colors_set name args ui
        else if String.eqb name "mode_info_set" then
          apply [p_bool; p_array] mode_info_set name args ui
        else if String.eqb name "mode_change" then
          apply [p_string; p_size_t] mode_change name args ui
        else if String.eqb name "grid_cursor_goto" then
          apply [p_size_t; p_size_t; p_size_t] grid_cursor_goto name args ui
        else if String.eqb name "set_title" then
          apply [p_string] set_title name args ui
        else if String.eqb name "option_set" then
          let oldopts := opts ui in
          let* ui' := apply [p_string; p_object] set_option name args ui in
          if negb (options_eqb (opts ui') oldopts)
          then Ok (emit window_options_set ui')
          else Ok ui'
        else if String.eqb name "mouse_on" || String.eqb name "mouse_off"
                || String.eqb name "set_icon"
                || String.eqb name "hl_group_set" then
          Ok ui
        else Ok (os_log (info_unhandled_event name args) ui)
    | _ => Ok (os_log (err_event_type event_object) ui)
    end.

Fixpoint redraw (events : list msg_object) : handler :=
  fun ui =>
    match events with
    | [] => Ok ui
    | event :: rest => let* ui' := redraw_event event ui in redraw rest ui'
    end.

(** ** The font-list parser as the specification words it *)

(** "Splits on commas not preceded by a backslash"; [escaped] tells whether
    the character before is a backslash. *)
Fixpoint spec_split (escaped : bool) (s : list ascii) : list (list ascii) :=
  match s with
  | [] => [[]]
  | c :: s' =>
      if Ascii.eqb c "," && negb escaped then [] :: spec_split false s'
      else
        match spec_split (Ascii.eqb c "\") s' with
        | f :: fs => (c :: f) :: fs
        | [] => [[c]]
        end
  end.

(** "Trims one leading space per field". *)
Definition spec_trim (f : list ascii) : list ascii :=
  match f with
  | c :: f' => if Ascii.eqb c " " then f' else f
  | [] => f
  end.

(** The digits at the head of a reversed field, and what is before them. *)
Fixpoint spec_digits (r : list ascii) : list ascii * list ascii :=
  match r with
  | c :: r' =>
      if isdigit c
      then let '(ds, r'') := spec_digits r' in (c :: ds, r'')
      else ([], r)
  | [] => ([], [])
  end.

(** "Strips an optional trailing :h<digits> size suffix, using the given
    default size when the suffix is absent". *)
Definition spec_font (default_size : double) (f : list ascii) : font :=
  match spec_digits (rev f) with
  | (d :: ds, h :: colon :: family) =>
      if Ascii.eqb h "h" && Ascii.eqb colon ":"
      then mk_font (string_of_list_ascii (rev family))
                   (double_of_size_t (decimal (rev (d :: ds))))
      else mk_font (string_of_list_ascii f) default_size
  | _ => mk_font (string_of_list_ascii f) default_size
  end.

Definition parse_font_list_spec (guifont : string) (default_size : double)
  : list font :=
  map (fun f => spec_font default_size (spec_trim f))
      (spec_split false (list_ascii_of_string guifont)).

(** * Properties *)

(** *** The double buffer *)

(** [flush] keeps the two pointers on different grids. *)
Lemma flush_pointers_distinct (ui ui' : ui_controller) :
  pointers_distinct ui -> flush ui = Ok ui' -> pointers_distinct ui'.
Proof.
  unfold flush, pointers_distinct. intros Hne H.
  destruct (flush_wait _) in H; inversion H; subst; clear H; cbn;
    congruence.
Qed.

(** C2. [flush] exchanges the two pointers: the grid that was being written
    is published as complete, with its tick incremented, and the grid that
    was complete before is the new writing target.  That grid is overwritten
    with a copy of the published one, so after [flush] the new writing
    target is equal, field for field (cells, cursor position and attributes,
    draw tick), to the grid just published.  When the two pointers designate
    different grids before the call they still do after it, and both grid
    objects then hold the published grid: the one that was complete has lost
    what it held. *)
Theorem flush_writing_equals_published (ui : ui_controller) :
  exists ui',
    flush ui = Ok ui' /\
    complete ui' = writing ui /\
    writing ui' = complete ui /\
    complete_grid ui' =
      set_draw_tick (as_size_t (draw_tick (writing_grid ui) + 1))
                    (writing_grid ui) /\
    writing_grid ui' = complete_grid ui' /\
    cells (writing_grid ui') = cells (complete_grid ui') /\
    cursor_row (writing_grid ui') = cursor_row (complete_grid ui') /\
    cursor_col (writing_grid ui') = cursor_col (complete_grid ui') /\
    cursor_attrs (writing_grid ui') = cursor_attrs (complete_grid ui') /\
    draw_tick (writing_grid ui') = draw_tick (complete_grid ui') /\
    (pointers_distinct ui ->
     pointers_distinct ui' /\
     grid_at (complete ui) ui' =
       set_draw_tick (as_size_t (draw_tick (writing_grid ui) + 1))
                     (writing_grid ui) /\
     grid_at (writing ui) ui' =
       set_draw_tick (as_size_t (draw_tick (writing_grid ui) + 1))
                     (writing_grid ui)).
Proof.
  destruct ui as [g0 g1 w c hl mt cm ti gf op fw tr].
  unfold flush, writing_grid, complete_grid, pointers_distinct.
  destruct fw, w, c; cbn; eexists; (split; [reflexivity |]); cbn;
    repeat split; try reflexivity; try discriminate;
    match goal with
    | H : ?x <> ?x |- _ => now destruct H
    end.
Qed.

(** *** Traces *)

Lemma logged_nil (ui : ui_controller) : logged [] ui = ui.
Proof.
  destruct ui; unfold logged, set_trace; cbn. now rewrite app_nil_r.
Qed.

Lemma logged_logged (l1 l2 : list effect) (ui : ui_controller) :
  logged l2 (logged l1 ui) = logged (l1 ++ l2) ui.
Proof.
  unfold logged, set_trace; cbn. now rewrite app_assoc.
Qed.

Lemma os_log_logged (r : log_record) (ui : ui_controller) :
  os_log r ui = logged [log r] ui.
Proof. reflexivity. Qed.

(** *** Titles *)

Lemma apply_set_title (titles : list string) (ui : ui_controller) :
  apply [p_string] set_title "set_title"
        (map (fun t => MArr [MStr t]) titles) ui
  = Ok (fold_left (fun u t => emit window_title_set (set_option_title t u))
                  titles ui).
Proof.
  revert ui. induction titles as [| t titles IH]; intros ui; [reflexivity |].
  cbn. apply IH.
Qed.

Lemma last_cons_default {A : Type} (l : list A) (a d d' : A) :
  List.last (a :: l) d = List.last (a :: l) d'.
Proof.
  revert a. induction l as [| b l IH]; intros a; [reflexivity |].
  change (List.last (b :: l) d = List.last (b :: l) d'). apply IH.
Qed.

Lemma fold_set_title_trace (titles : list string) (ui : ui_controller) :
  let ui' :=
    fold_left (fun u t => emit window_title_set (set_option_title t u))
              titles ui in
  trace ui' = trace ui ++ replicate (length titles) window_title_set /\
  option_title ui' = List.last titles (option_title ui).
Proof.
  revert ui. induction titles as [| t titles IH]; intros ui; cbn.
  - now rewrite app_nil_r.
  - destruct (IH (emit window_title_set (set_option_title t ui)))
      as [Ht Ho].
    cbn in Ht, Ho. split.
    + rewrite Ht. cbn. now rewrite <- app_assoc.
    + rewrite Ho. destruct titles as [| s titles]; [reflexivity |].
      apply last_cons_default.
Qed.

Lemma title_set_count_app (l1 l2 : list effect) :
  title_set_count (l1 ++ l2) = (title_set_count l1 + title_set_count l2)%nat.
Proof.
  unfold title_set_count. now rewrite List.filter_app, length_app.
Qed.

Lemma title_set_count_replicate (n : nat) :
  title_set_count (replicate n window_title_set) = n.
Proof.
  induction n as [| n IH]; [reflexivity |].
  unfold title_set_count in *. cbn. now rewrite IH.
Qed.

(** C10. A [set_title] event whose tuples each hold one string calls
    [window.title_set()] once per tuple, whatever the titles are: also when
    a new title is the title already stored, the call is made. *)
Theorem set_title_always_notifies (titles : list string) (ui : ui_controller) :
  exists ui',
    redraw_event
      (MArr (MStr "set_title" :: map (fun t => MArr [MStr t]) titles)) ui
    = Ok ui' /\
    trace ui' = trace ui ++ replicate (length titles) window_title_set /\
    title_set_count (trace ui')
    = (title_set_count (trace ui) + length titles)%nat /\
    option_title ui' = List.last titles (option_title ui) /\
    redraw_event (MArr [MStr "set_title"; MArr [MStr (option_title ui)]]) ui
    = Ok (emit window_title_set ui).
Proof.
  eexists. split.
  - unfold redraw_event. cbn [String.eqb Ascii.eqb Bool.eqb].
    cbn -[apply]. apply apply_set_title.
  - destruct (fold_set_title_trace titles ui) as [Ht Ho]. cbn in Ht, Ho.
    split; [exact Ht |]. split; [| split; [exact Ho |]].
    + rewrite Ht, title_set_count_app, title_set_count_replicate.
      reflexivity.
    + destruct ui; reflexivity.
Qed.

(** *** The highlight table *)

Lemma set_rgb_color_logged (c : rgb_color) (v : msg_object)
    (ui : ui_controller) :
  exists l, snd (set_rgb_color c v ui) = logged l ui.
Proof.
  destruct v; cbn;
    first [ now exists []; rewrite logged_nil
          | eexists; apply os_log_logged ].
Qed.

Lemma hl_attr_define_pair_logged (pair : msg_object * msg_object)
    (a : cell_attributes) (ui : ui_controller) :
  exists l, snd (hl_attr_define_pair pair (a, ui)) = logged l ui.
Proof.
  destruct pair as [k v]. unfold hl_attr_define_pair. cbn [fst snd].
  destruct k; try (eexists; apply os_log_logged).
  repeat match goal with
         | |- context [if String.eqb ?x ?y then _ else _] =>
             destruct (String.eqb x y)
         end;
    try (exists []; now rewrite logged_nil);
    try (eexists; apply os_log_logged);
    match goal with
    | |- context [set_rgb_color ?c v ui] =>
        destruct (set_rgb_color_logged c v ui) as [l Hl];
        destruct (set_rgb_color c v ui) as [c' ui']; cbn in *;
        exists l; exact Hl
    end.
Qed.

Lemma hl_attr_define_fold_logged (definition : list (msg_object * msg_object))
    (a : cell_attributes) (ui : ui_controller) :
  exists a' l,
    fold_left (fun st pair => hl_attr_define_pair pair st) definition (a, ui)
    = (a', logged l ui).
Proof.
  revert a ui. induction definition as [| pair definition IH]; intros a ui.
  - exists a, []. now rewrite logged_nil.
  - cbn [fold_left].
    destruct (hl_attr_define_pair_logged pair a ui) as [l1 Hl1].
    destruct (hl_attr_define_pair pair (a, ui)) as [a1 ui1]. cbn in Hl1.
    subst ui1. destruct (IH a1 (logged l1 ui)) as (a' & l2 & H).
    exists a', (l1 ++ l2). now rewrite H, logged_logged.
Qed.

Lemma hl_deref_lookup (table : highlight_table) (p : nat)
    (a : cell_attributes) :
  table !! p = Some a -> hl_deref table p = Ok a.
Proof. unfold hl_deref. now intros ->. Qed.

(** C1. When [hl_attr_define] is called with an id beyond the length [n] of
    the table, the table gets [hlid] elements, not [hlid + 1]: the ids from
    [n] to [hlid - 2] are copies of the id-0 record, the record built from
    the definition is stored at id [hlid - 1], and id [hlid] itself is still
    outside the table, so that resolving it gives the id-0 record. *)
Theorem hl_attr_define_past_end (hlid : Z)
    (definition : list (msg_object * msg_object)) (ui : ui_controller)
    (d : cell_attributes) :
  hltable ui !! 0%nat = Some d ->
  Z.of_nat (length (hltable ui)) < hlid ->
  exists attrs ui',
    hl_attr_define hlid definition ui = Ok ui' /\
    hltable ui' =
      hltable ui
      ++ replicate (Z.to_nat hlid - length (hltable ui) - 1)%nat d
      ++ [attrs] /\
    Z.of_nat (length (hltable ui')) = hlid /\
    resolve (hltable ui') hlid = Ok d.
Proof.
  intros Hd Hlt. unfold hl_attr_define, hl_new_entry.
  rewrite (hl_deref_lookup _ _ _ Hd). cbn [bind].
  destruct (Z.eqb_spec hlid (Z.of_nat (length (hltable ui)))) as [E | _];
    [lia |].
  destruct (Z.ltb_spec hlid (Z.of_nat (length (hltable ui)))) as [E | _];
    [lia |].
  set (n := length (hltable ui)) in *.
  assert (Hk : Z.to_nat (hlid - Z.of_nat n) = S (Z.to_nat hlid - n - 1))
    by lia.
  rewrite Hk. set (k := (Z.to_nat hlid - n - 1)%nat) in *.
  assert (Hp : Z.to_nat (hlid - 1) = (n + k)%nat) by lia.
  rewrite Hp.
  assert (Hrep : replicate (S k) d = replicate k d ++ [d]).
  { clear. induction k as [| k IH]; [reflexivity |].
    cbn. cbn in IH. now rewrite <- IH. }
  rewrite Hrep.
  assert (Hlook : (hltable ui ++ replicate k d ++ [d]) !! (n + k)%nat
                  = Some d).
  { rewrite app_assoc. rewrite lookup_app_r; rewrite length_app, length_replicate;
      fold n; [| lia].
    now replace (n + k - (n + k))%nat with 0%nat by lia. }
  cbn [bind]. rewrite (hl_deref_lookup _ _ _ Hlook). cbn [bind].
  destruct (hl_attr_define_fold_logged definition d ui) as (a1 & l & Hfold).
  rewrite Hfold.
  eexists _, _. split; [reflexivity |]. cbn [hltable set_hltable].
  assert (Hins : forall a : cell_attributes,
            <[(n + k)%nat := a]> (hltable ui ++ replicate k d ++ [d])
            = hltable ui ++ replicate k d ++ [a]).
  { intros a. rewrite app_assoc.
    rewrite insert_app_r_alt; rewrite length_app, length_replicate; fold n;
      [| lia].
    replace (n + k - (n + k))%nat with 0%nat by lia.
    now rewrite <- app_assoc. }
  rewrite Hins. split; [reflexivity |]. split.
  - rewrite !length_app, length_replicate. cbn. fold n. lia.
  - unfold resolve, hl_get_entry.
    rewrite !length_app, length_replicate. cbn [length]. fold n.
    destruct (Z.ltb_spec hlid (Z.of_nat (n + (k + 1)))) as [E | _]; [lia |].
    apply hl_deref_lookup. apply lookup_app_l_Some. exact Hd.
Qed.

(** *** The mode table *)

Lemma hl_resolve_total (table : highlight_table) (hlid : Z) :
  table <> [] ->
  exists a, hl_deref table (hl_get_entry table hlid) = Ok a.
Proof.
  intros Hne. unfold hl_get_entry.
  destruct (Z.ltb_spec hlid (Z.of_nat (length table))) as [Hlt | _].
  - destruct (table !! Z.to_nat hlid) as [a |] eqn:E.
    + exists a. now apply hl_deref_lookup.
    + apply lookup_ge_None in E.
      destruct (Z.le_gt_cases 0 hlid); [lia |].
      destruct table; [congruence |].
      replace (Z.to_nat hlid) with 0%nat in E by lia. cbn in E. lia.
  - destruct table as [| a table]; [congruence |].
    exists a. reflexivity.
Qed.

Lemma to_mode_info_pair_total (hl : highlight_table)
    (pair : msg_object * msg_object) (info : mode_info) (ui : ui_controller) :
  hl <> [] ->
  exists info' l,
    to_mode_info_pair hl pair (info, ui) = Ok (info', logged l ui).
Proof.
  intros Hne. destruct pair as [k v]. unfold to_mode_info_pair.
  cbn [fst snd].
  destruct k; try (eexists _, _; rewrite os_log_logged; reflexivity).
  repeat match goal with
         | |- context [if String.eqb ?x ?y then _ else _] =>
             destruct (String.eqb x y)
         end;
    try (eexists _, []; rewrite logged_nil; reflexivity).
  - unfold to_cursor_shape. destruct v;
      try (eexists _, _; rewrite os_log_logged; reflexivity).
    repeat match goal with
           | |- context [if String.eqb ?x ?y then _ else _] =>
               destruct (String.eqb x y)
           end;
      first [ eexists _, []; rewrite logged_nil; reflexivity
            | eexists _, _; rewrite os_log_logged; reflexivity ].
  - unfold set_color_attrs. destruct v;
      try (eexists _, _; cbn; rewrite os_log_logged; reflexivity).
    destruct (hl_resolve_total hl (as_size_t z) Hne) as [a Ha].
    rewrite Ha. cbn [bind].
    destruct (negb (as_size_t z =? 0)); cbn;
      eexists _, []; rewrite logged_nil; reflexivity.
Qed.

Lemma to_mode_info_loop_total (hl : highlight_table)
    (map : list (msg_object * msg_object)) (info : mode_info)
    (ui : ui_controller) :
  hl <> [] ->
  exists info' l, to_mode_info_loop hl map (info, ui) = Ok (info', logged l ui).
Proof.
  intros Hne. revert info ui.
  induction map as [| kv map IH]; intros info ui; cbn [to_mode_info_loop].
  - exists info, []. now rewrite logged_nil.
  - destruct (to_mode_info_pair_total hl kv info ui Hne) as (i1 & l1 & H1).
    rewrite H1. cbn [bind].
    destruct (IH i1 (logged l1 ui)) as (i2 & l2 & H2).
    exists i2, (l1 ++ l2). now rewrite H2, logged_logged.
Qed.

Lemma to_mode_info_total (hl : highlight_table)
    (map : list (msg_object * msg_object)) (ui : ui_controller) :
  hl <> [] ->
  exists info l,
    to_mode_info hl map ui = Ok (info, logged l ui).
Proof.
  intros Hne. unfold to_mode_info.
  destruct (to_mode_info_loop_total hl map default_mode_info ui Hne)
    as (i1 & l1 & H1).
  rewrite H1. cbn [bind].
  destruct (_ && _); eexists _, _; reflexivity.
Qed.

Lemma mode_info_set_loop_total (property_maps : list msg_object)
    (ui : ui_controller) :
  hltable ui <> [] ->
  exists ui',
    mode_info_set_loop property_maps ui = Ok ui' /\
    current_mode ui' = current_mode ui /\
    hltable ui' = hltable ui /\
    writing_grid ui' = writing_grid ui.
Proof.
  revert ui. induction property_maps as [| object rest IH]; intros ui Hne.
  - exists ui. repeat split; reflexivity.
  - cbn [mode_info_set_loop].
    assert (Hskip : exists ui',
      mode_info_set_loop rest
        (os_log (err_cursor_property_map_type object) ui) = Ok ui' /\
      current_mode ui' = current_mode ui /\ hltable ui' = hltable ui /\
      writing_grid ui' = writing_grid ui).
    { destruct (IH (os_log (err_cursor_property_map_type object) ui) Hne)
        as (ui' & H & Hc & Hh & Hw).
      exists ui'. repeat split; assumption. }
    destruct object; try exact Hskip.
    destruct (to_mode_info_total (hltable ui) pairs ui Hne) as (info & l & H).
    rewrite H. cbn [bind].
    destruct (IH (set_mode_info_table
                    (mode_info_table (logged l ui) ++ [info]) (logged l ui))
                 Hne) as (ui' & H' & Hc & Hh & Hw).
    exists ui'. repeat split; assumption.
Qed.

Lemma writing_grid_set_writing_grid (g : grid) (ui : ui_controller) :
  writing_grid (set_writing_grid g ui) = g.
Proof.
  unfold writing_grid, set_writing_grid. destruct ui as [? ? [] ? ? ? ? ? ? ? ? ?];
    reflexivity.
Qed.

(** C5 (as the code has it). [mode_info_set] resets the current-mode index
    to 0.  [mode_change] with an index inside the mode table installs the
    cursor attributes of that mode on the writing grid and leaves the
    current-mode index as it was; with an index outside the table it logs
    and changes nothing else, so the cursor attributes selected before stay
    in effect. *)
Theorem mode_change_selects_cursor :
  (forall (enabled : bool) (property_maps : list msg_object)
          (ui : ui_controller),
      hltable ui <> [] ->
      exists ui',
        mode_info_set enabled property_maps ui = Ok ui' /\
        current_mode ui' = 0) /\
  (forall (name : string) (index : Z) (ui : ui_controller) (info : mode_info),
      0 <= index ->
      mode_info_table ui !! Z.to_nat index = Some info ->
      exists ui',
        mode_change name index ui = Ok ui' /\
        cursor_attrs (writing_grid ui') = mode_cursor_attrs info /\
        current_mode ui' = current_mode ui) /\
  (forall (name : string) (index : Z) (ui : ui_controller),
      Z.of_nat (length (mode_info_table ui)) <= index ->
      mode_change name index ui
      = Ok (os_log (err_mode_index_out_of_bounds
                      (Z.of_nat (length (mode_info_table ui))) index) ui) /\
      cursor_attrs
        (writing_grid
           (os_log (err_mode_index_out_of_bounds
                      (Z.of_nat (length (mode_info_table ui))) index) ui))
      = cursor_attrs (writing_grid ui)).
Proof.
  split; [| split].
  - intros enabled property_maps ui Hne. unfold mode_info_set.
    destruct (mode_info_set_loop_total property_maps
                (set_current_mode 0 (set_mode_info_table [] ui)) Hne)
      as (ui' & H & Hc & _).
    exists ui'. split; [exact H | exact Hc].
  - intros name index ui info Hpos Hlook. unfold mode_change.
    pose proof (lookup_lt_Some _ _ _ Hlook) as Hlt.
    destruct (Z.leb_spec (Z.of_nat (length (mode_info_table ui))) index)
      as [Hle | _]; [lia |].
    rewrite Hlook. eexists. split; [reflexivity |].
    rewrite writing_grid_set_writing_grid. split; [reflexivity |].
    destruct ui as [? ? [] ? ? ? ? ? ? ? ? ?]; reflexivity.
  - intros name index ui Hle. unfold mode_change.
    destruct (Z.leb_spec (Z.of_nat (length (mode_info_table ui))) index)
      as [_ | Hlt]; [| lia].
    split; [reflexivity |].
    destruct ui as [? ? [] ? ? ? ? ? ? ? ? ?]; reflexivity.
Qed.

(** *** Options *)

Lemma options_eqb_eq (a b : options) : options_eqb a b = true <-> a = b.
Proof.
  split.
  - destruct a, b. unfold options_eqb. cbn.
    rewrite !andb_true_iff, !eqb_true_iff.
    intros [[[[[[[-> ->] ->] ->] ->] ->] ->] ->]. reflexivity.
  - intros ->. destruct b. unfold options_eqb. cbn.
    now rewrite !eqb_reflx.
Qed.






(** *** Argument binding *)

Lemma is_all_accepts (Ts : list param) (args extra : list msg_object) :
  Forall2 (fun T o => is_ T o = true) Ts args ->
  is_all Ts (args ++ extra) = true /\
  (length Ts <=? length (args ++ extra))%nat = true.
Proof.
  intros H. induction H as [| T o Ts args Ho H IH]; cbn.
  - split; [reflexivity |]. now destruct extra.
  - destruct IH as [IH1 IH2]. rewrite Ho, IH1. split; [reflexivity |].
    exact IH2.
Qed.

Lemma is_all_prefix (Ts : list param) (args : list msg_object) :
  is_all Ts args = true ->
  exists a e, args = a ++ e /\ Forall2 (fun T o => is_ T o = true) Ts a.
Proof.
  revert args. induction Ts as [| T Ts IH]; intros args H.
  - exists [], args. split; [reflexivity | constructor].
  - destruct args as [| o args]; cbn in H; [discriminate |].
    apply andb_true_iff in H as [Ho H].
    destruct (IH args H) as (a & e & -> & Hall).
    exists (o :: a), e. split; [reflexivity | now constructor].
Qed.

(** The elements after the declared parameters are not looked at. *)
Lemma call_ignores_extra (Ts : list param) (f : member_function Ts)
    (args extra : list msg_object) (ui : ui_controller) :
  Forall2 (fun T o => is_ T o = true) Ts args ->
  call Ts f (args ++ extra) ui = call Ts f args ui.
Proof.
  intros H. revert f. induction H as [| T o Ts args Ho H IH]; intros f.
  - reflexivity.
  - cbn. destruct (get_ T o) as [v | e]; cbn; [apply IH | reflexivity].
Qed.

Lemma apply_one_rejects (Ts : list param) (f : member_function Ts)
    (name : string) (object : msg_object) (ui : ui_controller) :
  ~ tuple_accepted Ts object ->
  apply_one Ts f name object ui
  = Ok (os_log (err_argument_type name object) ui).
Proof.
  intros Hno. unfold apply_one.
  destruct object as [| | | | args |]; try reflexivity.
  destruct (is_all Ts args) eqn:E; [| now rewrite andb_false_r].
  exfalso. apply Hno. destruct (is_all_prefix Ts args E) as (a & e & -> & H).
  now exists a, e.
Qed.

(** C3 (as the code has it). A tuple is bound to the handler exactly when it
    is a sequence that starts with one value of each declared parameter
    type: any integer is accepted for an integral parameter and converted by
    narrowing, any value is accepted for an opaque parameter, and elements
    after the declared parameters are ignored.  Any other tuple is logged as
    a type error and skipped, and the tuples and events after it are
    processed all the same. *)
Theorem apply_one_binds_leading_values (Ts : list param)
    (f : member_function Ts) (name : string) :
  (forall (args extra : list msg_object) (ui : ui_controller),
      Forall2 (fun T o => is_ T o = true) Ts args ->
      apply_one Ts f name (MArr (args ++ extra)) ui = call Ts f args ui) /\
  (forall (object : msg_object) (ui : ui_controller),
      ~ tuple_accepted Ts object ->
      apply_one Ts f name object ui
      = Ok (os_log (err_argument_type name object) ui)) /\
  (forall (pre post : list msg_object) (object : msg_object)
          (ui : ui_controller),
      ~ tuple_accepted Ts object ->
      apply Ts f name (pre ++ object :: post) ui
      = let* ui1 := apply Ts f name pre ui in
        apply Ts f name post (os_log (err_argument_type name object) ui1)) /\
  (forall (event : msg_object) (events : list msg_object)
          (ui : ui_controller),
      redraw (event :: events) ui
      = let* ui1 := redraw_event event ui in redraw events ui1) /\
  (forall z : Z,
      is_ p_size_t (MInt z) = true /\ get_ p_size_t (MInt z) = Ok (z mod 2 ^ 64)
      /\ is_ p_uint32 (MInt z) = true
      /\ get_ p_uint32 (MInt z) = Ok (z mod 2 ^ 32)
      /\ is_ p_long (MInt z) = true) /\
  (forall o : msg_object, is_ p_object o = true /\ get_ p_object o = Ok o) /\
  (forall (T : param) (o : msg_object),
      is_ T o = true -> exists v, get_ T o = Ok v).
Proof.
  split; [| split; [| split; [| split; [| split; [| split]]]]].
  - intros args extra ui H. unfold apply_one.
    destruct (is_all_accepts Ts args extra H) as [-> ->]. cbn [andb].
    now apply call_ignores_extra.
  - intros object ui. apply apply_one_rejects.
  - intros pre post object ui Hno. revert ui.
    induction pre as [| t pre IH]; intros ui.
    + cbn [app apply bind]. now rewrite apply_one_rejects.
    + cbn [app apply].
      destruct (apply_one Ts f name t ui) as [ui1 | e]; cbn [bind];
        [apply IH | reflexivity].
  - reflexivity.
  - intros z. repeat split; reflexivity.
  - intros o. split; [now destruct o | reflexivity].
  - intros T o H. destruct T, o; try discriminate H; eexists; reflexivity.
Qed.

(** *** Default colours *)




(** *** Cell updates *)


Lemma store_lookup {A : Type} (l l' : list A) (i : Z) (x : A) :
  store l i x = Ok l' ->
  l' = <[Z.to_nat i := x]> l /\ 0 <= i < Z.of_nat (length l) /\
  l' !! Z.to_nat i = Some x /\ length l' = length l.
Proof.
  unfold store, in_bounds.
  destruct (Z.leb_spec 0 i) as [Hlo | Hlo];
    destruct (Z.ltb_spec i (Z.of_nat (length l))) as [Hhi | Hhi];
    cbn; intros Heq; inversion Heq; subst.
  split; [reflexivity |]. split; [lia |]. split.
  - apply list_lookup_insert_eq. lia.
  - apply length_insert.
Qed.

Lemma line_of_result_next (r : result line_state) (s : line_state) :
  line_of_result r = line_next s -> r = Ok s.
Proof. destruct r; cbn; congruence. Qed.

Lemma bind_Ok {A B : Type} (r : result A) (k : A -> result B) (b : B) :
  bind r k = Ok b -> exists a, r = Ok a /\ k a = Ok b.
Proof. destruct r as [a | e]; cbn; [eauto | discriminate]. Qed.



(** *** Row overflow *)

Lemma fill_frame (k : nat) (cs cs' : list cell) (i : Z) (c : cell) :
  fill k cs i c = Ok cs' ->
  length cs' = length cs /\
  forall j : nat,
    Z.of_nat j < i \/ i + Z.of_nat k <= Z.of_nat j -> cs' !! j = cs !! j.
Proof.
  revert cs i. induction k as [| k IH]; intros cs i H.
  - cbn in H. inversion H. split; reflexivity.
  - cbn [fill] in H. apply bind_Ok in H as (cs1 & H1 & H).
    apply store_lookup in H1 as (-> & Hb & _ & Hlen).
    destruct (IH _ _ H) as [Hl Hf]. split; [congruence |].
    intros j Hj. rewrite Hf by lia.
    apply list_lookup_insert_ne. lia.
Qed.

Lemma cell_update_set_repeat (object : msg_object) (hl : highlight_table)
    (u u' : cell_update) :
  cell_update_set object hl u = Some u' ->
  0 <= repeat u' /\ (positive_repeat object = true -> 1 <= repeat u').
Proof.
  unfold cell_update_set, positive_repeat.
  repeat match goal with
         | |- context [match ?x with _ => _ end] => destruct x
         end; intros H; inversion H; subst; cbn [repeat];
    try (split; [lia | intros _; lia]).
  unfold as_size_t in *.
  match goal with
  | |- context [?z mod 2 ^ 64] =>
      pose proof (Z.mod_pos_bound z (2 ^ 64) ltac:(lia)) as Hb
  end.
  split; [lia |].
  intros Hp. apply negb_true_iff, Z.eqb_neq in Hp. lia.
Qed.

Lemma grid_line_step_frame (hl : highlight_table) (rowbegin : Z)
    (object : msg_object) (s s' : line_state) :
  grid_line_step hl rowbegin object s = line_next s' ->
  ls_cell s <= ls_cell s' /\
  length (ls_cells s') = length (ls_cells s) /\
  (forall j : nat,
      Z.of_nat j < ls_cell s - 1 \/ ls_cell s' < Z.of_nat j ->
      ls_cells s' !! j = ls_cells s !! j) /\
  (positive_repeat object = true ->
   forall j : nat,
     ls_cell s' <= Z.of_nat j -> ls_cells s' !! j = ls_cells s !! j).
Proof.
  unfold grid_line_step.
  destruct (cell_update_set object hl (ls_update s)) as [u |] eqn:Eu;
    [| discriminate].
  destruct (cell_update_set_repeat _ _ _ _ Eu) as [Hr0 Hr1].
  destruct (ls_remaining s <? repeat u); [discriminate |].
  destruct (String.length (text u) =? 0)%nat.
  - destruct (ls_cell s =? rowbegin); [discriminate |].
    intros H. apply line_of_result_next in H.
    apply bind_Ok in H as (lcell & _ & H).
    apply bind_Ok in H as (here & _ & H).
    apply bind_Ok in H as (cs1 & H1 & H).
    apply bind_Ok in H as (cs2 & H2 & H).
    inversion H; subst; clear H. cbn [ls_cell ls_cells].
    apply store_lookup in H1 as (-> & Hb1 & _ & Hl1).
    apply store_lookup in H2 as (-> & Hb2 & _ & Hl2).
    split; [lia |]. split; [congruence |].
    assert (Hf : forall j : nat,
               Z.of_nat j < ls_cell s - 1 \/ ls_cell s + 1 <= Z.of_nat j ->
               <[Z.to_nat (ls_cell s - 1) := set_attrs
                    (or_flag flag_doublewidth (attrs lcell)) lcell]>
                 (<[Z.to_nat (ls_cell s) := set_attrs (attrs lcell) here]>
                    (ls_cells s)) !! j
               = ls_cells s !! j).
    { intros j Hj. rewrite !list_lookup_insert_ne by lia. reflexivity. }
    split; [intros j Hj; apply Hf; lia | intros _ j Hj; apply Hf; lia].
  - intros H. apply line_of_result_next in H.
    apply bind_Ok in H as (a & _ & H).
    apply bind_Ok in H as (cs1 & H1 & H).
    apply bind_Ok in H as (cs2 & H2 & H).
    inversion H; subst; clear H. cbn [ls_cell ls_cells].
    apply store_lookup in H1 as (-> & Hb1 & _ & Hl1).
    apply fill_frame in H2 as [Hl2 Hf2].
    split; [lia |]. split; [congruence |].
    split.
    + intros j Hj. rewrite Hf2 by lia.
      apply list_lookup_insert_ne. lia.
    + intros Hp j Hj. specialize (Hr1 Hp). rewrite Hf2 by lia.
      apply list_lookup_insert_ne. lia.
Qed.

Lemma grid_line_run_frame (hl : highlight_table) (rowbegin : Z)
    (objects : list msg_object) (s s' : line_state) :
  grid_line_run hl rowbegin objects s = Some s' ->
  ls_cell s <= ls_cell s' /\
  length (ls_cells s') = length (ls_cells s) /\
  (forall j : nat,
      Z.of_nat j < ls_cell s - 1 \/ ls_cell s' < Z.of_nat j ->
      ls_cells s' !! j = ls_cells s !! j) /\
  (Forall (fun o => positive_repeat o = true) objects ->
   forall j : nat,
     ls_cell s' <= Z.of_nat j -> ls_cells s' !! j = ls_cells s !! j).
Proof.
  revert s. induction objects as [| object rest IH]; intros s H.
  - cbn in H. inversion H; subst. repeat split; try reflexivity; lia.
  - cbn [grid_line_run] in H.
    destruct (grid_line_step hl rowbegin object s) as [s1 | |] eqn:E;
      try discriminate.
    destruct (grid_line_step_frame _ _ _ _ _ E) as (Hm1 & Hl1 & Hf1 & Hp1).
    destruct (IH _ H) as (Hm2 & Hl2 & Hf2 & Hp2).
    split; [lia |]. split; [congruence |]. split.
    + intros j Hj. rewrite Hf2 by lia. apply Hf1. lia.
    + intros Hall j Hj. inversion Hall; subst.
      rewrite Hp2 by assumption. apply Hp1; [assumption | lia].
Qed.

Lemma grid_line_loop_app (hl : highlight_table) (rowbegin : Z)
    (pre rest : list msg_object) (s s1 : line_state) :
  grid_line_run hl rowbegin pre s = Some s1 ->
  grid_line_loop hl rowbegin (pre ++ rest) s
  = grid_line_loop hl rowbegin rest s1.
Proof.
  revert s. induction pre as [| object pre IH]; intros s H.
  - cbn in H. now inversion H.
  - cbn [grid_line_run] in H. cbn [app grid_line_loop].
    destruct (grid_line_step hl rowbegin object s); try discriminate.
    now apply IH.
Qed.

(** C7. When the updates [pre] of a [grid_line] event have been applied and
    the repeat count of the next update exceeds what remains of the row,
    [grid_line] logs the overflow and returns: that update and the updates
    [post] after it write nothing, and the writing grid is exactly the grid
    the updates [pre] alone produce, so the cells they wrote keep their new
    values.  The cells beyond the overflow point, and the cells more than
    one place before the starting column, are as they were before the
    event; when no update of [pre] carries the repeat count 0 this also
    holds for the cell at the overflow point. *)
Theorem grid_line_row_overflow (ui : ui_controller) (row col : Z)
    (pre post : list msg_object) (object : msg_object) (s1 : line_state)
    (update : cell_update) :
  let g := writing_grid ui in
  row < grid_height g ->
  col < grid_width g ->
  grid_line_run (hltable ui) (grid_get g row 0) pre (grid_line_enter g row col)
  = Some s1 ->
  cell_update_set object (hltable ui) (ls_update s1) = Some update ->
  ls_remaining s1 < repeat update ->
  grid_line 1 row col (pre ++ object :: post) ui
  = Ok (os_log err_row_overflow
          (set_writing_grid (set_cells (ls_cells s1) g) ui)) /\
  grid_line 1 row col pre ui
  = Ok (set_writing_grid (set_cells (ls_cells s1) g) ui) /\
  length (ls_cells s1) = length (cells g) /\
  (forall j : nat,
      ls_cell s1 < Z.of_nat j \/ Z.of_nat j < grid_get g row 0 + col - 1 ->
      ls_cells s1 !! j = cells g !! j) /\
  (Forall (fun o => positive_repeat o = true) pre ->
   forall j : nat,
     ls_cell s1 <= Z.of_nat j -> ls_cells s1 !! j = cells g !! j).
Proof.
  intros g Hrow Hcol Hrun Hset Hover.
  assert (Hpre : forall rest,
    grid_line 1 row col (pre ++ rest) ui
    = let* out := grid_line_loop (hltable ui) (grid_get g row 0) rest s1 in
      Ok (log_opt (snd out)
            (set_writing_grid (set_cells (fst out) g) ui))).
  { intros rest. unfold grid_line.
    change (get_grid 1 ui) with (Ok (writing ui)). cbn [bind].
    fold (writing_grid ui). fold g.
    destruct (Z.leb_spec (grid_height g) row) as [E | _]; [lia |].
    destruct (Z.leb_spec (grid_width g) col) as [E | _]; [lia |].
    cbn [orb]. now rewrite (grid_line_loop_app _ _ _ _ _ _ Hrun). }
  destruct (grid_line_run_frame _ _ _ _ _ Hrun) as (_ & Hlen & Hf & Hp).
  split; [| split; [| split; [| split]]].
  - rewrite Hpre. cbn [grid_line_loop]. unfold grid_line_step.
    rewrite Hset. destruct (Z.ltb_spec (ls_remaining s1) (repeat update));
      [reflexivity | lia].
  - rewrite <- (app_nil_r pre) at 1. rewrite Hpre. reflexivity.
  - exact Hlen.
  - intros j Hj. apply Hf. cbn [grid_line_enter ls_cell]. lia.
  - exact Hp.
Qed.

(** *** Searching a string *)

Lemma first_spec_unique (q : Z -> bool) (pos hi r r' : Z) :
  hi <= npos ->
  first_spec q pos hi r -> first_spec q pos hi r' -> r = r'.
Proof.
  intros Hhi [[-> H1] | (Hr & Hq & Hm)] [[-> H2] | (Hr' & Hq' & Hm')].
  - reflexivity.
  - rewrite H1 in Hq' by lia. discriminate.
  - rewrite H2 in Hq by lia. discriminate.
  - destruct (Z.lt_trichotomy r r') as [Hlt | [Heq | Hgt]]; [| exact Heq |].
    + rewrite Hm' in Hq by lia. discriminate.
    + rewrite Hm in Hq' by lia. discriminate.
Qed.

Lemma first_spec_skip (q : Z -> bool) (pos pos' hi r : Z) :
  pos <= pos' ->
  (forall j, pos <= j < pos' -> q j = false) ->
  first_spec q pos' hi r -> first_spec q pos hi r.
Proof.
  intros Hle Hskip [[-> H] | (Hr & Hq & Hm)]; [left | right].
  - split; [reflexivity |]. intros j Hj.
    destruct (Z.lt_ge_cases j pos'); [apply Hskip | apply H]; lia.
  - split; [lia |]. split; [exact Hq |]. intros j Hj.
    destruct (Z.lt_ge_cases j pos'); [apply Hskip | apply Hm]; lia.
Qed.

Lemma find_index_spec (p : ascii -> bool) (l : list ascii) :
  match find_index p l with
  | Some k =>
      (exists c, l !! k = Some c /\ p c = true) /\
      forall (j : nat) c, (j < k)%nat -> l !! j = Some c -> p c = false
  | None => forall (j : nat) c, l !! j = Some c -> p c = false
  end.
Proof.
  induction l as [| c l IH]; cbn [find_index].
  - intros j c H. destruct j; discriminate H.
  - destruct (p c) eqn:E.
    + split; [exists c; now split | intros j c' Hj; lia].
    + destruct (find_index p l) as [k |]; cbn [option_map].
      * destruct IH as [(c' & Hc' & Hp) Hmin]. split; [exists c'; now split |].
        intros j x Hj Hx. destruct j as [| j]; cbn in Hx.
        -- inversion Hx; subst. exact E.
        -- apply (Hmin j); [lia | exact Hx].
      * intros j x Hx. destruct j as [| j]; cbn in Hx.
        -- inversion Hx; subst. exact E.
        -- apply (IH j). exact Hx.
Qed.

Lemma char_sat_lookup (p : ascii -> bool) (s : list ascii) (j : nat)
    (c : ascii) :
  s !! j = Some c -> char_sat p s (Z.of_nat j) = p c.
Proof.
  intros H. unfold char_sat.
  destruct (Z.leb_spec 0 (Z.of_nat j)); [| lia].
  now rewrite Nat2Z.id, H.
Qed.

Lemma char_sat_outside (p : ascii -> bool) (s : list ascii) (j : Z) :
  j < 0 \/ Z.of_nat (length s) <= j -> char_sat p s j = false.
Proof.
  intros H. unfold char_sat. destruct (Z.leb_spec 0 j); [| reflexivity].
  rewrite (proj2 (lookup_ge_None s (Z.to_nat j))); [reflexivity | lia].
Qed.

(** [find] and [find_first_not_of] return the first index from [pos] on
    whose character satisfies the test. *)
Lemma find_if_spec (p : ascii -> bool) (s : list ascii) (pos : Z) :
  0 <= pos -> Z.of_nat (length s) < npos ->
  first_spec (char_sat p s) pos (Z.of_nat (length s)) (find_if p s pos).
Proof.
  intros Hpos Hlen. unfold find_if.
  destruct (Z.leb_spec (Z.of_nat (length s)) pos) as [Hge | Hlt].
  - left. split; [reflexivity |]. intros j Hj. lia.
  - pose proof (find_index_spec p (drop (Z.to_nat pos) s)) as H.
    destruct (find_index p (drop (Z.to_nat pos) s)) as [k |].
    + destruct H as [(c & Hc & Hp) Hmin]. rewrite lookup_drop in Hc.
      pose proof (lookup_lt_Some _ _ _ Hc) as Hk.
      right. split; [lia |]. split.
      * replace (pos + Z.of_nat k) with (Z.of_nat (Z.to_nat pos + k)) by lia.
        now rewrite (char_sat_lookup p s _ c Hc).
      * intros j Hj.
        destruct (s !! Z.to_nat j) as [x |] eqn:Ex.
        -- replace j with (Z.of_nat (Z.to_nat j)) by lia.
           rewrite (char_sat_lookup p s _ x Ex).
           apply (Hmin (Z.to_nat j - Z.to_nat pos)%nat); [lia |].
           rewrite lookup_drop.
           now replace (Z.to_nat pos + (Z.to_nat j - Z.to_nat pos))%nat
             with (Z.to_nat j) by lia.
        -- apply lookup_ge_None in Ex. lia.
    + left. split; [reflexivity |]. intros j Hj.
      destruct (s !! Z.to_nat j) as [x |] eqn:Ex.
      * replace j with (Z.of_nat (Z.to_nat j)) by lia.
        rewrite (char_sat_lookup p s _ x Ex).
        apply (H (Z.to_nat j - Z.to_nat pos)%nat).
        rewrite lookup_drop.
        now replace (Z.to_nat pos + (Z.to_nat j - Z.to_nat pos))%nat
          with (Z.to_nat j) by lia.
      * apply lookup_ge_None in Ex. lia.
Qed.

Lemma char_at_char_sat (s : list ascii) (j : Z) (c : ascii) :
  char_at s j c = char_sat (Ascii.eqb c) s j.
Proof.
  unfold char_at, char_sat.
  destruct (if 0 <=? j then s !! Z.to_nat j else None); [| reflexivity].
  apply Ascii.eqb_sym.
Qed.

Lemma is_separator_outside (s : list ascii) (j : Z) :
  j < 0 \/ Z.of_nat (length s) <= j -> is_separator s j = false.
Proof.
  intros H. unfold is_separator.
  now rewrite char_at_char_sat, (char_sat_outside _ _ _ H).
Qed.

(** [find_unescaped_comma] returns the first separator from [pos] on, and
    the fuel of its loop never runs out. *)
Lemma find_unescaped_comma_loop_spec (s : list ascii) (fuel : nat) (pos : Z) :
  0 <= pos -> Z.of_nat (length s) < npos ->
  Z.of_nat (length s) - pos < Z.of_nat fuel ->
  first_spec (is_separator s) pos (Z.of_nat (length s))
             (find_unescaped_comma_loop fuel s pos).
Proof.
  intros Hpos Hlen. revert pos Hpos.
  induction fuel as [| fuel IH]; intros pos Hpos Hfuel.
  - left. split; [reflexivity |]. intros j Hj. lia.
  - cbn [find_unescaped_comma_loop]. unfold find.
    pose proof (find_if_spec (Ascii.eqb ",") s pos Hpos Hlen) as Hfind.
    set (r := find_if (Ascii.eqb ",") s pos) in *.
    assert (Hnosep : forall j, char_sat (Ascii.eqb ",") s j = false ->
                               is_separator s j = false).
    { intros j Hj. unfold is_separator. now rewrite char_at_char_sat, Hj. }
    destruct Hfind as [[-> Hnone] | (Hr & Hq & Hmin)].
    + rewrite Z.eqb_refl. left. split; [reflexivity |].
      intros j Hj. apply Hnosep, Hnone. exact Hj.
    + destruct (Z.eqb_spec r npos) as [E | _]; [lia |].
      destruct (negb (r =? 0) && negb (char_at s (r - 1) "\")) eqn:Esep.
      * right. split; [exact Hr |]. split.
        -- unfold is_separator. rewrite char_at_char_sat, Hq.
           apply andb_true_iff in Esep as [-> ->]. reflexivity.
        -- intros j Hj. apply Hnosep, Hmin. exact Hj.
      * unfold as_size_t. rewrite Z.mod_small by (unfold npos in *; lia).
        apply (first_spec_skip _ pos (r + 1)); [lia | |].
        -- intros j Hj. destruct (Z.eq_dec j r) as [-> | Hne].
           ++ unfold is_separator. rewrite char_at_char_sat, Hq. cbn [andb].
              exact Esep.
           ++ apply Hnosep, Hmin. lia.
        -- apply IH; lia.
Qed.

Lemma find_unescaped_comma_spec (s : list ascii) (pos : Z) :
  0 <= pos -> Z.of_nat (length s) < npos ->
  first_spec (is_separator s) pos (Z.of_nat (length s))
             (find_unescaped_comma s pos).
Proof.
  intros Hpos Hlen. apply find_unescaped_comma_loop_spec; try assumption.
  lia.
Qed.

(** *** Searching behind a prefix *)

Lemma char_sat_app_r (q : ascii -> bool) (p rest : list ascii) (j : Z) :
  0 <= j ->
  char_sat q (p ++ rest) (Z.of_nat (length p) + j) = char_sat q rest j.
Proof.
  intros Hj. unfold char_sat.
  destruct (Z.leb_spec 0 (Z.of_nat (length p) + j)); [| lia].
  destruct (Z.leb_spec 0 j); [| lia].
  rewrite lookup_app_r by lia.
  now replace (Z.to_nat (Z.of_nat (length p) + j) - length p)%nat
    with (Z.to_nat j) by lia.
Qed.

Lemma char_sat_app_l (q : ascii -> bool) (p rest : list ascii) (j : Z) :
  j < Z.of_nat (length p) ->
  char_sat q (p ++ rest) j = char_sat q p j.
Proof.
  intros Hj. unfold char_sat. destruct (Z.leb_spec 0 j); [| reflexivity].
  now rewrite lookup_app_l by lia.
Qed.

Lemma first_spec_shift (q q' : Z -> bool) (a x hi r : Z) :
  0 <= a -> hi <= npos ->
  (forall j, x <= j -> q' (a + j) = q j) ->
  first_spec q x hi r ->
  first_spec q' (a + x) (a + hi) (shift_index a r).
Proof.
  intros Ha Hhi Hq [[-> Hnone] | (Hr & Hqr & Hmin)]; unfold shift_index.
  - rewrite Z.eqb_refl. left. split; [reflexivity |]. intros j Hj.
    replace j with (a + (j - a)) by lia. rewrite Hq by lia.
    apply Hnone. lia.
  - destruct (Z.eqb_spec r npos) as [E | _]; [lia |].
    right. split; [lia |]. split; [now rewrite Hq by lia |].
    intros j Hj. replace j with (a + (j - a)) by lia. rewrite Hq by lia.
    apply Hmin. lia.
Qed.

Lemma find_if_shift (q : ascii -> bool) (p rest : list ascii) (x : Z) :
  0 <= x -> Z.of_nat (length (p ++ rest)) < npos ->
  find_if q (p ++ rest) (Z.of_nat (length p) + x)
  = shift_index (Z.of_nat (length p)) (find_if q rest x).
Proof.
  intros Hx Hlen. pose proof Hlen as Hlen'. rewrite length_app in Hlen'.
  apply (first_spec_unique (char_sat q (p ++ rest))
           (Z.of_nat (length p) + x) (Z.of_nat (length (p ++ rest))));
    [lia | apply find_if_spec; lia |].
  rewrite length_app, Nat2Z.inj_add.
  apply (first_spec_shift (char_sat q rest)); try lia.
  - intros j Hj. apply char_sat_app_r. lia.
  - apply find_if_spec; lia.
Qed.

Lemma is_separator_app_r (p rest : list ascii) (j : Z) :
  0 <= j -> (j = 0 -> char_at rest 0 "," = false) ->
  is_separator (p ++ rest) (Z.of_nat (length p) + j) = is_separator rest j.
Proof.
  intros Hj H0. unfold is_separator. rewrite !char_at_char_sat.
  rewrite char_sat_app_r by lia.
  destruct (Z.eq_dec j 0) as [-> | Hne].
  - rewrite <- char_at_char_sat, H0 by reflexivity. reflexivity.
  - replace (Z.of_nat (length p) + j - 1)
      with (Z.of_nat (length p) + (j - 1)) by lia.
    rewrite char_sat_app_r by lia.
    destruct (Z.eqb_spec (Z.of_nat (length p) + j) 0); [lia |].
    destruct (Z.eqb_spec j 0); [lia |]. reflexivity.
Qed.

Lemma find_unescaped_comma_shift (p rest : list ascii) (x : Z) :
  0 <= x -> Z.of_nat (length (p ++ rest)) < npos ->
  (x = 0 -> char_at rest 0 "," = false) ->
  find_unescaped_comma (p ++ rest) (Z.of_nat (length p) + x)
  = shift_index (Z.of_nat (length p)) (find_unescaped_comma rest x).
Proof.
  intros Hx Hlen H0. pose proof Hlen as Hlen'. rewrite length_app in Hlen'.
  apply (first_spec_unique (is_separator (p ++ rest))
           (Z.of_nat (length p) + x) (Z.of_nat (length (p ++ rest))));
    [lia | apply find_unescaped_comma_spec; lia |].
  rewrite length_app, Nat2Z.inj_add.
  apply (first_spec_shift (is_separator rest)); try lia.
  - intros j Hj. apply is_separator_app_r; [lia |].
    intros ->. apply H0. lia.
  - apply find_unescaped_comma_spec; lia.
Qed.

Lemma drop_behind_prefix {A : Type} (p rest : list A) (i : Z) :
  0 <= i ->
  drop (Z.to_nat (Z.of_nat (length p) + i)) (p ++ rest)
  = drop (Z.to_nat i) rest.
Proof.
  intros Hi.
  replace (Z.to_nat (Z.of_nat (length p) + i))
    with (length p + Z.to_nat i)%nat by lia.
  apply drop_app_add.
Qed.

Lemma get_fonts_loop_npos (fuel : nat) (s : list ascii)
    (default_size : double) :
  Z.of_nat (length s) < npos ->
  get_fonts_loop (S fuel) s default_size npos = Fault fault_out_of_range.
Proof.
  intros Hlen. cbn [get_fonts_loop].
  assert (E : find_unescaped_comma s npos = npos).
  { unfold find_unescaped_comma. cbn [find_unescaped_comma_loop].
    unfold find, find_if.
    destruct (Z.leb_spec (Z.of_nat (length s)) npos); [| lia].
    reflexivity. }
  rewrite E, Z.eqb_refl. unfold substr_from.
  destruct (Z.ltb_spec (Z.of_nat (length s)) npos); [reflexivity | lia].
Qed.

(** The iterations of [get_fonts] from an index behind a prefix [p] are
    those on the rest of the string alone, and the fuel does not matter once
    it covers the rest. *)
Lemma get_fonts_loop_shift (p rest : list ascii) (default_size : double)
    (fuel1 fuel2 : nat) (i : Z) :
  Z.of_nat (length (p ++ rest)) < npos ->
  0 <= i <= Z.of_nat (length rest) ->
  Z.of_nat (length rest) - i < Z.of_nat fuel1 ->
  Z.of_nat (length rest) - i < Z.of_nat fuel2 ->
  (i = 0 -> char_at rest 0 "," = false) ->
  get_fonts_loop fuel1 (p ++ rest) default_size (Z.of_nat (length p) + i)
  = get_fonts_loop fuel2 rest default_size i.
Proof.
  intros Hlen. pose proof Hlen as Hlen'. rewrite length_app in Hlen'.
  revert fuel2 i.
  induction fuel1 as [| fuel1 IH]; intros fuel2 i Hi Hf1 Hf2 H0; [lia |].
  destruct fuel2 as [| fuel2]; [lia |].
  cbn [get_fonts_loop].
  rewrite (find_unescaped_comma_shift p rest i) by (assumption || lia).
  pose proof (find_unescaped_comma_spec rest i ltac:(lia) ltac:(lia)) as Hs.
  set (r := find_unescaped_comma rest i) in *.
  unfold shift_index.
  destruct Hs as [[Hr _] | (Hr & _ & _)].
  - rewrite Hr, !Z.eqb_refl. unfold substr_from.
    destruct (Z.ltb_spec (Z.of_nat (length (p ++ rest)))
                         (Z.of_nat (length p) + i)) as [E | _];
      [rewrite length_app in E; lia |].
    destruct (Z.ltb_spec (Z.of_nat (length rest)) i) as [E | _]; [lia |].
    cbn [bind].
    rewrite drop_behind_prefix by lia. reflexivity.
  - destruct (Z.eqb_spec r npos) as [E | _]; [lia |].
    destruct (Z.eqb_spec (Z.of_nat (length p) + r) npos) as [E | _]; [lia |].
    unfold substr.
    destruct (Z.ltb_spec (Z.of_nat (length (p ++ rest)))
                         (Z.of_nat (length p) + i)) as [E | _];
      [rewrite length_app in E; lia |].
    destruct (Z.ltb_spec (Z.of_nat (length rest)) i) as [E | _]; [lia |].
    cbn [bind].
    rewrite drop_behind_prefix by lia.
    replace (Z.of_nat (length p) + r - (Z.of_nat (length p) + i))
      with (r - i) by lia.
    unfold as_size_t.
    rewrite !Z.mod_small by (unfold npos in *; lia).
    replace (Z.of_nat (length p) + r + 1)
      with (Z.of_nat (length p) + (r + 1)) by lia.
    unfold find_first_not_of.
    rewrite (find_if_shift _ p rest (r + 1)) by (assumption || lia).
    pose proof (find_if_spec (fun x => negb (Ascii.eqb " " x)) rest (r + 1)
                  ltac:(lia) ltac:(lia)) as Hn.
    set (i' := find_if (fun x => negb (Ascii.eqb " " x)) rest (r + 1)) in *.
    unfold shift_index.
    destruct Hn as [[Hi' _] | (Hi' & _ & _)].
    + rewrite Hi', Z.eqb_refl.
      destruct fuel1 as [| fuel1]; [lia |].
      destruct fuel2 as [| fuel2]; [lia |].
      rewrite !get_fonts_loop_npos by lia. reflexivity.
    + destruct (Z.eqb_spec i' npos) as [E | _]; [lia |].
      rewrite (IH fuel2 i') by lia. reflexivity.
Qed.

(** *** Font sizes *)

Lemma decimal_snoc (digits : list ascii) (c : ascii) :
  decimal (digits ++ [c]) = 10 * decimal digits + digit_value c.
Proof. unfold decimal. now rewrite fold_left_app. Qed.

Lemma as_size_t_accumulate (size multiply d v : Z) :
  as_size_t (as_size_t (size + multiply * d) + as_size_t (multiply * 10) * v)
  = as_size_t (size + multiply * (10 * v + d)).
Proof.
  unfold as_size_t.
  rewrite Zplus_mod_idemp_l.
  rewrite <- Zplus_mod_idemp_r, Zmult_mod_idemp_l, Zplus_mod_idemp_r.
  f_equal. ring.
Qed.

(** The loop of [make_font] on a string that ends with a character [c] that
    is not a digit, the digits [digits], and the [post] already passed: it
    stops on [c] with the number the digits denote, modulo [2 ^ 64], added
    to [size]. *)
Lemma scan_size_digits (digits : list ascii) :
  forall (pre post : list ascii) (c : ascii) (fuel : nat)
         (multiply size : Z),
    Forall (fun x => isdigit x = true) digits ->
    isdigit c = false ->
    0 <= size < 2 ^ 64 ->
    (length digits < fuel)%nat ->
    scan_size fuel ((pre ++ [c]) ++ digits ++ post)
              (Z.of_nat (length (pre ++ [c]) + length digits)) multiply size
    = (Z.of_nat (length pre), as_size_t (size + multiply * decimal digits)).
Proof.
  induction digits as [| x digits IH] using rev_ind;
    intros pre post c fuel multiply size Hall Hc Hsize Hfuel.
  - destruct fuel as [| fuel]; [cbn in Hfuel; lia |].
    cbn [scan_size]. rewrite length_app. cbn [length].
    destruct (Z.eqb_spec (Z.of_nat (length pre + 1 + 0)) 0) as [E | _];
      [lia |].
    replace (Z.to_nat (Z.of_nat (length pre + 1 + 0) - 1))
      with (length pre) by lia.
    rewrite <- app_assoc, lookup_app_r by lia.
    rewrite Nat.sub_diag. cbn [app lookup list_lookup]. rewrite Hc.
    f_equal; [lia |]. unfold decimal, as_size_t. cbn [fold_left].
    rewrite Z.mul_0_r, Z.add_0_r. symmetry. now apply Z.mod_small.
  - destruct fuel as [| fuel]; [cbn in Hfuel; lia |].
    apply Forall_app in Hall as [Hall Hx].
    apply Forall_inv in Hx.
    rewrite length_app in Hfuel. cbn [length] in Hfuel.
    cbn [scan_size]. rewrite !length_app. cbn [length].
    destruct (Z.eqb_spec
                (Z.of_nat (length pre + 1 + (length digits + 1))) 0)
      as [E | _]; [lia |].
    replace (Z.of_nat (length pre + 1 + (length digits + 1)) - 1)
      with (Z.of_nat (length (pre ++ [c]) + length digits))
      by (rewrite length_app; cbn [length]; lia).
    rewrite Nat2Z.id.
    assert (Hlook : ((pre ++ [c]) ++ (digits ++ [x]) ++ post)
                      !! (length (pre ++ [c]) + length digits)%nat
                    = Some x).
    { rewrite lookup_app_r by lia.
      replace (length (pre ++ [c]) + length digits - length (pre ++ [c]))%nat
        with (length digits) by lia.
      rewrite <- app_assoc, lookup_app_r by lia.
      now rewrite Nat.sub_diag. }
    rewrite Hlook, Hx.
    replace ((pre ++ [c]) ++ (digits ++ [x]) ++ post)
      with ((pre ++ [c]) ++ digits ++ ([x] ++ post))
      by now rewrite <- !app_assoc.
    rewrite IH; try assumption; try lia.
    + now rewrite decimal_snoc, as_size_t_accumulate.
    + unfold as_size_t. apply Z.mod_pos_bound. lia.
Qed.

Lemma char_at_lookup (s : list ascii) (j : nat) (c : ascii) :
  s !! j = Some c -> char_at s (Z.of_nat j) c = true.
Proof.
  intros H. rewrite char_at_char_sat, (char_sat_lookup _ _ _ _ H).
  apply Ascii.eqb_refl.
Qed.

(** A field that ends with [":h"] and digits: the suffix is stripped when
    the digits denote a size that is not 0 modulo [2 ^ 64]. *)
Lemma make_font_suffix (family digits : list ascii) (default_size : double) :
  Forall (fun x => isdigit x = true) digits ->
  make_font (family ++ ":"%char :: "h"%char :: digits) default_size
  = if as_size_t (decimal digits) =? 0
    then mk_font (string_of_list_ascii (family ++ ":"%char :: "h"%char :: digits))
                 default_size
    else mk_font (string_of_list_ascii family)
                 (double_of_size_t (as_size_t (decimal digits))).
Proof.
  intros Hall. unfold make_font.
  set (s := family ++ ":"%char :: "h"%char :: digits).
  assert (Hs : s = ((family ++ [":"%char]) ++ ["h"%char]) ++ digits ++ [])
    by (unfold s; now rewrite app_nil_r, <- !app_assoc).
  assert (Hlen : length s
                 = (length ((family ++ [":"%char]) ++ ["h"%char])
                    + length digits)%nat)
    by (rewrite Hs, app_nil_r, length_app; reflexivity).
  rewrite Hlen. rewrite Hs at 1.
  rewrite scan_size_digits; try assumption; try reflexivity; try lia;
    [| rewrite !length_app; cbn [length]; lia].
  rewrite Z.add_0_l, Z.mul_1_l.
  destruct (as_size_t (decimal digits) =? 0); cbn [negb andb];
    [reflexivity |].
  rewrite length_app. cbn [length].
  assert (Hh : s !! (length family + 1)%nat = Some "h"%char).
  { unfold s. rewrite lookup_app_r by lia.
    now replace (length family + 1 - length family)%nat with 1%nat by lia. }
  assert (Hc : s !! length family = Some ":"%char).
  { unfold s. rewrite lookup_app_r by lia. now rewrite Nat.sub_diag. }
  destruct (Z.eqb_spec (Z.of_nat (length family + 1)) 0) as [E | _]; [lia |].
  rewrite (char_at_lookup _ _ _ Hh).
  replace (Z.of_nat (length family + 1) - 1) with (Z.of_nat (length family))
    by lia.
  rewrite (char_at_lookup _ _ _ Hc). cbn [negb andb].
  rewrite Nat2Z.id. unfold s. now rewrite take_app_length.
Qed.

(** A field that does not end with a digit is a family name as a whole. *)
Lemma make_font_no_size (pre : list ascii) (c : ascii)
    (default_size : double) :
  isdigit c = false ->
  make_font (pre ++ [c]) default_size
  = mk_font (string_of_list_ascii (pre ++ [c])) default_size.
Proof.
  intros Hc. unfold make_font.
  pose proof (scan_size_digits [] pre [] c (length (pre ++ [c])) 1 0
                (List.Forall_nil _) Hc ltac:(lia)
                ltac:(rewrite length_app; cbn; lia)) as H.
  cbn [length app] in H. rewrite app_nil_r, Nat.add_0_r in H.
  rewrite H. reflexivity.
Qed.

(** A field is made of digits only, or has a last character that is not a
    digit, followed by digits. *)
Lemma trailing_digits_split (f : list ascii) :
  forallb isdigit f = true \/
  exists (pre : list ascii) (c : ascii) (digits : list ascii),
    f = pre ++ c :: digits /\ isdigit c = false /\
    forallb isdigit digits = true.
Proof.
  induction f as [| x f IH]; [now left |].
  destruct IH as [Hall | (pre & c & digits & -> & Hc & Hd)].
  - destruct (isdigit x) eqn:Ex.
    + left. cbn [forallb]. now rewrite Ex.
    + right. exists [], x, f. now repeat split.
  - right. exists (x :: pre), c, digits. now repeat split.
Qed.

Lemma forallb_Forall_isdigit (digits : list ascii) :
  forallb isdigit digits = true ->
  Forall (fun x => isdigit x = true) digits.
Proof.
  intros Hd. apply Forall_forall. intros x Hx. rewrite forallb_forall in Hd.
  apply Hd. now apply list_elem_of_In.
Qed.

(** The loop of [make_font] on digits only: it ends with [index] 0. *)
Lemma scan_size_all_digits (digits : list ascii) :
  forall (post : list ascii) (fuel : nat) (multiply size : Z),
    Forall (fun x => isdigit x = true) digits ->
    (length digits <= fuel)%nat ->
    fst (scan_size fuel (digits ++ post) (Z.of_nat (length digits))
                   multiply size) = 0.
Proof.
  induction digits as [| x digits IH] using rev_ind;
    intros post fuel multiply size Hall Hfuel.
  - destruct fuel; reflexivity.
  - apply Forall_app in Hall as [Hall Hx]. apply Forall_inv in Hx.
    rewrite length_app in Hfuel |- *. cbn [length] in Hfuel |- *.
    destruct fuel as [| fuel]; [lia |]. cbn [scan_size].
    destruct (Z.eqb_spec (Z.of_nat (length digits + 1)) 0) as [E | _];
      [lia |].
    replace (Z.of_nat (length digits + 1) - 1) with (Z.of_nat (length digits))
      by lia.
    rewrite Nat2Z.id.
    assert (Hlook : ((digits ++ [x]) ++ post) !! length digits = Some x).
    { rewrite <- app_assoc, lookup_app_r by lia. now rewrite Nat.sub_diag. }
    rewrite Hlook, Hx. rewrite <- app_assoc. apply IH; [exact Hall | lia].
Qed.

(** A field made of digits only is a family name as a whole. *)
Lemma make_font_all_digits (digits : list ascii) (default_size : double) :
  forallb isdigit digits = true ->
  make_font digits default_size
  = mk_font (string_of_list_ascii digits) default_size.
Proof.
  intros Hd. apply forallb_Forall_isdigit in Hd. unfold make_font.
  pose proof (scan_size_all_digits digits [] (length digits) 1 0 Hd
                ltac:(lia)) as H0.
  rewrite app_nil_r in H0.
  destruct (scan_size (length digits) digits (Z.of_nat (length digits)) 1 0)
    as [index size].
  cbn [fst] in H0. subst index. cbn [Z.eqb negb].
  now rewrite andb_false_r.
Qed.

(** [make_font] on any field that has a character that is not a digit:
    [c] is the last such character, [pre] is what is before it and [digits]
    what is behind. *)
Lemma make_font_trailing_digits (pre digits : list ascii) (c : ascii)
    (default_size : double) :
  forallb isdigit digits = true ->
  isdigit c = false ->
  make_font (pre ++ c :: digits) default_size
  = if negb (as_size_t (decimal digits) =? 0) && Ascii.eqb c "h"
       && char_at pre (Z.of_nat (length pre) - 1) ":"
    then mk_font (string_of_list_ascii (take (length pre - 1) pre))
                 (double_of_size_t (as_size_t (decimal digits)))
    else mk_font (string_of_list_ascii (pre ++ c :: digits)) default_size.
Proof.
  intros Hd Hc. apply forallb_Forall_isdigit in Hd. unfold make_font.
  set (s := pre ++ c :: digits).
  assert (Hs : s = (pre ++ [c]) ++ digits ++ [])
    by (unfold s; now rewrite app_nil_r, <- app_assoc).
  assert (Hlen : length s = (length (pre ++ [c]) + length digits)%nat)
    by (rewrite Hs, app_nil_r, length_app; reflexivity).
  rewrite Hlen. rewrite Hs at 1.
  rewrite scan_size_digits; try assumption; try reflexivity; try lia;
    [| rewrite length_app; cbn [length]; lia].
  rewrite Z.add_0_l, Z.mul_1_l.
  assert (Hh : char_at s (Z.of_nat (length pre)) "h" = Ascii.eqb c "h").
  { unfold char_at.
    destruct (Z.leb_spec 0 (Z.of_nat (length pre))) as [_ | E]; [| lia].
    rewrite Nat2Z.id. unfold s. rewrite lookup_app_r by lia.
    now rewrite Nat.sub_diag. }
  rewrite Hh.
  destruct (Nat.eq_dec (length pre) 0%nat) as [E0 | Hne].
  - apply nil_length_inv in E0. subst pre.
    destruct (as_size_t (decimal digits) =? 0), (Ascii.eqb c "h");
      reflexivity.
  - destruct (Z.eqb_spec (Z.of_nat (length pre)) 0) as [E | _]; [lia |].
    cbn [negb].
    assert (Hcolon : char_at s (Z.of_nat (length pre) - 1) ":"
                     = char_at pre (Z.of_nat (length pre) - 1) ":").
    { rewrite !char_at_char_sat. unfold s. apply char_sat_app_l. lia. }
    rewrite Hcolon.
    destruct (as_size_t (decimal digits) =? 0), (Ascii.eqb c "h"),
             (char_at pre (Z.of_nat (length pre) - 1) ":");
      cbn [negb andb]; try reflexivity.
    replace (Z.to_nat (Z.of_nat (length pre) - 1)) with (length pre - 1)%nat
      by lia.
    unfold s. now rewrite take_app_le by lia.
Qed.

(** A string whose last character is [x]. *)
Lemma char_at_last (pre : list ascii) (x : ascii) :
  char_at pre (Z.of_nat (length pre) - 1) x = true ->
  pre = take (length pre - 1) pre ++ [x].
Proof.
  destruct pre as [| y pre _] using rev_ind; [discriminate |].
  rewrite length_app. cbn [length]. unfold char_at.
  destruct (Z.leb_spec 0 (Z.of_nat (length pre + 1) - 1)) as [_ | E];
    [| lia].
  replace (Z.to_nat (Z.of_nat (length pre + 1) - 1)) with (length pre) by lia.
  rewrite lookup_app_r by lia. rewrite Nat.sub_diag. cbn [lookup list_lookup].
  intros Hx. apply Ascii.eqb_eq in Hx. subst y.
  replace (length pre + 1 - 1)%nat with (length pre) by lia.
  now rewrite take_app_length.
Qed.

(** A field that is not a family, [":h"] and digits that denote a size
    other than 0 is a family name as a whole. *)
Lemma make_font_otherwise (f : list ascii) (default_size : double) :
  (forall family digits : list ascii,
      forallb isdigit digits = true ->
      f = family ++ ":"%char :: "h"%char :: digits ->
      as_size_t (decimal digits) = 0) ->
  make_font f default_size = mk_font (string_of_list_ascii f) default_size.
Proof.
  intros Hno.
  destruct (trailing_digits_split f)
    as [Hall | (pre & c & digits & -> & Hc & Hd)];
    [now apply make_font_all_digits |].
  rewrite make_font_trailing_digits by assumption.
  destruct (as_size_t (decimal digits) =? 0) eqn:Ez; [reflexivity |].
  destruct (Ascii.eqb c "h") eqn:Eh; [| reflexivity].
  destruct (char_at pre (Z.of_nat (length pre) - 1) ":") eqn:Ec;
    [| reflexivity].
  exfalso. apply Ascii.eqb_eq in Eh. subst c.
  apply char_at_last in Ec. apply Z.eqb_neq in Ez. apply Ez.
  apply (Hno (take (length pre - 1) pre) digits Hd).
  rewrite Ec at 1. now rewrite <- app_assoc.
Qed.

(** *** The font list *)

Lemma string_length_of_list (s : list ascii) :
  String.length (string_of_list_ascii s) = length s.
Proof. induction s as [| c s IH]; cbn; congruence. Qed.

Lemma parse_font_list_loop (s : list ascii) (default_size : double) :
  s <> [] ->
  parse_font_list (string_of_list_ascii s) default_size
  = get_fonts_loop (S (length s)) s default_size 0.
Proof.
  intros Hne. unfold parse_font_list.
  rewrite string_length_of_list, list_ascii_of_string_of_list_ascii.
  destruct s; [congruence | reflexivity].
Qed.

Lemma no_separator_all (f : list ascii) (j : Z) :
  no_separator f = true -> is_separator f j = false.
Proof.
  intros H.
  destruct (Z.lt_ge_cases j 0) as [Hneg | Hpos];
    [apply is_separator_outside; lia |].
  destruct (Z.lt_ge_cases j (Z.of_nat (length f))) as [Hlt | Hge];
    [| apply is_separator_outside; lia].
  unfold no_separator in H. rewrite forallb_forall in H.
  specialize (H (Z.to_nat j)). rewrite Z2Nat.id in H by lia.
  apply negb_true_iff, H, in_seq. lia.
Qed.

Lemma find_index_spaces (k : nat) (c : ascii) (rest : list ascii) :
  Ascii.eqb c " " = false ->
  find_index (fun x => negb (Ascii.eqb " " x)) (replicate k " "%char ++ c :: rest)
  = Some k.
Proof.
  intros Hc. induction k as [| k IH]; cbn [replicate app find_index].
  - now rewrite Ascii.eqb_sym, Hc.
  - rewrite Ascii.eqb_refl. cbn [negb]. now rewrite IH.
Qed.

(** The first iteration of [get_fonts] on a field, a comma, spaces and the
    start of another field. *)
Lemma get_fonts_first_field (f rest : list ascii) (k : nat)
    (default_size : double) :
  is_field f = true ->
  starts_field rest = true ->
  Z.of_nat (length (f ++ ","%char :: replicate k " "%char ++ rest)) < npos ->
  parse_font_list
    (string_of_list_ascii (f ++ ","%char :: replicate k " "%char ++ rest))
    default_size
  = let* fonts := parse_font_list (string_of_list_ascii rest) default_size in
    Ok (make_font f default_size :: fonts).
Proof.
  intros Hf Hrest Hlen.
  unfold is_field in Hf. apply andb_true_iff in Hf as [Hf Hlast].
  apply andb_true_iff in Hf as [Hne Hnosep].
  apply negb_true_iff in Hlast. apply negb_true_iff, Nat.eqb_neq in Hne.
  destruct rest as [| c rest]; [discriminate |]. cbn [starts_field] in Hrest.
  apply andb_true_iff in Hrest as [Hsp Hcomma].
  apply negb_true_iff in Hsp, Hcomma.
  set (sp := replicate k " "%char) in *.
  set (L := f ++ ","%char :: sp ++ c :: rest) in *.
  assert (HL : Z.of_nat (length L)
               = Z.of_nat (length f) + 1 + Z.of_nat k + 1
                 + Z.of_nat (length rest)).
  { unfold L, sp. rewrite length_app. cbn [length].
    rewrite length_app, length_replicate. cbn [length]. lia. }
  rewrite !parse_font_list_loop;
    [| discriminate | unfold L; destruct f; discriminate].
  set (others := get_fonts_loop (S (length (c :: rest))) (c :: rest)
                                default_size 0).
  cbn [get_fonts_loop].
  (* the first separator is the comma after [f] *)
  assert (Hpos : find_unescaped_comma L 0 = Z.of_nat (length f)).
  { apply (first_spec_unique (is_separator L) 0 (Z.of_nat (length L)));
      [lia | apply find_unescaped_comma_spec; lia |].
    right. split; [lia |]. split.
    - unfold is_separator.
      assert (Hc : L !! length f = Some ","%char)
        by (unfold L; rewrite lookup_app_r by lia; now rewrite Nat.sub_diag).
      rewrite (char_at_lookup _ _ _ Hc).
      destruct (Z.eqb_spec (Z.of_nat (length f)) 0) as [E | _]; [lia |].
      rewrite char_at_char_sat. unfold L.
      rewrite char_sat_app_l by lia.
      now rewrite <- char_at_char_sat, Hlast.
    - intros j Hj.
      rewrite <- (no_separator_all f j Hnosep).
      unfold is_separator, L. rewrite !char_at_char_sat.
      now rewrite !char_sat_app_l by lia. }
  rewrite Hpos.
  destruct (Z.eqb_spec (Z.of_nat (length f)) npos) as [E | _]; [lia |].
  unfold substr. destruct (Z.ltb_spec (Z.of_nat (length L)) 0); [lia |].
  cbn [bind]. rewrite Z.sub_0_r. unfold as_size_t.
  rewrite !Z.mod_small by (unfold npos in *; lia).
  rewrite Nat2Z.id. change (Z.to_nat 0) with 0%nat. rewrite drop_0.
  replace (take (length f) L) with f
    by (unfold L; now rewrite take_app_length).
  (* the spaces after the comma are skipped *)
  assert (Hidx : find_first_not_of L " " (Z.of_nat (length f) + 1)
                 = Z.of_nat (length (f ++ ","%char :: sp))).
  { unfold find_first_not_of.
    replace L with ((f ++ [","%char]) ++ (sp ++ c :: rest))
      by (unfold L; now rewrite <- app_assoc).
    replace (Z.of_nat (length f) + 1)
      with (Z.of_nat (length (f ++ [","%char])) + 0)
      by (rewrite length_app; cbn [length]; lia).
    rewrite find_if_shift;
      [| lia | rewrite <- app_assoc; cbn [app]; fold L; lia].
    unfold find_if.
    destruct (Z.leb_spec (Z.of_nat (length (sp ++ c :: rest))) 0) as [E | _];
      [rewrite length_app in E; cbn [length] in E; lia |].
    change (Z.to_nat 0) with 0%nat. rewrite drop_0.
    unfold sp. rewrite (find_index_spaces k c rest Hsp).
    unfold shift_index.
    destruct (Z.eqb_spec (0 + Z.of_nat k) npos) as [E | _]; [lia |].
    rewrite !length_app. cbn [length]. rewrite length_replicate. lia. }
  rewrite Hidx.
  replace L with ((f ++ ","%char :: sp) ++ c :: rest)
    by (unfold L; now rewrite <- app_assoc).
  rewrite <- (Z.add_0_r (Z.of_nat (length (f ++ ","%char :: sp)))).
  rewrite (get_fonts_loop_shift (f ++ ","%char :: sp) (c :: rest) default_size
             (length ((f ++ ","%char :: sp) ++ c :: rest))
             (S (length (c :: rest))) 0).
  - reflexivity.
  - rewrite <- app_assoc. cbn [app]. fold L. lia.
  - cbn [length]. lia.
  - rewrite !length_app. cbn [length]. lia.
  - cbn [length]. lia.
  - intros _. change (char_at (c :: rest) 0 ",") with (Ascii.eqb c ",").
    exact Hcomma.
Qed.

Lemma starts_field_join (f : list ascii) (more : list (nat * list ascii)) :
  starts_field f = true -> starts_field (join_fields f more) = true.
Proof.
  destruct more as [| [k f'] more]; [trivial |].
  destruct f; [discriminate | trivial].
Qed.

Lemma join_fields_length (f : list ascii) (k : nat) (f' : list ascii)
    (more : list (nat * list ascii)) :
  (length (join_fields f' more) < length (join_fields f ((k, f') :: more)))%nat.
Proof. cbn [join_fields]. rewrite length_app. cbn [length]. rewrite length_app. lia. Qed.

(** The fonts of a list of fields. *)
Lemma parse_font_list_join (default_size : double)
    (more : list (nat * list ascii)) :
  forall f : list ascii,
    is_field f = true ->
    Forall (fun kf => is_field (snd kf) = true
                      /\ starts_field (snd kf) = true) more ->
    Z.of_nat (length (join_fields f more)) < npos ->
    parse_font_list (string_of_list_ascii (join_fields f more)) default_size
    = Ok (map (fun x => make_font x default_size) (f :: map snd more)).
Proof.
  induction more as [| [k f'] more IH]; intros f Hf Hall Hlen.
  - cbn [join_fields map] in *. rewrite parse_font_list_loop.
    + cbn [get_fonts_loop].
      unfold is_field in Hf. apply andb_true_iff in Hf as [Hf _].
      apply andb_true_iff in Hf as [_ Hnosep].
      assert (Hpos : find_unescaped_comma f 0 = npos).
      { apply (first_spec_unique (is_separator f) 0 (Z.of_nat (length f)));
          [lia | apply find_unescaped_comma_spec; lia |].
        left. split; [reflexivity |]. intros j _.
        now apply no_separator_all. }
      rewrite Hpos, Z.eqb_refl. unfold substr_from.
      destruct (Z.ltb_spec (Z.of_nat (length f)) 0); [lia | reflexivity].
    + destruct f; [discriminate Hf | discriminate].
  - inversion Hall as [| ? ? [Hf' Hs'] Hall']; subst. cbn [snd] in *.
    pose proof (join_fields_length f k f' more) as Hlt.
    cbn [join_fields] in *.
    rewrite get_fonts_first_field;
      [| assumption | now apply starts_field_join | assumption].
    rewrite (IH f' Hf' Hall') by lia. reflexivity.
Qed.

(** C9 (as the code has it). The font list ["Menlo:h14, Courier"] gives the
    fonts Menlo of size 14 and Courier of the default size.  A string that
    is one field gives one font.  On a field followed by a comma, any number
    of spaces and the start of another field, the parser gives the font of
    the field and goes on behind the spaces: all of them are skipped; so a
    list of fields gives the fonts of its fields, in order.  The font of a
    field that ends with [":h"] and digits has the family before the suffix
    and the size the digits denote (modulo [2 ^ 64]) when that size is not
    0; when it is 0, and when the field does not end with a digit, the whole
    field is the family and the size is the default.  The same holds for
    every other field: a field that is not a family followed by [":h"] and
    digits of a size other than 0, such as ["Monaco12"], ["12"] or ["h12"],
    is a family name as a whole, with the default size; the font of a field
    is given in full by its last character that is not a digit, what is
    before it and the digits behind it. *)
Theorem parse_font_list_fields (default_size : double) :
  parse_font_list "Menlo:h14, Courier" default_size
  = Ok [mk_font "Menlo" (double_of_size_t 14);
        mk_font "Courier" default_size] /\
  (forall f : list ascii,
      f <> [] -> no_separator f = true -> Z.of_nat (length f) < npos ->
      parse_font_list (string_of_list_ascii f) default_size
      = Ok [make_font f default_size]) /\
  (forall (f rest : list ascii) (k : nat),
      is_field f = true ->
      starts_field rest = true ->
      Z.of_nat (length (f ++ ","%char :: replicate k " "%char ++ rest)) < npos ->
      parse_font_list
        (string_of_list_ascii (f ++ ","%char :: replicate k " "%char ++ rest))
        default_size
      = let* fonts :=
          parse_font_list (string_of_list_ascii rest) default_size in
        Ok (make_font f default_size :: fonts)) /\
  (forall (f : list ascii) (more : list (nat * list ascii)),
      is_field f = true ->
      Forall (fun kf => is_field (snd kf) = true
                        /\ starts_field (snd kf) = true) more ->
      Z.of_nat (length (join_fields f more)) < npos ->
      parse_font_list (string_of_list_ascii (join_fields f more))
                      default_size
      = Ok (map (fun x => make_font x default_size) (f :: map snd more))) /\
  (forall family digits : list ascii,
      forallb isdigit digits = true ->
      make_font (family ++ ":"%char :: "h"%char :: digits) default_size
      = if as_size_t (decimal digits) =? 0
        then mk_font
               (string_of_list_ascii (family ++ ":"%char :: "h"%char :: digits))
               default_size
        else mk_font (string_of_list_ascii family)
                     (double_of_size_t (as_size_t (decimal digits)))) /\
  (forall (pre : list ascii) (c : ascii),
      isdigit c = false ->
      make_font (pre ++ [c]) default_size
      = mk_font (string_of_list_ascii (pre ++ [c])) default_size) /\
  (forall f : list ascii,
      (forall family digits : list ascii,
          forallb isdigit digits = true ->
          f = family ++ ":"%char :: "h"%char :: digits ->
          as_size_t (decimal digits) = 0) ->
      make_font f default_size
      = mk_font (string_of_list_ascii f) default_size) /\
  (forall digits : list ascii,
      forallb isdigit digits = true ->
      make_font digits default_size
      = mk_font (string_of_list_ascii digits) default_size) /\
  (forall (pre digits : list ascii) (c : ascii),
      forallb isdigit digits = true ->
      isdigit c = false ->
      make_font (pre ++ c :: digits) default_size
      = if negb (as_size_t (decimal digits) =? 0) && Ascii.eqb c "h"
           && char_at pre (Z.of_nat (length pre) - 1) ":"
        then mk_font (string_of_list_ascii (take (length pre - 1) pre))
                     (double_of_size_t (as_size_t (decimal digits)))
        else mk_font (string_of_list_ascii (pre ++ c :: digits))
                     default_size) /\
  make_font (list_ascii_of_string "Monaco12") default_size
  = mk_font "Monaco12" default_size /\
  make_font (list_ascii_of_string "12") default_size
  = mk_font "12" default_size /\
  make_font (list_ascii_of_string "h12") default_size
  = mk_font "h12" default_size.
Proof.
  split; [reflexivity |].
  split; [| split; [| split; [| split; [| split; [| split; [| split;
    [| split; [| split; [| split; reflexivity]]]]]]]]].
  - intros f Hne Hnosep Hlen. rewrite parse_font_list_loop by assumption.
    cbn [get_fonts_loop].
    assert (Hpos : find_unescaped_comma f 0 = npos).
    { apply (first_spec_unique (is_separator f) 0 (Z.of_nat (length f)));
        [lia | apply find_unescaped_comma_spec; lia |].
      left. split; [reflexivity |]. intros j _.
      now apply no_separator_all. }
    rewrite Hpos, Z.eqb_refl. unfold substr_from.
    destruct (Z.ltb_spec (Z.of_nat (length f)) 0); [lia | reflexivity].
  - intros f rest k. apply get_fonts_first_field.
  - intros f more. apply parse_font_list_join.
  - intros family digits Hd. apply make_font_suffix.
    apply Forall_forall. intros x Hx. rewrite forallb_forall in Hd.
    apply Hd. now apply list_elem_of_In.
  - intros pre c. apply make_font_no_size.
  - intros f. apply make_font_otherwise.
  - intros digits. apply make_font_all_digits.
  - intros pre digits c. apply make_font_trailing_digits.
  - reflexivity.
Qed.

(** *** The invariant of the double buffer *)

Lemma call_keeps (P : ui_controller -> Prop) (Ts : list param)
    (f : member_function Ts) (args : list msg_object) :
  keeps P Ts f -> forall ui ui', P ui -> call Ts f args ui = Ok ui' -> P ui'.
Proof.
  revert f args. induction Ts as [| T Ts IH]; intros f args Hf ui ui' HP H.
  - exact (Hf ui ui' HP H).
  - cbn in H. destruct args as [| o args]; [discriminate |].
    apply bind_Ok in H as (v & _ & H). exact (IH (f v) args (Hf v) _ _ HP H).
Qed.

Lemma apply_keeps (P : ui_controller -> Prop) (Ts : list param)
    (f : member_function Ts) (name : string) (array : list msg_object) :
  (forall r ui, P ui -> P (os_log r ui)) ->
  keeps P Ts f -> forall ui ui', P ui -> apply Ts f name array ui = Ok ui' ->
  P ui'.
Proof.
  intros Hlog Hf. induction array as [| tuple rest IH]; intros ui ui' HP H.
  - cbn in H. inversion H; subst. exact HP.
  - cbn [apply] in H. apply bind_Ok in H as (ui1 & H1 & H).
    apply (IH ui1 ui'); [| exact H].
    unfold apply_one in H1.
    destruct tuple;
      try (inversion H1; subst; now apply Hlog).
    destruct (_ && _);
      [exact (call_keeps P Ts f _ Hf _ _ HP H1)
      | inversion H1; subst; now apply Hlog].
Qed.

Lemma to_mode_info_pair_logged (hl : highlight_table)
    (pair : msg_object * msg_object) (info info' : mode_info)
    (ui ui' : ui_controller) :
  to_mode_info_pair hl pair (info, ui) = Ok (info', ui') ->
  exists l, ui' = logged l ui.
Proof.
  destruct pair as [k v]. unfold to_mode_info_pair. cbn [fst snd].
  destruct k;
    try (intros H; inversion H; subst; eexists; apply os_log_logged).
  repeat match goal with
         | |- context [if String.eqb ?x ?y then _ else _] =>
             destruct (String.eqb x y)
         end;
    try (intros H; inversion H; subst; exists []; now rewrite logged_nil).
  - unfold to_cursor_shape. destruct v;
      try (intros H; inversion H; subst; eexists; apply os_log_logged).
    repeat match goal with
           | |- context [if String.eqb ?x ?y then _ else _] =>
               destruct (String.eqb x y)
           end;
      intros H; inversion H; subst;
      first [ exists []; now rewrite logged_nil
            | eexists; apply os_log_logged ].
  - unfold set_color_attrs. destruct v;
      try (cbn; intros H; inversion H; subst; eexists; apply os_log_logged).
    intros H. apply bind_Ok in H as (r & Hr & H).
    apply bind_Ok in Hr as (a & _ & Hr).
    destruct (negb (as_size_t z =? 0)); inversion Hr; subst;
      inversion H; subst; cbn; exists []; now rewrite logged_nil.
Qed.

Lemma to_mode_info_logged (hl : highlight_table)
    (map : list (msg_object * msg_object)) (info : mode_info)
    (ui ui' : ui_controller) :
  to_mode_info hl map ui = Ok (info, ui') -> exists l, ui' = logged l ui.
Proof.
  unfold to_mode_info. intros H. apply bind_Ok in H as ([i1 ui1] & H1 & H).
  assert (Hloop : forall m i0 u0 i2 u2,
            to_mode_info_loop hl m (i0, u0) = Ok (i2, u2) ->
            exists l, u2 = logged l u0).
  { clear. induction m as [| kv m IH]; intros i0 u0 i2 u2 H.
    - cbn in H. inversion H; subst. exists []. now rewrite logged_nil.
    - cbn [to_mode_info_loop] in H.
      apply bind_Ok in H as ([i1 u1] & H1 & H).
      apply to_mode_info_pair_logged in H1 as [l1 ->].
      apply IH in H as [l2 ->]. exists (l1 ++ l2). apply logged_logged. }
  apply Hloop in H1 as [l ->].
  destruct (_ && _); inversion H; subst; now exists l.
Qed.

Lemma mode_info_set_loop_pointers (property_maps : list msg_object)
    (ui ui' : ui_controller) :
  pointers_distinct ui ->
  mode_info_set_loop property_maps ui = Ok ui' -> pointers_distinct ui'.
Proof.
  revert ui. induction property_maps as [| object rest IH]; intros ui HP H.
  - cbn in H. inversion H; subst. exact HP.
  - cbn [mode_info_set_loop] in H.
    destruct object; try (refine (IH _ _ H); exact HP).
    apply bind_Ok in H as ([info ui1] & H1 & H).
    apply to_mode_info_logged in H1 as [l ->].
    refine (IH _ _ H). exact HP.
Qed.

Ltac keep_pointers :=
  repeat match goal with
         | H : Fault _ = Ok _ |- _ => discriminate H
         | H : Ok _ = Ok _ |- _ => inversion H; subst; clear H
         | H : bind _ _ = Ok _ |- _ =>
             apply bind_Ok in H; destruct H as (? & ? & H)
         | H : context [if ?c then _ else _] |- _ => destruct c
         | H : context [match ?x with _ => _ end] |- _ => destruct x
         end;
  try assumption.

(** Every event keeps the two pointers on different grids: [flush] exchanges
    them, the other handlers do not assign them. *)
Lemma redraw_event_pointers_distinct (event : msg_object)
    (ui ui' : ui_controller) :
  pointers_distinct ui -> redraw_event event ui = Ok ui' ->
  pointers_distinct ui'.
Proof.
  intros HP H. unfold redraw_event in H.
  assert (Hlog : forall r u, pointers_distinct u ->
                             pointers_distinct (os_log r u))
    by (intros r u Hu; exact Hu).
  destruct event as [| | | | elems |]; try (inversion H; subst; exact HP).
  destruct elems as [| [| | | name | |] args];
    try (inversion H; subst; exact HP).
  repeat match type of H with
         | (if ?c then _ else _) _ = _ => destruct c
         | (if ?c then _ else _) = _ => destruct c
         end;
    try (inversion H; subst; exact HP);
    try (apply bind_Ok in H as (ui1 & H1 & H);
         assert (pointers_distinct ui1);
         [| destruct (negb _); inversion H; subst; assumption];
         revert H1; apply apply_keeps; try assumption;
         intros n v u u' Hu Hr; unfold set_option in Hr;
         repeat match type of Hr with
                | (if ?c then _ else _) = _ => destruct c
                end;
         unfold set_font_option, set_ext_option in Hr;
         destruct v; inversion Hr; subst; exact Hu);
    (revert H; apply apply_keeps; try assumption; cbn [keeps]).
  - intros grid_id row col cs u u' Hu Hr. unfold grid_line, get_grid in Hr.
    destruct (negb (grid_id =? 1)); [discriminate |]. cbn [bind] in Hr.
    destruct (_ || _); [inversion Hr; subst; exact Hu |].
    apply bind_Ok in Hr as (out & _ & Hr). inversion Hr; subst.
    destruct (snd out); exact Hu.
  - intros grid_id w h u u' Hu Hr. unfold grid_resize, get_grid in Hr.
    keep_pointers.
  - intros grid_id t b l r rows u u' Hu Hr.
    unfold grid_scroll, get_grid in Hr.
    destruct (_ || _); [inversion Hr; subst; exact Hu |].
    destruct (negb (grid_id =? 1)); [discriminate |]. cbn [bind] in Hr.
    destruct (_ || _); [inversion Hr; subst; exact Hu |].
    apply bind_Ok in Hr as (cs & _ & Hr). inversion Hr; subst. exact Hu.
  - intros u u' Hu Hr. exact (flush_pointers_distinct u u' Hu Hr).
  - intros grid_id u u' Hu Hr. unfold grid_clear, get_grid in Hr.
    destruct (negb (grid_id =? 1)); [discriminate |]. cbn [bind] in Hr.
    apply bind_Ok in Hr as (d & _ & Hr). inversion Hr; subst. exact Hu.
  - intros hlid definition u u' Hu Hr. unfold hl_attr_define in Hr.
    apply bind_Ok in Hr as ([table p] & _ & Hr).
    apply bind_Ok in Hr as (a0 & _ & Hr).
    destruct (hl_attr_define_fold_logged definition a0 u) as (a1 & l & Hf).
    rewrite Hf in Hr. inversion Hr; subst. exact Hu.
  - intros fg bg sp u u' Hu Hr. unfold default_colors_set in Hr.
    destruct (hltable u); [discriminate |]. inversion Hr; subst. exact Hu.
  - intros enabled maps u u' Hu Hr. unfold mode_info_set in Hr.
    refine (mode_info_set_loop_pointers maps _ _ _ Hr). exact Hu.
  - intros mode index u u' Hu Hr. unfold mode_change in Hr.
    destruct (_ <=? _); [inversion Hr; subst; exact Hu |].
    destruct (_ !! _); inversion Hr; subst. exact Hu.
  - intros grid_id row col u u' Hu Hr.
    unfold grid_cursor_goto, get_grid in Hr.
    destruct (negb (grid_id =? 1)); [discriminate |]. cbn [bind] in Hr.
    destruct (_ || _); inversion Hr; subst; exact Hu.
  - intros title u u' Hu Hr. unfold set_title in Hr.
    inversion Hr; subst. exact Hu.
Qed.

Lemma redraw_pointers_distinct (events : list msg_object)
    (ui ui' : ui_controller) :
  pointers_distinct ui -> redraw events ui = Ok ui' -> pointers_distinct ui'.
Proof.
  revert ui. induction events as [| event rest IH]; intros ui HP H.
  - cbn in H. inversion H; subst. exact HP.
  - cbn [redraw] in H. apply bind_Ok in H as (ui1 & H1 & H).
    exact (IH ui1 (redraw_event_pointers_distinct _ _ _ HP H1) H).
Qed.

(** * Further properties of the code *)

(** *** Looking up highlight ids *)

(** X1. On a table that holds the default highlight, the lookup of an id
    never leaves the table: an id below the length of the table gives the
    record of that id, any other id gives the record of id 0. *)
Theorem resolve_falls_back (table : highlight_table) (hlid : Z)
    (d : cell_attributes) :
  table !! 0%nat = Some d ->
  0 <= hlid ->
  (hlid < Z.of_nat (length table) ->
   exists a, table !! Z.to_nat hlid = Some a /\ resolve table hlid = Ok a) /\
  (Z.of_nat (length table) <= hlid -> resolve table hlid = Ok d).
Proof.
  intros Hd Hpos. unfold resolve, hl_get_entry. split; intros H.
  - destruct (Z.ltb_spec hlid (Z.of_nat (length table))) as [_ | E]; [| lia].
    destruct (table !! Z.to_nat hlid) as [a |] eqn:Ea.
    + exists a. split; [reflexivity | now apply hl_deref_lookup].
    + apply lookup_ge_None in Ea. lia.
  - destruct (Z.ltb_spec hlid (Z.of_nat (length table))) as [E | _]; [lia |].
    now apply hl_deref_lookup.
Qed.

(** *** Defining highlights *)

Lemma hl_attr_define_pair_attrs (pair : msg_object * msg_object)
    (a : cell_attributes) (ui ui2 : ui_controller) :
  fst (hl_attr_define_pair pair (a, ui))
  = fst (hl_attr_define_pair pair (a, ui2)).
Proof.
  destruct pair as [k v]. unfold hl_attr_define_pair. cbn [fst snd].
  destruct k; try reflexivity.
  repeat match goal with
         | |- context [if String.eqb ?x ?y then _ else _] =>
             destruct (String.eqb x y)
         end; try reflexivity; destruct v; reflexivity.
Qed.

Lemma hl_attr_define_fold_attrs (definition : list (msg_object * msg_object))
    (a : cell_attributes) (ui ui2 : ui_controller) :
  fst (fold_left (fun st pair => hl_attr_define_pair pair st) definition
                 (a, ui))
  = fst (fold_left (fun st pair => hl_attr_define_pair pair st) definition
                   (a, ui2)).
Proof.
  revert a ui ui2. induction definition as [| pair definition IH];
    intros a ui ui2; [reflexivity |].
  cbn [fold_left].
  pose proof (hl_attr_define_pair_attrs pair a ui ui2) as H.
  destruct (hl_attr_define_pair pair (a, ui)) as [a1 u1].
  destruct (hl_attr_define_pair pair (a, ui2)) as [a2 u2].
  cbn in H. subst a2. apply IH.
Qed.

(** What [hl_attr_define] does on a table whose entry of index [p] is to
    hold the new record. *)
Lemma hl_attr_define_at (hlid : Z)
    (definition : list (msg_object * msg_object)) (ui : ui_controller)
    (table : highlight_table) (p : nat) (d : cell_attributes) :
  hl_new_entry (hltable ui) hlid = Ok (table, p) ->
  table !! p = Some d ->
  exists a1 l,
    fold_left (fun st pair => hl_attr_define_pair pair st) definition (d, ui)
    = (a1, logged l ui) /\
    hl_attr_define hlid definition ui
    = Ok (set_hltable
            (<[p := if has_flag flag_reverse a1 then swap_colors a1 else a1]>
               table) (logged l ui)).
Proof.
  intros Hnew Hp. unfold hl_attr_define. rewrite Hnew. cbn [bind].
  rewrite (hl_deref_lookup _ _ _ Hp). cbn [bind].
  destruct (hl_attr_define_fold_logged definition d ui) as (a1 & l & Hf).
  exists a1, l. split; [exact Hf |]. now rewrite Hf.
Qed.

Lemma hl_new_entry_within (table : list cell_attributes) (hlid : Z)
    (d : cell_attributes) :
  table !! 0%nat = Some d ->
  0 <= hlid <= Z.of_nat (length table) ->
  exists table',
    hl_new_entry table hlid = Ok (table', Z.to_nat hlid) /\
    table' !! Z.to_nat hlid = Some d /\
    length table' = Nat.max (length table) (Z.to_nat hlid + 1) /\
    forall i : nat,
      i <> Z.to_nat hlid -> (i < length table)%nat -> table' !! i = table !! i.
Proof.
  intros Hd Hr. unfold hl_new_entry. rewrite (hl_deref_lookup _ _ _ Hd).
  cbn [bind].
  destruct (Z.eqb_spec hlid (Z.of_nat (length table))) as [E | E].
  - exists (table ++ [d]). subst hlid. rewrite Nat2Z.id.
    split; [reflexivity |]. split.
    + unfold highlight_table. rewrite lookup_app_r by lia.
      now rewrite Nat.sub_diag.
    + split; [rewrite length_app; cbn; lia |].
      intros i _ Hi. unfold highlight_table. now rewrite lookup_app_l by lia.
  - destruct (Z.ltb_spec hlid (Z.of_nat (length table))) as [Hlt | Hge];
      [| lia].
    exists (<[Z.to_nat hlid := d]> table).
    split; [reflexivity |]. split.
    + apply list_lookup_insert_eq. lia.
    + split; [rewrite length_insert; lia |].
      intros i Hi _. apply list_lookup_insert_ne. congruence.
Qed.

(** X2. [hl_attr_define] with an id that is in the table or is its length
    replaces or appends that one entry: the table has the id afterwards,
    resolving the id gives the record just defined, the other entries keep
    their records, and the record is built from the id-0 record, so it does
    not depend on what the id held before. *)
Theorem hl_attr_define_within_table (hlid : Z)
    (definition : list (msg_object * msg_object)) (ui : ui_controller)
    (d : cell_attributes) :
  hltable ui !! 0%nat = Some d ->
  0 <= hlid <= Z.of_nat (length (hltable ui)) ->
  exists attrs ui',
    hl_attr_define hlid definition ui = Ok ui' /\
    length (hltable ui')
    = Nat.max (length (hltable ui)) (Z.to_nat hlid + 1) /\
    resolve (hltable ui') hlid = Ok attrs /\
    (forall i : nat,
        i <> Z.to_nat hlid -> (i < length (hltable ui))%nat ->
        hltable ui' !! i = hltable ui !! i) /\
    (forall old : cell_attributes,
        0 < hlid ->
        exists ui2,
          hl_attr_define hlid definition
            (set_hltable (<[Z.to_nat hlid := old]> (hltable ui)) ui)
          = Ok ui2 /\
          resolve (hltable ui2) hlid = Ok attrs).
Proof.
  intros Hd Hr.
  assert (Hres : forall (t : list cell_attributes) (a : cell_attributes),
             (Z.to_nat hlid < length t)%nat ->
             resolve (<[Z.to_nat hlid := a]> t) hlid = Ok a).
  { intros t a Hlt. unfold resolve, hl_get_entry, highlight_table.
    rewrite length_insert.
    destruct (Z.ltb_spec hlid (Z.of_nat (length t))) as [_ | E]; [| lia].
    apply hl_deref_lookup, list_lookup_insert_eq. exact Hlt. }
  destruct (hl_new_entry_within (hltable ui) hlid d Hd Hr)
    as (table' & Hnew & Hp & Hlen & Hother).
  destruct (hl_attr_define_at hlid definition ui table' _ d Hnew Hp)
    as (a1 & l & Hfold & Hrun).
  eexists _, _. split; [exact Hrun |]. cbn [hltable set_hltable].
  unfold highlight_table in *.
  split; [now rewrite length_insert |].
  split; [apply Hres; lia |].
  split.
  - intros i Hi Hlt. rewrite list_lookup_insert_ne by congruence.
    now apply Hother.
  - intros old Hpos.
    set (ui0 := set_hltable (<[Z.to_nat hlid := old]> (hltable ui)) ui).
    assert (Hd0 : hltable ui0 !! 0%nat = Some d).
    { cbn. unfold highlight_table.
      rewrite list_lookup_insert_ne by lia. exact Hd. }
    assert (Hr0 : 0 <= hlid <= Z.of_nat (length (hltable ui0)))
      by (cbn; unfold highlight_table; rewrite length_insert; lia).
    destruct (hl_new_entry_within (hltable ui0) hlid d Hd0 Hr0)
      as (table0 & Hnew0 & Hp0 & Hlen0 & _).
    destruct (hl_attr_define_at hlid definition ui0 table0 _ d Hnew0 Hp0)
      as (a2 & l2 & Hfold2 & Hrun2).
    eexists. split; [exact Hrun2 |]. cbn [hltable set_hltable].
    pose proof (hl_attr_define_fold_attrs definition d ui ui0) as E.
    rewrite Hfold, Hfold2 in E. cbn in E. subst a2.
    apply Hres. rewrite Hlen0. lia.
Qed.

Lemma has_flag_or_flag (f g : Z) (a : cell_attributes) :
  has_flag f (or_flag g a) = has_flag f a || negb (Z.land g f =? 0).
Proof.
  unfold has_flag, or_flag. cbn [flags set_flags].
  rewrite Z.land_lor_distr_l.
  destruct (Z.eqb_spec (Z.land (flags a) f) 0) as [E1 | E1];
    destruct (Z.eqb_spec (Z.land g f) 0) as [E2 | E2]; cbn [negb orb];
    destruct (Z.eqb_spec (Z.lor (Z.land (flags a) f) (Z.land g f)) 0)
      as [E | E]; try reflexivity.
  - exfalso. apply E. apply Z.lor_eq_0_iff. now split.
  - apply Z.lor_eq_0_iff in E. destruct E as [Ea Eb]. elim (E2 Eb).
  - apply Z.lor_eq_0_iff in E. destruct E as [Ea Eb]. elim (E1 Ea).
  - apply Z.lor_eq_0_iff in E. destruct E as [Ea Eb]. elim (E1 Ea).
Qed.

(** The fields of the record after one pair of a definition. *)
Lemma hl_attr_define_pair_fields (kv : msg_object * msg_object)
    (a : cell_attributes) (ui : ui_controller) :
  let a' := fst (hl_attr_define_pair kv (a, ui)) in
  foreground a' = defined_color "foreground" [kv] (foreground a) /\
  background a' = defined_color "background" [kv] (background a) /\
  special a' = defined_color "special" [kv] (special a) /\
  Forall (fun nf => has_flag (snd nf) a'
                    = has_flag (snd nf) a || key_occurs (fst nf) [kv])
         flag_names /\
  has_flag flag_doublewidth a' = has_flag flag_doublewidth a.
Proof.
  destruct kv as [k v]. unfold hl_attr_define_pair. cbn [fst snd].
  destruct k as [| b | z | name | elems | pairs];
    try (cbn; repeat split; try reflexivity;
         repeat constructor; cbn; now rewrite orb_false_r).
  repeat match goal with
         | |- context [if String.eqb ?x ?y then _ else _] =>
             let E := fresh "E" in
             destruct (String.eqb x y) eqn:E;
             [apply String.eqb_eq in E; subst x |]
         end.
  all: try (destruct v; cbv zeta;
            (split; [reflexivity |]); (split; [reflexivity |]);
            (split; [reflexivity |]);
            (split;
             [ unfold flag_names; repeat constructor; cbn [fst snd];
               first [ rewrite has_flag_or_flag; apply f_equal; reflexivity
                     | symmetry; apply orb_false_r ]
             | cbn [fst snd];
               first [ reflexivity
                     | rewrite has_flag_or_flag; apply orb_false_r ] ])).
  (* a key that is none of the names *)
  cbv zeta. cbn [fst].
  assert (Hcolor : forall n c, String.eqb name n = false ->
                               defined_color n [(MStr name, v)] c = c).
  { intros n c Hn. unfold defined_color. cbn [fold_left].
    destruct v; try reflexivity. now rewrite Hn. }
  rewrite !Hcolor by assumption.
  repeat (split; [reflexivity |]).
  split; [| reflexivity].
  unfold flag_names, key_occurs. repeat constructor; cbn [fst snd existsb];
    repeat match goal with
           | H : String.eqb _ _ = false |- _ => rewrite H; clear H
           end; now rewrite orb_false_r.
Qed.

Lemma hl_attr_define_fold_fields (definition : list (msg_object * msg_object)) :
  forall (a : cell_attributes) (ui : ui_controller),
    let a' :=
      fst (fold_left (fun st pair => hl_attr_define_pair pair st) definition
                     (a, ui)) in
    foreground a' = defined_color "foreground" definition (foreground a) /\
    background a' = defined_color "background" definition (background a) /\
    special a' = defined_color "special" definition (special a) /\
    Forall (fun nf => has_flag (snd nf) a'
                      = has_flag (snd nf) a || key_occurs (fst nf) definition)
           flag_names /\
    has_flag flag_doublewidth a' = has_flag flag_doublewidth a.
Proof.
  induction definition as [| kv definition IH]; intros a ui.
  - cbn. repeat split; try reflexivity.
    repeat constructor; cbn; now rewrite orb_false_r.
  - cbn [fold_left].
    pose proof (hl_attr_define_pair_fields kv a ui) as Hstep.
    destruct (hl_attr_define_pair kv (a, ui)) as [a1 ui1]. cbn [fst] in Hstep.
    destruct Hstep as (Hf & Hb & Hs & Hfl & Hdw).
    destruct (IH a1 ui1) as (Hf' & Hb' & Hs' & Hfl' & Hdw').
    split; [rewrite Hf', Hf; reflexivity |].
    split; [rewrite Hb', Hb; reflexivity |].
    split; [rewrite Hs', Hs; reflexivity |].
    split; [| congruence].
    rewrite Forall_forall in Hfl, Hfl' |- *. intros nf Hin.
    rewrite (Hfl' nf Hin), (Hfl nf Hin).
    unfold key_occurs. cbn [existsb]. now rewrite orb_false_r, orb_assoc.
Qed.

(** X3. The record [hl_attr_define] stores for an id within the table is
    the id-0 record changed field by field: each colour is the value of the
    last pair of the definition with its key and an integer value, and is
    the colour of id 0 when there is none; each flag is set when id 0 has it
    or its key occurs in the definition, whatever value comes with the key;
    and when the reverse flag ends up set, foreground and background are
    exchanged. *)
Theorem hl_attr_define_fields (hlid : Z)
    (definition : list (msg_object * msg_object)) (ui : ui_controller)
    (d : cell_attributes) :
  hltable ui !! 0%nat = Some d ->
  0 <= hlid <= Z.of_nat (length (hltable ui)) ->
  exists attrs ui',
    hl_attr_define hlid definition ui = Ok ui' /\
    resolve (hltable ui') hlid = Ok attrs /\
    foreground attrs
    = (if has_flag flag_reverse d || key_occurs "reverse" definition
       then defined_color "background" definition (background d)
       else defined_color "foreground" definition (foreground d)) /\
    background attrs
    = (if has_flag flag_reverse d || key_occurs "reverse" definition
       then defined_color "foreground" definition (foreground d)
       else defined_color "background" definition (background d)) /\
    special attrs = defined_color "special" definition (special d) /\
    Forall (fun nf => has_flag (snd nf) attrs
                      = has_flag (snd nf) d || key_occurs (fst nf) definition)
           flag_names /\
    has_flag flag_doublewidth attrs = has_flag flag_doublewidth d.
Proof.
  intros Hd Hr.
  destruct (hl_new_entry_within (hltable ui) hlid d Hd Hr)
    as (table' & Hnew & Hp & Hlen & _).
  destruct (hl_attr_define_at hlid definition ui table' _ d Hnew Hp)
    as (a1 & l & Hfold & Hrun).
  pose proof (hl_attr_define_fold_fields definition d ui) as Hfields.
  rewrite Hfold in Hfields. cbn [fst] in Hfields.
  destruct Hfields as (Hf & Hb & Hs & Hfl & Hdw).
  assert (Hrev : has_flag flag_reverse a1
                 = has_flag flag_reverse d || key_occurs "reverse" definition).
  { rewrite Forall_forall in Hfl.
    apply (Hfl ("reverse", flag_reverse)). unfold flag_names.
    apply list_elem_of_In. cbn.
    repeat first [left; reflexivity | right]. }
  eexists _, _. split; [exact Hrun |]. cbn [hltable set_hltable].
  split.
  { unfold resolve, hl_get_entry. unfold highlight_table in Hlen, Hr |- *.
    rewrite length_insert.
    destruct (Z.ltb_spec hlid (Z.of_nat (length table'))) as [_ | E];
      [| lia].
    apply hl_deref_lookup, list_lookup_insert_eq. lia. }
  rewrite <- Hrev.
  destruct (has_flag flag_reverse a1); cbn [swap_colors foreground background
                                             special];
    repeat split; try assumption.
Qed.

(** *** Grids *)

Lemma set_writing_grid_same (ui : ui_controller) :
  set_writing_grid (writing_grid ui) ui = ui.
Proof.
  destruct ui as [g0 g1 w c hl mt cm ti gf op fw tr].
  destruct w; reflexivity.
Qed.

Lemma complete_grid_set_writing_grid (g : grid) (ui : ui_controller) :
  pointers_distinct ui ->
  complete_grid (set_writing_grid g ui) = complete_grid ui.
Proof.
  unfold pointers_distinct, complete_grid, set_writing_grid.
  destruct ui as [g0 g1 w c hl mt cm ti gf op fw tr]. cbn.
  destruct w, c; intros H; try reflexivity; congruence.
Qed.

(** X4. [grid_resize] on the grid 1 gives the writing grid the new width
    and height and [width * height] cells: the cells that fit keep their
    place in the vector, the cells added are default-constructed ones, and
    the cursor is left where it was, also when that is outside the new
    grid.  The grid published as complete is not resized. *)
Theorem grid_resize_truncates_or_extends (width height : Z)
    (ui : ui_controller) :
  0 <= width * height < 2 ^ 64 ->
  exists ui',
    grid_resize 1 width height ui = Ok ui' /\
    grid_width (writing_grid ui') = width /\
    grid_height (writing_grid ui') = height /\
    Z.of_nat (length (cells (writing_grid ui'))) = width * height /\
    (forall i : nat,
        Z.of_nat i < width * height ->
        (i < length (cells (writing_grid ui)))%nat ->
        cells (writing_grid ui') !! i = cells (writing_grid ui) !! i) /\
    (forall i : nat,
        Z.of_nat i < width * height ->
        (length (cells (writing_grid ui)) <= i)%nat ->
        cells (writing_grid ui') !! i = Some default_cell) /\
    cursor_row (writing_grid ui') = cursor_row (writing_grid ui) /\
    cursor_col (writing_grid ui') = cursor_col (writing_grid ui) /\
    (pointers_distinct ui -> complete_grid ui' = complete_grid ui).
Proof.
  intros Hsize. unfold grid_resize.
  change (get_grid 1 ui) with (Ok (writing ui)). cbn [bind].
  fold (writing_grid ui). fold (set_writing_grid
    (set_cells (resize (Z.to_nat (as_size_t (width * height))) default_cell
                       (cells (writing_grid ui)))
               (set_size width height (writing_grid ui))) ui).
  eexists. split; [reflexivity |].
  rewrite writing_grid_set_writing_grid. cbn.
  unfold as_size_t. rewrite Z.mod_small by lia.
  repeat split.
  - rewrite length_resize. lia.
  - intros i Hi Hold. apply lookup_resize; lia.
  - intros i Hi Hnew. apply lookup_resize_new; lia.
  - apply complete_grid_set_writing_grid.
Qed.

(** X5. Every grid event that names a grid other than 1 aborts the process:
    [grid_line], [grid_resize], [grid_clear], [grid_cursor_goto], and
    [grid_scroll] once its rectangle has passed the first test.  Nothing of
    the batch is processed after it. *)
Theorem other_grid_aborts (grid_id : Z) (ui : ui_controller) :
  grid_id <> 1 ->
  (forall row col cs, grid_line grid_id row col cs ui = Fault fault_abort) /\
  (forall width height,
      grid_resize grid_id width height ui = Fault fault_abort) /\
  grid_clear grid_id ui = Fault fault_abort /\
  (forall row col, grid_cursor_goto grid_id row col ui = Fault fault_abort) /\
  (forall top bottom left_ right_ rows,
      top <= bottom -> left_ <= right_ ->
      grid_scroll grid_id top bottom left_ right_ rows ui
      = Fault fault_abort) /\
  (forall (rest : list msg_object) (extra : list msg_object),
      0 <= grid_id < 2 ^ 64 ->
      redraw (MArr [MStr "grid_clear"; MArr (MInt grid_id :: extra)] :: rest)
             ui
      = Fault fault_abort).
Proof.
  intros Hne.
  assert (Hg : get_grid grid_id ui = Fault fault_abort).
  { unfold get_grid. destruct (Z.eqb_spec grid_id 1); [contradiction |].
    reflexivity. }
  repeat split.
  - intros. unfold grid_line. now rewrite Hg.
  - intros. unfold grid_resize. now rewrite Hg.
  - unfold grid_clear. now rewrite Hg.
  - intros. unfold grid_cursor_goto. now rewrite Hg.
  - intros top bottom l r rows Hv Hh. unfold grid_scroll.
    destruct (Z.ltb_spec bottom top); [lia |].
    destruct (Z.ltb_spec r l); [lia |]. cbn [orb]. now rewrite Hg.
  - intros rest extra Hr. cbn [redraw]. unfold redraw_event.
    cbn [String.eqb Ascii.eqb Bool.eqb]. cbn -[grid_clear as_size_t].
    unfold as_size_t. rewrite Z.mod_small by lia.
    unfold grid_clear. now rewrite Hg.
Qed.

(** X6. [grid_cursor_goto] on the grid 1 moves the cursor of the writing
    grid when the position is inside the grid, and logs and leaves the
    cursor where it was when it is not: a cursor that is inside the grid
    stays inside.  The cells are not touched. *)
Theorem grid_cursor_goto_stays_inside (row col : Z) (ui : ui_controller) :
  exists ui',
    grid_cursor_goto 1 row col ui = Ok ui' /\
    cells (writing_grid ui') = cells (writing_grid ui) /\
    grid_width (writing_grid ui') = grid_width (writing_grid ui) /\
    grid_height (writing_grid ui') = grid_height (writing_grid ui) /\
    (row < grid_height (writing_grid ui) ->
     col < grid_width (writing_grid ui) ->
     cursor_row (writing_grid ui') = row /\
     cursor_col (writing_grid ui') = col /\ trace ui' = trace ui) /\
    (grid_height (writing_grid ui) <= row
     \/ grid_width (writing_grid ui) <= col ->
     cursor_row (writing_grid ui') = cursor_row (writing_grid ui) /\
     cursor_col (writing_grid ui') = cursor_col (writing_grid ui) /\
     trace ui'
     = trace ui
       ++ [log (err_cursor_out_of_bounds (grid_width (writing_grid ui))
                  (grid_height (writing_grid ui)) row col)]) /\
    (cursor_row (writing_grid ui) < grid_height (writing_grid ui) ->
     cursor_col (writing_grid ui) < grid_width (writing_grid ui) ->
     cursor_row (writing_grid ui') < grid_height (writing_grid ui') /\
     cursor_col (writing_grid ui') < grid_width (writing_grid ui')).
Proof.
  unfold grid_cursor_goto.
  change (get_grid 1 ui) with (Ok (writing ui)). cbn [bind].
  fold (writing_grid ui). set (g := writing_grid ui).
  fold (set_writing_grid (set_cursor row col g) ui).
  destruct (Z.leb_spec (grid_height g) row) as [Hr | Hr];
    destruct (Z.leb_spec (grid_width g) col) as [Hc | Hc]; cbn [orb];
    eexists; (split; [reflexivity |]);
    rewrite ?writing_grid_set_writing_grid;
    try (change (writing_grid (os_log ?r ui)) with (writing_grid ui));
    fold g; cbn; repeat split; try reflexivity; intros; try lia;
    try (destruct ui as [? ? [] ? ? ? ? ? ? ? ? ?]; reflexivity).
  all: destruct ui as [? ? [] ? ? ? ? ? ? ? ? ?]; cbn in *; lia.
Qed.

(** *** Properties kept by every event *)

(** A property that logging keeps and that every handler keeps is kept by
    every event, and so by every batch that returns. *)
Lemma redraw_event_keeps (P : ui_controller -> Prop) :
  (forall e ui, P ui -> P (emit e ui)) ->
  keeps P [p_size_t; p_size_t; p_size_t; p_array] grid_line ->
  keeps P [p_size_t; p_size_t; p_size_t] grid_resize ->
  keeps P [p_size_t; p_size_t; p_size_t; p_size_t; p_size_t; p_long]
        grid_scroll ->
  keeps P [] flush ->
  keeps P [p_size_t] grid_clear ->
  keeps P [p_size_t; p_map] hl_attr_define ->
  keeps P [p_uint32; p_uint32; p_uint32] default_colors_set ->
  keeps P [p_bool; p_array] mode_info_set ->
  keeps P [p_string; p_size_t] mode_change ->
  keeps P [p_size_t; p_size_t; p_size_t] grid_cursor_goto ->
  keeps P [p_string] set_title ->
  keeps P [p_string; p_object] set_option ->
  forall event ui ui', P ui -> redraw_event event ui = Ok ui' -> P ui'.
Proof.
  intros Hemit K1 K2 K3 K4 K5 K6 K7 K8 K9 K10 K11 K12 event ui ui' HP H.
  assert (Hlog : forall r u, P u -> P (os_log r u))
    by (intros r u; apply Hemit).
  unfold redraw_event in H.
  destruct event as [| | | | elems |]; try (inversion H; subst; now apply Hlog).
  destruct elems as [| [| | | name | |] args];
    try (inversion H; subst; now apply Hlog).
  repeat match type of H with
         | (if ?c then _ else _) _ = _ => destruct c
         | (if ?c then _ else _) = _ => destruct c
         end;
    try (inversion H; subst; first [exact HP | now apply Hlog]);
    try (revert H; apply apply_keeps; assumption).
  apply bind_Ok in H as (ui1 & H1 & H).
  assert (HP1 : P ui1) by (revert H1; apply apply_keeps; assumption).
  destruct (negb _); inversion H; subst; [now apply Hemit | exact HP1].
Qed.

Lemma redraw_keeps (P : ui_controller -> Prop) :
  (forall event ui ui', P ui -> redraw_event event ui = Ok ui' -> P ui') ->
  forall events ui ui', P ui -> redraw events ui = Ok ui' -> P ui'.
Proof.
  intros Hev events. induction events as [| event rest IH]; intros ui ui' HP H.
  - cbn in H. inversion H; subst. exact HP.
  - cbn [redraw] in H. apply bind_Ok in H as (ui1 & H1 & H).
    exact (IH ui1 ui' (Hev _ _ _ HP H1) H).
Qed.

(** *** The size of the cell vectors *)

Lemma grids_sized_set_grid_at (p : bool) (g : grid) (ui : ui_controller) :
  grids_sized ui -> grid_sized g -> grids_sized (set_grid_at p g ui).
Proof. intros [H0 H1] Hg. destruct p; split; assumption. Qed.

Lemma grids_sized_grid_at (p : bool) (ui : ui_controller) :
  grids_sized ui -> grid_sized (grid_at p ui).
Proof. intros [H0 H1]. destruct p; assumption. Qed.

Lemma grid_sized_set_cells (cs : list cell) (g : grid) :
  grid_sized g -> length cs = length (cells g) -> grid_sized (set_cells cs g).
Proof. unfold grid_sized. cbn. intros H ->. exact H. Qed.

Lemma grid_line_step_return (hl : highlight_table) (rowbegin : Z)
    (object : msg_object) (s : line_state) (cs : list cell)
    (r : option log_record) :
  grid_line_step hl rowbegin object s = line_return cs r ->
  cs = ls_cells s.
Proof.
  unfold grid_line_step.
  destruct (cell_update_set object hl (ls_update s)) as [u |];
    [| now inversion 1].
  destruct (ls_remaining s <? repeat u); [now inversion 1 |].
  destruct (String.length (text u) =? 0)%nat.
  - destruct (ls_cell s =? rowbegin); [now inversion 1 |].
    match goal with
    | |- line_of_result ?x = _ -> _ => destruct x; discriminate
    end.
  - match goal with
    | |- line_of_result ?x = _ -> _ => destruct x; discriminate
    end.
Qed.

Lemma grid_line_loop_length (hl : highlight_table) (rowbegin : Z)
    (objects : list msg_object) :
  forall (s : line_state) (cs : list cell) (r : option log_record),
    grid_line_loop hl rowbegin objects s = Ok (cs, r) ->
    length cs = length (ls_cells s).
Proof.
  induction objects as [| object rest IH]; intros s cs r H.
  - cbn in H. now inversion H.
  - cbn [grid_line_loop] in H.
    destruct (grid_line_step hl rowbegin object s) as [s1 | cs1 r1 | f] eqn:E;
      [| | discriminate].
    + destruct (grid_line_step_frame _ _ _ _ _ E) as (_ & Hl & _).
      rewrite (IH _ _ _ H). exact Hl.
    + inversion H; subst. now rewrite (grid_line_step_return _ _ _ _ _ _ E).
Qed.

Lemma copy_cells_length (cs cs' : list cell) (dest src width : Z) :
  0 <= width ->
  copy_cells cs dest src width = Ok cs' -> length cs' = length cs.
Proof.
  intros Hw. unfold copy_cells. destruct (Z.eqb_spec width 0); [now inversion 1 |].
  destruct (Z.leb_spec 0 src) as [Hs0 | _]; [| discriminate].
  destruct (Z.leb_spec (src + width) (Z.of_nat (length cs))) as [Hs1 | _];
    [| discriminate].
  destruct (Z.leb_spec 0 dest) as [Hd0 | _]; [| discriminate].
  destruct (Z.leb_spec (dest + width) (Z.of_nat (length cs))) as [Hd1 | _];
    [| discriminate].
  cbn [andb]. intros Hc. inversion Hc; subst.
  rewrite !length_app, !length_take, !length_drop. lia.
Qed.

Lemma scroll_rows_length (k : nat) :
  forall (cs cs' : list cell) (dest src row_width width : Z),
    0 <= width ->
    scroll_rows k cs dest src row_width width = Ok cs' ->
    length cs' = length cs.
Proof.
  induction k as [| k IH]; intros cs cs' dest src row_width width Hw H.
  - cbn in H. now inversion H.
  - cbn [scroll_rows] in H. apply bind_Ok in H as (cs1 & H1 & H).
    rewrite (IH _ _ _ _ _ _ Hw H). now apply copy_cells_length in H1.
Qed.

(** X7. The cell vector of a grid always has the number of cells
    [grid_resize] gave it, [width * height] modulo [2 ^ 64]: [grid_resize]
    establishes this for the writing grid, and no batch of events, whatever
    it holds, breaks it for either grid. *)
Theorem redraw_keeps_grid_size :
  (forall (width height : Z) (ui ui' : ui_controller),
      grid_resize 1 width height ui = Ok ui' ->
      grid_sized (writing_grid ui')) /\
  (forall (events : list msg_object) (ui ui' : ui_controller),
      grids_sized ui -> redraw events ui = Ok ui' -> grids_sized ui').
Proof.
  split.
  - intros width height ui ui' H. unfold grid_resize in H.
    change (get_grid 1 ui) with (Ok (writing ui)) in H. cbn [bind] in H.
    inversion H; subst; clear H.
    fold (set_writing_grid
            (set_cells
               (resize (Z.to_nat (as_size_t (width * height))) default_cell
                       (cells (grid_at (writing ui) ui)))
               (set_size width height (grid_at (writing ui) ui))) ui).
    rewrite writing_grid_set_writing_grid. unfold grid_sized. cbn.
    rewrite length_resize. unfold as_size_t.
    pose proof (Z.mod_pos_bound (width * height) (2 ^ 64) ltac:(lia)). lia.
  - apply redraw_keeps. apply redraw_event_keeps; cbn [keeps].
    + intros e ui HP. exact HP.
    + intros grid_id row col cs u u' Hu Hr. unfold grid_line, get_grid in Hr.
      destruct (negb (grid_id =? 1)); [discriminate |]. cbn [bind] in Hr.
      destruct (_ || _); [inversion Hr; subst; exact Hu |].
      apply bind_Ok in Hr as ([cs' r] & Hloop & Hr). inversion Hr; subst.
      apply grid_line_loop_length in Hloop. cbn [fst snd].
      assert (grids_sized
                (set_grid_at (writing u)
                   (set_cells cs' (grid_at (writing u) u)) u)).
      { apply grids_sized_set_grid_at; [exact Hu |].
        apply grid_sized_set_cells;
          [now apply grids_sized_grid_at | exact Hloop]. }
      destruct r; assumption.
    + intros grid_id w h u u' Hu Hr. unfold grid_resize, get_grid in Hr.
      destruct (negb (grid_id =? 1)); [discriminate |]. cbn [bind] in Hr.
      inversion Hr; subst. apply grids_sized_set_grid_at; [exact Hu |].
      unfold grid_sized. cbn. rewrite length_resize. unfold as_size_t.
      pose proof (Z.mod_pos_bound (w * h) (2 ^ 64) ltac:(lia)). lia.
    + intros grid_id t b l r rows u u' Hu Hr.
      unfold grid_scroll, get_grid in Hr.
      destruct (_ || _); [inversion Hr; subst; exact Hu |].
      destruct (negb (grid_id =? 1)); [discriminate |]. cbn [bind] in Hr.
      destruct (_ || _); [inversion Hr; subst; exact Hu |].
      apply bind_Ok in Hr as (cs & Hs & Hr). inversion Hr; subst.
      apply scroll_rows_length in Hs;
        [| unfold as_size_t; apply Z.mod_pos_bound; lia].
      apply grids_sized_set_grid_at; [exact Hu |].
      apply grid_sized_set_cells;
        [now apply grids_sized_grid_at | exact Hs].
    + intros u u' Hu Hr. unfold flush in Hr.
      assert (Htick : forall t g, grid_sized g ->
                                  grid_sized (set_draw_tick t g))
        by (intros t g Hg; exact Hg).
      destruct u as [g0 g1 w c hl mt cm ti gf op fw tr].
      destruct Hu as [H0 H1]. cbn in H0, H1.
      destruct fw, w, c; cbn in Hr; inversion Hr; subst; split; cbn;
        assumption.
    + intros grid_id u u' Hu Hr. unfold grid_clear, get_grid in Hr.
      destruct (negb (grid_id =? 1)); [discriminate |]. cbn [bind] in Hr.
      apply bind_Ok in Hr as (d & _ & Hr). inversion Hr; subst.
      apply grids_sized_set_grid_at; [exact Hu |].
      apply grid_sized_set_cells;
        [now apply grids_sized_grid_at | apply length_map].
    + intros hlid definition u u' Hu Hr. unfold hl_attr_define in Hr.
      apply bind_Ok in Hr as ([table p] & _ & Hr).
      apply bind_Ok in Hr as (a0 & _ & Hr).
      destruct (hl_attr_define_fold_logged definition a0 u) as (a1 & l & Hf).
      rewrite Hf in Hr. inversion Hr; subst. exact Hu.
    + intros fg bg sp u u' Hu Hr. unfold default_colors_set in Hr.
      destruct (hltable u); [discriminate |]. inversion Hr; subst.
      unfold set_writing_grid.
      apply (grids_sized_set_grid_at (writing u) _ (set_hltable _ u));
        [exact Hu |].
      apply grid_sized_set_cells;
        [now apply grids_sized_grid_at | apply length_map].
    + intros enabled maps u u' Hu Hr. unfold mode_info_set in Hr.
      assert (Hgen : forall ms v v', grids_sized v ->
                       mode_info_set_loop ms v = Ok v' -> grids_sized v').
      { clear. induction ms as [| object rest IH]; intros v v' HP H.
        - cbn in H. inversion H; subst. exact HP.
        - cbn [mode_info_set_loop] in H.
          destruct object; try (refine (IH _ _ _ H); exact HP).
          apply bind_Ok in H as ([info v1] & H1 & H).
          apply to_mode_info_logged in H1 as [l ->].
          refine (IH _ _ _ H). exact HP. }
      refine (Hgen maps _ u' _ Hr). exact Hu.
    + intros mode index u u' Hu Hr. unfold mode_change in Hr.
      destruct (_ <=? _); [inversion Hr; subst; exact Hu |].
      destruct (_ !! _); inversion Hr; subst.
      apply grids_sized_set_grid_at; [exact Hu |].
      exact (grids_sized_grid_at (writing u) u Hu).
    + intros grid_id row col u u' Hu Hr.
      unfold grid_cursor_goto, get_grid in Hr.
      destruct (negb (grid_id =? 1)); [discriminate |]. cbn [bind] in Hr.
      destruct (_ || _); inversion Hr; subst; [exact Hu |].
      apply grids_sized_set_grid_at; [exact Hu |].
      exact (grids_sized_grid_at (writing u) u Hu).
    + intros title u u' Hu Hr. unfold set_title in Hr.
      inversion Hr; subst. exact Hu.
    + intros n v u u' Hu Hr. unfold set_option in Hr.
      repeat match type of Hr with
             | (if ?c then _ else _) = _ => destruct c
             end;
        unfold set_font_option, set_ext_option in Hr;
        destruct v; inversion Hr; subst; exact Hu.
Qed.

(** *** The length of the highlight table *)

Lemma hl_new_entry_length (table table' : list cell_attributes) (hlid : Z)
    (p : nat) :
  hl_new_entry table hlid = Ok (table', p) ->
  (length table <= length table')%nat.
Proof.
  unfold hl_new_entry. intros H. apply bind_Ok in H as (d & _ & H).
  destruct (hlid =? _); [| destruct (hlid <? _)]; inversion H; subst;
    unfold highlight_table; rewrite ?length_app, ?length_insert; lia.
Qed.

(** X8. No event removes an entry of the highlight table: after a batch of
    events, whatever it holds, the table is at least as long as before.  A
    table that holds the default highlight never becomes empty. *)
Theorem redraw_keeps_highlight_ids (events : list msg_object)
    (ui ui' : ui_controller) :
  redraw events ui = Ok ui' ->
  (length (hltable ui) <= length (hltable ui'))%nat.
Proof.
  intros H.
  refine (redraw_keeps
            (fun u => (length (hltable ui) <= length (hltable u))%nat)
            _ events ui ui' (Nat.le_refl _) H).
  apply redraw_event_keeps; cbn [keeps].
  - intros e u HP. exact HP.
  - intros grid_id row col cs u u' Hu Hr. unfold grid_line, get_grid in Hr.
    destruct (negb (grid_id =? 1)); [discriminate |]. cbn [bind] in Hr.
    destruct (_ || _); [inversion Hr; subst; exact Hu |].
    apply bind_Ok in Hr as (out & _ & Hr). inversion Hr; subst.
    destruct (snd out); exact Hu.
  - intros grid_id w h u u' Hu Hr. unfold grid_resize, get_grid in Hr.
    destruct (negb (grid_id =? 1)); [discriminate |]. cbn [bind] in Hr.
    inversion Hr; subst. exact Hu.
  - intros grid_id t b l r rows u u' Hu Hr.
    unfold grid_scroll, get_grid in Hr.
    destruct (_ || _); [inversion Hr; subst; exact Hu |].
    destruct (negb (grid_id =? 1)); [discriminate |]. cbn [bind] in Hr.
    destruct (_ || _); [inversion Hr; subst; exact Hu |].
    apply bind_Ok in Hr as (cs & _ & Hr). inversion Hr; subst. exact Hu.
  - intros u u' Hu Hr. unfold flush in Hr.
    destruct (flush_wait _); inversion Hr; subst; exact Hu.
  - intros grid_id u u' Hu Hr. unfold grid_clear, get_grid in Hr.
    destruct (negb (grid_id =? 1)); [discriminate |]. cbn [bind] in Hr.
    apply bind_Ok in Hr as (d & _ & Hr). inversion Hr; subst. exact Hu.
  - intros hlid definition u u' Hu Hr. unfold hl_attr_define in Hr.
    apply bind_Ok in Hr as ([table p] & Hnew & Hr).
    apply bind_Ok in Hr as (a0 & _ & Hr).
    destruct (hl_attr_define_fold_logged definition a0 u) as (a1 & l & Hf).
    rewrite Hf in Hr. inversion Hr; subst. cbn [hltable set_hltable].
    apply hl_new_entry_length in Hnew. unfold highlight_table in *.
    rewrite length_insert. lia.
  - intros fg bg sp u u' Hu Hr. unfold default_colors_set in Hr.
    destruct (hltable u) as [| d rest] eqn:E; [discriminate |].
    inversion Hr; subst.
    change (hltable (set_writing_grid ?g ?v)) with (hltable v).
    cbn [hltable set_hltable length]. rewrite length_map.
    cbn [length] in Hu. exact Hu.
  - intros enabled maps u u' Hu Hr. unfold mode_info_set in Hr.
    assert (Hgen : forall ms v v',
               (length (hltable ui) <= length (hltable v))%nat ->
               mode_info_set_loop ms v = Ok v' ->
               (length (hltable ui) <= length (hltable v'))%nat).
    { clear. induction ms as [| object rest IH]; intros v v' HP H.
      - cbn in H. inversion H; subst. exact HP.
      - cbn [mode_info_set_loop] in H.
        destruct object; try (refine (IH _ _ _ H); exact HP).
        apply bind_Ok in H as ([info v1] & H1 & H).
        apply to_mode_info_logged in H1 as [l ->].
        refine (IH _ _ _ H). exact HP. }
    refine (Hgen maps _ u' _ Hr). exact Hu.
  - intros mode index u u' Hu Hr. unfold mode_change in Hr.
    destruct (_ <=? _); [inversion Hr; subst; exact Hu |].
    destruct (_ !! _); inversion Hr; subst.
    change (hltable (set_writing_grid ?g ?v)) with (hltable v). exact Hu.
  - intros grid_id row col u u' Hu Hr.
    unfold grid_cursor_goto, get_grid in Hr.
    destruct (negb (grid_id =? 1)); [discriminate |]. cbn [bind] in Hr.
    destruct (_ || _); inversion Hr; subst; exact Hu.
  - intros title u u' Hu Hr. unfold set_title in Hr.
    inversion Hr; subst. exact Hu.
  - intros n v u u' Hu Hr. unfold set_option in Hr.
    repeat match type of Hr with
           | (if ?c then _ else _) = _ => destruct c
           end;
      unfold set_font_option, set_ext_option in Hr;
      destruct v; inversion Hr; subst; exact Hu.
Qed.

(** *** Writing inside the row *)

Lemma load_in_bounds {A : Type} (l : list A) (i : Z) :
  0 <= i < Z.of_nat (length l) ->
  exists x, load l i = Ok x /\ l !! Z.to_nat i = Some x.
Proof.
  intros Hi. unfold load. destruct (Z.leb_spec 0 i); [| lia].
  destruct (l !! Z.to_nat i) as [x |] eqn:E; [now exists x |].
  apply lookup_ge_None in E. lia.
Qed.

Lemma store_in_bounds {A : Type} (l : list A) (i : Z) (x : A) :
  0 <= i < Z.of_nat (length l) -> store l i x = Ok (<[Z.to_nat i := x]> l).
Proof.
  intros Hi. unfold store, in_bounds.
  destruct (Z.leb_spec 0 i); [| lia].
  destruct (Z.ltb_spec i (Z.of_nat (length l))); [reflexivity | lia].
Qed.

Lemma fill_in_bounds (k : nat) :
  forall (cs : list cell) (i : Z) (c : cell),
    0 <= i -> i + Z.of_nat k <= Z.of_nat (length cs) ->
    exists cs', fill k cs i c = Ok cs'.
Proof.
  induction k as [| k IH]; intros cs i c Hi Hk; [now exists cs |].
  cbn [fill]. rewrite store_in_bounds by lia. cbn [bind].
  apply IH; [lia |]. rewrite length_insert. lia.
Qed.

Lemma cell_update_set_hlattr (object : msg_object) (hl : highlight_table)
    (u u' : cell_update) :
  hl <> [] ->
  cell_update_set object hl u = Some u' ->
  (forall i : nat, hlattr u = Some i -> (i < length hl)%nat) ->
  forall i : nat, hlattr u' = Some i -> (i < length hl)%nat.
Proof.
  intros Hne Hset Hu.
  assert (Hentry : forall h i, Some (hl_get_entry hl h) = Some i ->
                               (i < length hl)%nat).
  { intros h i Hi. inversion Hi; subst. unfold hl_get_entry.
    destruct (Z.ltb_spec h (Z.of_nat (length hl))).
    - destruct (Z.le_gt_cases 0 h); [lia |].
      destruct hl; [congruence |]. cbn [length]. lia.
    - destruct hl; [congruence |]. cbn [length]. lia. }
  unfold cell_update_set in Hset.
  repeat match type of Hset with
         | match ?x with _ => _ end = _ => destruct x
         end; inversion Hset; subst; cbn [hlattr];
    first [exact Hu | apply Hentry].
Qed.

(** One iteration with a positive repeat count, from a state that satisfies
    [line_inv]: it never leaves the vector, and what it writes is in the
    row. *)
Lemma grid_line_step_in_row (hl : highlight_table) (rowbegin rowend : Z)
    (object : msg_object) (s : line_state) :
  hl <> [] -> 0 <= rowbegin -> rowend < 2 ^ 64 ->
  line_inv hl rowbegin rowend s ->
  positive_repeat object = true ->
  match grid_line_step hl rowbegin object s with
  | line_next s' =>
      line_inv hl rowbegin rowend s' /\
      length (ls_cells s') = length (ls_cells s) /\
      forall j : nat,
        Z.of_nat j < rowbegin \/ rowend <= Z.of_nat j ->
        ls_cells s' !! j = ls_cells s !! j
  | line_return cs r => cs = ls_cells s
  | line_fault f => False
  end.
Proof.
  intros Hne Hrb Hre (Hlo & Hsum & Hrem & Hlen & Hhl) Hpos.
  unfold grid_line_step.
  destruct (cell_update_set object hl (ls_update s)) as [u |] eqn:Eu;
    [| reflexivity].
  destruct (cell_update_set_repeat _ _ _ _ Eu) as [_ Hr1].
  specialize (Hr1 Hpos).
  pose proof (cell_update_set_hlattr _ _ _ _ Hne Eu Hhl) as Hhl'.
  destruct (Z.ltb_spec (ls_remaining s) (repeat u)) as [| Hfit];
    [reflexivity |].
  destruct (String.length (text u) =? 0)%nat.
  - destruct (Z.eqb_spec (ls_cell s) rowbegin) as [| Hnb]; [reflexivity |].
    destruct (load_in_bounds (ls_cells s) (ls_cell s - 1) ltac:(lia))
      as (lcell & -> & _).
    destruct (load_in_bounds (ls_cells s) (ls_cell s) ltac:(lia))
      as (here & -> & _).
    cbn [bind]. rewrite store_in_bounds by lia. cbn [bind].
    rewrite store_in_bounds by (rewrite length_insert; lia).
    cbn [bind line_of_result]. unfold line_inv.
    cbn [ls_cell ls_remaining ls_cells ls_update].
    rewrite !length_insert. unfold as_size_t.
    rewrite Z.mod_small by lia.
    repeat split; try lia; try assumption.
    intros j Hj. now rewrite !list_lookup_insert_ne by lia.
  - assert (Hd : exists a, deref_hlattr hl (hlattr u) = Ok a).
    { unfold deref_hlattr. destruct (hlattr u) as [i |]; [| now eexists].
      specialize (Hhl' i eq_refl). unfold hl_deref.
      destruct (hl !! i) eqn:E; [now eexists |].
      apply lookup_ge_None in E. lia. }
    destruct Hd as [a ->]. cbn [bind].
    rewrite store_in_bounds by lia. cbn [bind].
    destruct (fill_in_bounds (Z.to_nat (repeat u - 1))
                (<[Z.to_nat (ls_cell s) := make_cell (text u) a]> (ls_cells s))
                (ls_cell s + 1) (make_cell (text u) a) ltac:(lia)
                ltac:(rewrite length_insert; lia)) as [cs2 Hfill].
    rewrite Hfill. cbn [bind line_of_result].
    apply fill_frame in Hfill as [Hl2 Hf2]. rewrite length_insert in Hl2.
    unfold line_inv. cbn [ls_cell ls_remaining ls_cells ls_update].
    unfold as_size_t. rewrite Z.mod_small by lia.
    repeat split; try lia; try assumption.
    intros j Hj. rewrite Hf2 by lia. apply list_lookup_insert_ne. lia.
Qed.

Lemma grid_line_loop_in_row (hl : highlight_table) (rowbegin rowend : Z)
    (objects : list msg_object) :
  hl <> [] -> 0 <= rowbegin -> rowend < 2 ^ 64 ->
  Forall (fun o => positive_repeat o = true) objects ->
  forall s : line_state,
    line_inv hl rowbegin rowend s ->
    exists cs r,
      grid_line_loop hl rowbegin objects s = Ok (cs, r) /\
      length cs = length (ls_cells s) /\
      forall j : nat,
        Z.of_nat j < rowbegin \/ rowend <= Z.of_nat j ->
        cs !! j = ls_cells s !! j.
Proof.
  intros Hne Hrb Hre Hall. induction Hall as [| object rest Hpos Hall IH];
    intros s Hinv.
  - exists (ls_cells s), None. repeat split; reflexivity.
  - cbn [grid_line_loop].
    pose proof (grid_line_step_in_row hl rowbegin rowend object s
                  Hne Hrb Hre Hinv Hpos) as Hstep.
    destruct (grid_line_step hl rowbegin object s) as [s1 | cs1 r1 | f];
      [| | contradiction].
    + destruct Hstep as (Hinv1 & Hl1 & Hf1).
      destruct (IH s1 Hinv1) as (cs & r & Hrun & Hl & Hf).
      exists cs, r. split; [exact Hrun |]. split; [congruence |].
      intros j Hj. rewrite Hf by exact Hj. now apply Hf1.
    + subst cs1. exists (ls_cells s), r1. repeat split; reflexivity.
Qed.

(** X9. On a grid whose cell vector has [width * height] cells and with a
    highlight table that holds the default highlight, a [grid_line] event
    for a position inside the grid whose updates do not carry the repeat
    count 0 returns normally, whatever its updates are, and changes no cell
    outside the row it names; the size of the grid and the cursor are left
    as they were. *)
Theorem grid_line_stays_in_row (row col : Z) (cells_arg : list msg_object)
    (ui : ui_controller) :
  let g := writing_grid ui in
  hltable ui <> [] ->
  Z.of_nat (length (cells g)) = grid_width g * grid_height g ->
  grid_width g * grid_height g < 2 ^ 64 ->
  0 <= row < grid_height g ->
  0 <= col < grid_width g ->
  Forall (fun o => positive_repeat o = true) cells_arg ->
  exists ui',
    grid_line 1 row col cells_arg ui = Ok ui' /\
    length (cells (writing_grid ui')) = length (cells g) /\
    (forall j : nat,
        Z.of_nat j < row * grid_width g
        \/ (row + 1) * grid_width g <= Z.of_nat j ->
        cells (writing_grid ui') !! j = cells g !! j) /\
    grid_width (writing_grid ui') = grid_width g /\
    grid_height (writing_grid ui') = grid_height g /\
    cursor_row (writing_grid ui') = cursor_row g /\
    cursor_col (writing_grid ui') = cursor_col g.
Proof.
  intros g Hne Hlen Hsize Hrow Hcol Hall. unfold grid_line.
  change (get_grid 1 ui) with (Ok (writing ui)). cbn [bind].
  fold (writing_grid ui). fold g.
  destruct (Z.leb_spec (grid_height g) row) as [E | _]; [lia |].
  destruct (Z.leb_spec (grid_width g) col) as [E | _]; [lia |].
  cbn [orb].
  assert (Hrowend : (row + 1) * grid_width g <= grid_width g * grid_height g)
    by nia.
  assert (Hinv : line_inv (hltable ui) (grid_get g row 0)
                          ((row + 1) * grid_width g)
                          (grid_line_enter g row col)).
  { unfold line_inv, grid_line_enter, grid_get, as_size_t.
    cbn [ls_cell ls_remaining ls_cells ls_update cell_update_new hlattr].
    rewrite Z.mod_small by nia.
    repeat split; try nia. intros i Hi. discriminate Hi. }
  destruct (grid_line_loop_in_row (hltable ui) (grid_get g row 0)
              ((row + 1) * grid_width g) cells_arg Hne
              ltac:(unfold grid_get; nia) ltac:(nia) Hall _ Hinv)
    as (cs & r & Hrun & Hl & Hf).
  rewrite Hrun. cbn [bind fst snd]. fold (set_writing_grid (set_cells cs g) ui).
  exists (log_opt r (set_writing_grid (set_cells cs g) ui)).
  split; [reflexivity |].
  assert (Hw : writing_grid (log_opt r (set_writing_grid (set_cells cs g) ui))
               = set_cells cs g).
  { destruct r; [| apply writing_grid_set_writing_grid].
    change (writing_grid (os_log ?x ?u)) with (writing_grid u).
    apply writing_grid_set_writing_grid. }
  rewrite Hw. cbn [cells set_cells grid_width grid_height cursor_row
                   cursor_col].
  split; [exact Hl |]. split; [| repeat split; reflexivity].
  intros j Hj. apply Hf. unfold grid_get. cbn [grid_line_enter ls_cells].
  lia.
Qed.

Lemma grid_line_run_in_row (hl : highlight_table) (rowbegin rowend : Z)
    (objects : list msg_object) :
  hl <> [] -> 0 <= rowbegin -> rowend < 2 ^ 64 ->
  Forall (fun o => positive_repeat o = true) objects ->
  forall s s1 : line_state,
    line_inv hl rowbegin rowend s ->
    grid_line_run hl rowbegin objects s = Some s1 ->
    line_inv hl rowbegin rowend s1.
Proof.
  intros Hne Hrb Hre Hall. induction Hall as [| object rest Hpos Hall IH];
    intros s s1 Hinv Hrun.
  - cbn in Hrun. now inversion Hrun; subst.
  - cbn [grid_line_run] in Hrun.
    pose proof (grid_line_step_in_row hl rowbegin rowend object s
                  Hne Hrb Hre Hinv Hpos) as Hstep.
    destruct (grid_line_step hl rowbegin object s) as [s' | |];
      try discriminate.
    destruct Hstep as (Hinv' & _). exact (IH _ _ Hinv' Hrun).
Qed.

(** [grid_line] after the updates [pre], none of which made it return. *)
Lemma grid_line_after_run (ui : ui_controller) (row col : Z)
    (pre rest : list msg_object) (s1 : line_state) :
  let g := writing_grid ui in
  row < grid_height g ->
  col < grid_width g ->
  grid_line_run (hltable ui) (grid_get g row 0) pre (grid_line_enter g row col)
  = Some s1 ->
  grid_line 1 row col (pre ++ rest) ui
  = let* out := grid_line_loop (hltable ui) (grid_get g row 0) rest s1 in
    Ok (log_opt (snd out) (set_writing_grid (set_cells (fst out) g) ui)).
Proof.
  intros g Hrow Hcol Hrun. unfold grid_line.
  change (get_grid 1 ui) with (Ok (writing ui)). cbn [bind].
  fold (writing_grid ui). fold g.
  destruct (Z.leb_spec (grid_height g) row) as [E | _]; [lia |].
  destruct (Z.leb_spec (grid_width g) col) as [E | _]; [lia |].
  cbn [orb]. now rewrite (grid_line_loop_app _ _ _ _ _ _ Hrun).
Qed.

Lemma grid_line_enter_inv (hl : highlight_table) (g : grid) (row col : Z) :
  Z.of_nat (length (cells g)) = grid_width g * grid_height g ->
  grid_width g * grid_height g < 2 ^ 64 ->
  0 <= row < grid_height g ->
  0 <= col < grid_width g ->
  line_inv hl (grid_get g row 0) ((row + 1) * grid_width g)
           (grid_line_enter g row col).
Proof.
  intros Hlen Hsize Hrow Hcol.
  unfold line_inv, grid_line_enter, grid_get, as_size_t.
  cbn [ls_cell ls_remaining ls_cells ls_update cell_update_new hlattr].
  rewrite Z.mod_small by nia.
  repeat split; try nia. intros i Hi. discriminate Hi.
Qed.

(** *** The highlight of an update without id *)








(** X10. An update with a non-empty text and the repeat count 0 passes the
    overflow test whatever remains of the row, writes its cell where the
    pointer stands and does not advance.  When the updates before it have
    filled the row to its end, the pointer stands on the first cell of the
    next row: [grid_line] for [row] then overwrites the cell of column 0 of
    [row + 1] and logs nothing. *)
Theorem grid_line_zero_repeat_writes_next_row (row col : Z)
    (pre : list msg_object) (t : string) (h : Z) (s1 : line_state)
    (ui : ui_controller) :
  let g := writing_grid ui in
  hltable ui <> [] ->
  Z.of_nat (length (cells g)) = grid_width g * grid_height g ->
  grid_width g * grid_height g < 2 ^ 64 ->
  0 <= row -> row + 1 < grid_height g ->
  0 <= col < grid_width g ->
  Forall (fun o => positive_repeat o = true) pre ->
  grid_line_run (hltable ui) (grid_get g row 0) pre (grid_line_enter g row col)
  = Some s1 ->
  ls_remaining s1 = 0 ->
  t <> "" ->
  exists a,
    resolve (hltable ui) (as_size_t h) = Ok a /\
    (Z.to_nat (grid_get g (row + 1) 0) < length (ls_cells s1))%nat /\
    grid_line 1 row col (pre ++ [MArr [MStr t; MInt h; MInt 0]]) ui
    = Ok (set_writing_grid
            (set_cells (<[Z.to_nat (grid_get g (row + 1) 0)
                          := make_cell t (Some a)]> (ls_cells s1)) g) ui).
Proof.
  intros g Hne Hlen Hsize Hrow0 Hrow1 Hcol Hall Hrun Hrem Ht.
  pose proof (grid_line_enter_inv (hltable ui) g row col Hlen Hsize
                ltac:(lia) Hcol) as Hinv.
  assert (Hrb : 0 <= grid_get g row 0) by (unfold grid_get; nia).
  assert (Hre : (row + 1) * grid_width g < 2 ^ 64) by nia.
  pose proof (grid_line_run_in_row (hltable ui) (grid_get g row 0)
                ((row + 1) * grid_width g) pre Hne Hrb Hre Hall _ _
                Hinv Hrun)
    as (Hlo & Hsum & _ & _ & _).
  destruct (grid_line_run_frame _ _ _ _ _ Hrun) as (_ & Hl1 & _).
  cbn [grid_line_enter ls_cells] in Hl1.
  assert (Hcell : ls_cell s1 = grid_get g (row + 1) 0)
    by (unfold grid_get; lia).
  assert (Hin : 0 <= ls_cell s1 < Z.of_nat (length (ls_cells s1))).
  { rewrite Hl1, Hlen, Hcell. unfold grid_get. nia. }
  assert (Hd : exists a, resolve (hltable ui) (as_size_t h) = Ok a).
  { unfold resolve, hl_deref.
    destruct (hltable ui !! hl_get_entry (hltable ui) (as_size_t h))
      as [a |] eqn:E; [now exists a |].
    apply lookup_ge_None in E.
    pose proof (cell_update_set_hlattr (MArr [MStr t; MInt h])
                  (hltable ui) cell_update_new _ Hne eq_refl
                  ltac:(intros i Hi; discriminate Hi) _ eq_refl) as Hlt.
    lia. }
  destruct Hd as [a Ha]. exists a. split; [exact Ha |].
  split; [rewrite <- Hcell; lia |].
  rewrite (grid_line_after_run ui row col pre _ s1 ltac:(fold g; lia)
             ltac:(fold g; lia) Hrun). fold g.
  cbn [grid_line_loop]. unfold grid_line_step.
  cbn [cell_update_set repeat text hlattr].
  change (as_size_t 0) with 0. rewrite Hrem. cbn [Z.ltb Z.compare].
  destruct t as [| c t]; [congruence |]. cbn [String.length Nat.eqb].
  unfold deref_hlattr. unfold resolve in Ha. rewrite Ha. cbn [bind].
  rewrite store_in_bounds by exact Hin. cbn [bind].
  change (Z.to_nat (0 - 1)) with 0%nat. cbn [fill bind line_of_result].
  cbn [ls_cells fst snd log_opt]. now rewrite Hcell.
Qed.

(** X11. An update with an empty text marks the right half of a
    double-width character; at the first column of a row there is no cell
    to its left.  When the first update of a [grid_line] event for column 0
    is such an update, [grid_line] returns at once: the updates after it
    are dropped, no cell changes and nothing is logged. *)
Theorem grid_line_empty_text_at_row_start (row : Z) (object : msg_object)
    (post : list msg_object) (update : cell_update) (ui : ui_controller) :
  let g := writing_grid ui in
  row < grid_height g ->
  0 < grid_width g < 2 ^ 64 ->
  cell_update_set object (hltable ui) cell_update_new = Some update ->
  text update = "" ->
  repeat update <= grid_width g ->
  grid_line 1 row 0 (object :: post) ui = Ok ui.
Proof.
  intros g Hrow Hw Hset Ht Hr.
  pose proof (grid_line_after_run ui row 0 [] (object :: post)
                (grid_line_enter g row 0) ltac:(fold g; lia)
                ltac:(fold g; lia) eq_refl) as Hline.
  cbn [app] in Hline. rewrite Hline. fold g.
  cbn [grid_line_loop]. unfold grid_line_step.
  cbn [grid_line_enter ls_update ls_remaining ls_cell ls_cells].
  rewrite Hset, Ht. unfold as_size_t. rewrite Z.sub_0_r.
  rewrite Z.mod_small by lia.
  destruct (Z.ltb_spec (grid_width g) (repeat update)); [lia |].
  cbn [String.length Nat.eqb]. rewrite Z.add_0_r, Z.eqb_refl.
  cbn [bind fst snd log_opt]. f_equal.
  assert (Hg : set_cells (cells g) g = g) by now destruct g.
  rewrite Hg. apply set_writing_grid_same.
Qed.

(** X12. [cell_update::set] accepts exactly the arrays [[text]],
    [[text, hl_id]] and [[text, hl_id, repeat]].  When the updates [pre] of
    a [grid_line] event have been applied and the next object is of any
    other shape, [grid_line] logs a cell update type error and returns: the
    cells the updates [pre] wrote stay written, and the updates [post]
    after the malformed one are not applied. *)
Theorem grid_line_malformed_update (ui : ui_controller) (row col : Z)
    (pre post : list msg_object) (object : msg_object) (s1 : line_state) :
  let g := writing_grid ui in
  row < grid_height g ->
  col < grid_width g ->
  grid_line_run (hltable ui) (grid_get g row 0) pre (grid_line_enter g row col)
  = Some s1 ->
  (forall t h r,
      object <> MArr [MStr t] /\ object <> MArr [MStr t; MInt h]
      /\ object <> MArr [MStr t; MInt h; MInt r]) ->
  grid_line 1 row col (pre ++ object :: post) ui
  = Ok (os_log (err_cell_update_type object)
          (set_writing_grid (set_cells (ls_cells s1) g) ui)) /\
  grid_line 1 row col pre ui
  = Ok (set_writing_grid (set_cells (ls_cells s1) g) ui).
Proof.
  intros g Hrow Hcol Hrun Hshape.
  assert (Hset : cell_update_set object (hltable ui) (ls_update s1) = None).
  { destruct (cell_update_set object (hltable ui) (ls_update s1)) eqn:E;
      [| reflexivity].
    exfalso. destruct (Hshape "" 0 0) as (H1 & H2 & H3).
    unfold cell_update_set in E.
    repeat match type of E with
           | match ?x with _ => _ end = _ => destruct x
           end; try discriminate E.
    - now destruct (Hshape s 0 0) as (F & _ & _).
    - now destruct (Hshape s z 0) as (_ & F & _).
    - now destruct (Hshape s z z0) as (_ & _ & F). }
  split.
  - rewrite (grid_line_after_run ui row col pre _ s1 Hrow Hcol Hrun).
    cbn [grid_line_loop]. unfold grid_line_step. now rewrite Hset.
  - rewrite <- (app_nil_r pre) at 1.
    now rewrite (grid_line_after_run ui row col pre _ s1 Hrow Hcol Hrun).
Qed.

(** *** Scrolling *)

Lemma as_long_small (z : Z) : - 2 ^ 63 <= z < 2 ^ 63 -> as_long z = z.
Proof. intros H. unfold as_long. rewrite Z.mod_small by lia. lia. Qed.

Lemma copy_cells_lookup (cs cs' : list cell) (dest src width : Z) :
  copy_cells cs dest src width = Ok cs' ->
  0 <= width ->
  forall j : nat,
    cs' !! j
    = if (dest <=? Z.of_nat j) && (Z.of_nat j <? dest + width)
      then cs !! Z.to_nat (src + (Z.of_nat j - dest))
      else cs !! j.
Proof.
  unfold copy_cells. intros Hc Hw j.
  destruct (Z.eqb_spec width 0) as [Hz | Hn].
  - inversion Hc; subst cs'.
    destruct (Z.leb_spec dest (Z.of_nat j)) as [Ha | Ha];
      destruct (Z.ltb_spec (Z.of_nat j) (dest + width)) as [Hb | Hb];
      cbn [andb]; try reflexivity; lia.
  - destruct (Z.leb_spec 0 src) as [Hs0 | _]; [| discriminate].
    destruct (Z.leb_spec (src + width) (Z.of_nat (length cs))) as [Hs1 | _];
      [| discriminate].
    destruct (Z.leb_spec 0 dest) as [Hd0 | _]; [| discriminate].
    destruct (Z.leb_spec (dest + width) (Z.of_nat (length cs)))
      as [Hd1 | _]; [| discriminate].
    cbn [andb] in Hc. inversion Hc; subst cs'; clear Hc.
    destruct (Z.leb_spec dest (Z.of_nat j)) as [H1 | H1];
      destruct (Z.ltb_spec (Z.of_nat j) (dest + width)) as [H2 | H2];
      cbn [andb].
    + rewrite lookup_app_r by (rewrite length_take; lia).
      rewrite length_take.
      rewrite lookup_app_l by (rewrite length_take, length_drop; lia).
      rewrite lookup_take_lt by lia. rewrite lookup_drop. f_equal. lia.
    + rewrite lookup_app_r by (rewrite length_take; lia).
      rewrite length_take.
      rewrite lookup_app_r by (rewrite length_take, length_drop; lia).
      rewrite length_take, length_drop, lookup_drop. f_equal. lia.
    + rewrite lookup_app_l by (rewrite length_take; lia).
      apply lookup_take_lt. lia.
    + rewrite lookup_app_l by (rewrite length_take; lia).
      apply lookup_take_lt. lia.
Qed.

Lemma copy_cells_same (cs cs' : list cell) (dest width : Z) :
  copy_cells cs dest dest width = Ok cs' -> 0 <= width -> cs' = cs.
Proof.
  unfold copy_cells. intros Hc Hw.
  destruct (Z.eqb_spec width 0) as [Hz | Hn]; [now inversion Hc |].
  destruct (Z.leb_spec 0 dest) as [Hd0 | _]; [| discriminate].
  destruct (Z.leb_spec (dest + width) (Z.of_nat (length cs))) as [Hd1 | _];
    [| discriminate].
  cbn [andb] in Hc. inversion Hc; subst cs'; clear Hc.
  rewrite Z2Nat.inj_add by lia. rewrite <- drop_drop.
  now rewrite (take_drop (Z.to_nat width)), take_drop.
Qed.

Lemma scroll_rows_same (k : nat) :
  forall (cs cs' : list cell) (dest row_width width : Z),
    scroll_rows k cs dest dest row_width width = Ok cs' ->
    0 <= width -> cs' = cs.
Proof.
  induction k as [| k IH]; intros cs cs' dest row_width width H Hw.
  - cbn in H. now inversion H.
  - cbn [scroll_rows] in H. apply bind_Ok in H as (cs1 & H1 & H).
    apply copy_cells_same in H1; [| exact Hw]. subst cs1.
    exact (IH _ _ _ _ _ H Hw).
Qed.

Lemma scroll_rows_in_bounds (k : nat) :
  forall (cs : list cell) (dest src row_width width : Z),
    0 <= width ->
    (forall i, 0 <= i < Z.of_nat k ->
               0 <= dest + i * row_width
               /\ dest + i * row_width + width <= Z.of_nat (length cs)
               /\ 0 <= src + i * row_width
               /\ src + i * row_width + width <= Z.of_nat (length cs)) ->
    exists cs', scroll_rows k cs dest src row_width width = Ok cs'.
Proof.
  induction k as [| k IH]; intros cs dest src row_width width Hw Hin;
    [now exists cs |].
  cbn [scroll_rows].
  assert (H0 : exists cs1, copy_cells cs dest src width = Ok cs1).
  { unfold copy_cells. destruct (width =? 0); [now eexists |].
    destruct (Hin 0 ltac:(lia)) as (A & B & C & D).
    rewrite !Z.mul_0_l, !Z.add_0_r in *.
    destruct (Z.leb_spec 0 src); [| lia].
    destruct (Z.leb_spec (src + width) (Z.of_nat (length cs))); [| lia].
    destruct (Z.leb_spec 0 dest); [| lia].
    destruct (Z.leb_spec (dest + width) (Z.of_nat (length cs))); [| lia].
    now eexists. }
  destruct H0 as [cs1 H1]. rewrite H1. cbn [bind].
  apply IH; [exact Hw |]. intros i Hi.
  rewrite (copy_cells_length _ _ _ _ _ Hw H1).
  destruct (Hin (i + 1) ltac:(lia)) as (A & B & C & D).
  replace (dest + row_width + i * row_width)
    with (dest + (i + 1) * row_width) by ring.
  replace (src + row_width + i * row_width)
    with (src + (i + 1) * row_width) by ring.
  auto.
Qed.

Lemma in_rows_lower (k : nat) :
  forall dest row_width width j,
    0 <= row_width -> in_rows k dest row_width width j = true -> dest <= j.
Proof.
  induction k as [| k IH]; intros dest row_width width j Hrw H;
    [discriminate |].
  cbn [in_rows] in H. apply orb_true_iff in H as [H | H].
  - apply andb_true_iff in H as [H _]. now apply Z.leb_le in H.
  - apply IH in H; lia.
Qed.

Lemma in_rows_upper (k : nat) :
  forall dest row_width width j,
    row_width <= 0 -> in_rows k dest row_width width j = true ->
    j < dest + width.
Proof.
  induction k as [| k IH]; intros dest row_width width j Hrw H;
    [discriminate |].
  cbn [in_rows] in H. apply orb_true_iff in H as [H | H].
  - apply andb_true_iff in H as [_ H]. now apply Z.ltb_lt in H.
  - apply IH in H; lia.
Qed.

Lemma in_rows_source (k : nat) :
  forall (cs cs' : list cell) (dest src row_width width j : Z),
    scroll_rows k cs dest src row_width width = Ok cs' ->
    in_rows k dest row_width width j = true ->
    0 <= j + (src - dest).
Proof.
  induction k as [| k IH]; intros cs cs' dest src row_width width j H Hj;
    [discriminate |].
  cbn [scroll_rows] in H. apply bind_Ok in H as (cs1 & H1 & H).
  cbn [in_rows] in Hj. apply orb_true_iff in Hj as [Hj | Hj].
  - apply andb_true_iff in Hj as [Ha Hb].
    apply Z.leb_le in Ha. apply Z.ltb_lt in Hb.
    unfold copy_cells in H1.
    destruct (Z.eqb_spec width 0); [lia |].
    destruct (Z.leb_spec 0 src); [lia | discriminate].
  - pose proof (IH _ _ _ _ _ _ _ H Hj). lia.
Qed.

(** The copy loop, when a row is not overwritten before it is read: the
    row step and the distance [d] from destination to source have the
    same sign, and the rows do not overlap. *)
Lemma scroll_rows_lookup (k : nat) (row_width width d : Z) :
  0 <= width ->
  (width <= row_width /\ row_width <= d)
  \/ (width <= - row_width /\ d <= row_width) ->
  forall (cs cs' : list cell) (dest : Z),
    scroll_rows k cs dest (dest + d) row_width width = Ok cs' ->
    forall j : nat,
      cs' !! j
      = if in_rows k dest row_width width (Z.of_nat j)
        then cs !! Z.to_nat (Z.of_nat j + d)
        else cs !! j.
Proof.
  intros Hw Hdir. induction k as [| k IH]; intros cs cs' dest H j.
  - cbn in H. now inversion H.
  - pose proof H as Hall.
    cbn [scroll_rows] in H. apply bind_Ok in H as (cs1 & H1 & H).
    replace (dest + d + row_width) with (dest + row_width + d) in H by ring.
    rewrite (IH _ _ _ H j). cbn [in_rows].
    destruct (in_rows k (dest + row_width) row_width width (Z.of_nat j))
      eqn:El.
    + rewrite orb_true_r.
      pose proof (in_rows_source _ _ _ _ _ _ _ _ H El) as Hs.
      rewrite (copy_cells_lookup _ _ _ _ _ H1 Hw).
      rewrite Z2Nat.id by lia.
      destruct (Z.leb_spec dest (Z.of_nat j + d)) as [Ha | Ha];
        destruct (Z.ltb_spec (Z.of_nat j + d) (dest + width)) as [Hb | Hb];
        cbn [andb]; try reflexivity.
      exfalso. destruct Hdir as [[Hd1 Hd2] | [Hd1 Hd2]].
      * apply in_rows_lower in El; lia.
      * apply in_rows_upper in El; lia.
    + rewrite orb_false_r.
      rewrite (copy_cells_lookup _ _ _ _ _ H1 Hw).
      destruct ((dest <=? Z.of_nat j) && (Z.of_nat j <? dest + width));
        [| reflexivity].
      f_equal. lia.
Qed.

Lemma row_range_coord (w t left_ right_ r c : Z) :
  0 < w -> 0 <= c < w -> 0 <= left_ -> right_ <= w ->
  (t * w + left_ <=? r * w + c) && (r * w + c <? t * w + left_ + (right_ - left_))
  = (r =? t) && (left_ <=? c) && (c <? right_).
Proof.
  intros Hw Hc Hl Hr.
  destruct (Z.eqb_spec r t) as [-> | Hne].
  - destruct (Z.leb_spec (t * w + left_) (t * w + c)),
             (Z.ltb_spec (t * w + c) (t * w + left_ + (right_ - left_))),
             (Z.leb_spec left_ c), (Z.ltb_spec c right_);
      cbn [andb]; try reflexivity; lia.
  - cbn [andb].
    destruct (Z.lt_ge_cases r t) as [Hlt | Hge].
    + assert ((r + 1) * w <= t * w) by nia.
      destruct (Z.leb_spec (t * w + left_) (r * w + c)); [lia |].
      reflexivity.
    + assert ((t + 1) * w <= r * w) by nia.
      destruct (Z.ltb_spec (r * w + c) (t * w + left_ + (right_ - left_)));
        [lia |].
      apply andb_false_r.
Qed.

Lemma in_rows_up_coord (k : nat) (w left_ right_ r c : Z) :
  0 < w -> 0 <= c < w -> 0 <= left_ -> right_ <= w ->
  forall t,
    in_rows k (t * w + left_) w (right_ - left_) (r * w + c)
    = (t <=? r) && (r <? t + Z.of_nat k) && (left_ <=? c) && (c <? right_).
Proof.
  intros Hw Hc Hl Hr. induction k as [| k IH]; intros t.
  - cbn [in_rows].
    destruct (Z.leb_spec t r), (Z.ltb_spec r (t + Z.of_nat 0));
      cbn [andb]; try reflexivity; lia.
  - cbn [in_rows]. rewrite row_range_coord by assumption.
    replace (t * w + left_ + w) with ((t + 1) * w + left_) by ring.
    rewrite IH.
    destruct (Z.eqb_spec r t), (Z.leb_spec (t + 1) r),
             (Z.ltb_spec r (t + 1 + Z.of_nat k)), (Z.leb_spec t r),
             (Z.ltb_spec r (t + Z.of_nat (S k)));
      cbn [andb orb]; try reflexivity; try lia;
      now rewrite ?orb_false_r.
Qed.

Lemma in_rows_down_coord (k : nat) (w left_ right_ r c : Z) :
  0 < w -> 0 <= c < w -> 0 <= left_ -> right_ <= w ->
  forall b,
    in_rows k ((b - 1) * w + left_) (- w) (right_ - left_) (r * w + c)
    = (b - Z.of_nat k <=? r) && (r <? b) && (left_ <=? c) && (c <? right_).
Proof.
  intros Hw Hc Hl Hr. induction k as [| k IH]; intros b.
  - cbn [in_rows].
    destruct (Z.leb_spec (b - Z.of_nat 0) r), (Z.ltb_spec r b);
      cbn [andb]; try reflexivity; lia.
  - cbn [in_rows]. rewrite row_range_coord by assumption.
    replace ((b - 1) * w + left_ + - w) with ((b - 1 - 1) * w + left_)
      by ring.
    rewrite IH.
    destruct (Z.eqb_spec r (b - 1)), (Z.leb_spec (b - 1 - Z.of_nat k) r),
             (Z.ltb_spec r (b - 1)), (Z.leb_spec (b - Z.of_nat (S k)) r),
             (Z.ltb_spec r b);
      cbn [andb orb]; try reflexivity; try lia;
      now rewrite ?orb_false_r.
Qed.

(** X13. [grid_scroll] on a region that lies in a grid of [width * height]
    cells returns normally and moves rows: afterwards the cell at row [r],
    column [c] holds what the cell [rows] rows further down held before,
    when [c] is a column of the region and both [r] and [r + rows] are rows
    of the region; every other cell of the grid is as it was.  So the rows
    scrolled in are not cleared, a scroll by 0 or by at least the height of
    the region changes nothing, and nothing is logged. *)
Theorem grid_scroll_moves_rows (top bottom left_ right_ rows : Z)
    (ui : ui_controller) :
  let g := writing_grid ui in
  Z.of_nat (length (cells g)) = grid_width g * grid_height g ->
  0 < grid_width g -> 0 < grid_height g ->
  grid_width g * grid_height g < 2 ^ 63 ->
  0 <= top <= bottom -> bottom <= grid_height g ->
  0 <= left_ <= right_ -> right_ <= grid_width g ->
  - 2 ^ 63 <= rows < 2 ^ 63 ->
  exists ui',
    grid_scroll 1 top bottom left_ right_ rows ui = Ok ui' /\
    length (cells (writing_grid ui')) = length (cells g) /\
    (forall r c,
        0 <= r < grid_height g -> 0 <= c < grid_width g ->
        cells (writing_grid ui') !! Z.to_nat (grid_get g r c)
        = cells g !! Z.to_nat
            (grid_get g (if scroll_moved top bottom left_ right_ rows r c
                         then r + rows else r) c)) /\
    grid_width (writing_grid ui') = grid_width g /\
    grid_height (writing_grid ui') = grid_height g /\
    cursor_row (writing_grid ui') = cursor_row g /\
    cursor_col (writing_grid ui') = cursor_col g /\
    trace ui' = trace ui.
Proof.
  intros g Hlen Hw Hh Hsize Htb Hb Hlr Hr Hrows.
  assert (Hhw : grid_height g < 2 ^ 63) by nia.
  assert (Hww : grid_width g < 2 ^ 63) by nia.
  unfold grid_scroll.
  destruct (Z.ltb_spec bottom top); [lia |].
  destruct (Z.ltb_spec right_ left_); [lia |]. cbn [orb].
  change (get_grid 1 ui) with (Ok (writing ui)). cbn [bind].
  fold (writing_grid ui). fold g.
  destruct (Z.ltb_spec (grid_height g) bottom); [lia |].
  destruct (Z.ltb_spec (grid_width g) right_); [lia |]. cbn [orb].
  unfold as_size_t. rewrite (Z.mod_small (bottom - top)) by lia.
  rewrite (Z.mod_small (right_ - left_)) by lia.
  assert (Hcore : exists cs,
    scroll_rows
      (Z.to_nat (if 0 <=? rows then as_long (bottom - top - rows)
                 else as_long (bottom - top + rows)))
      (cells g)
      (if 0 <=? rows then grid_get g top left_
       else grid_get g (bottom - 1) left_)
      ((if 0 <=? rows then grid_get g top left_
        else grid_get g (bottom - 1) left_) + grid_width g * rows)
      (if 0 <=? rows then grid_width g else - grid_width g)
      (right_ - left_) = Ok cs /\
    forall r c,
      0 <= r < grid_height g -> 0 <= c < grid_width g ->
      cs !! Z.to_nat (grid_get g r c)
      = cells g !! Z.to_nat
          (grid_get g (if scroll_moved top bottom left_ right_ rows r c
                       then r + rows else r) c)).
  { unfold grid_get.
    destruct (Z.leb_spec 0 rows) as [Hpos | Hneg].
    - rewrite as_long_small by lia.
      set (k := Z.to_nat (bottom - top - rows)).
      destruct (scroll_rows_in_bounds k (cells g) (top * grid_width g + left_)
                  (top * grid_width g + left_ + grid_width g * rows)
                  (grid_width g) (right_ - left_) ltac:(lia)) as [cs Hcs].
      { intros i Hi. rewrite Hlen.
        assert (0 <= (top + i) * grid_width g) by nia.
        assert ((top + i + 1) * grid_width g
                <= grid_width g * grid_height g) by nia.
        assert (0 <= (top + i + rows) * grid_width g) by nia.
        assert ((top + i + rows + 1) * grid_width g
                <= grid_width g * grid_height g) by nia.
        lia. }
      exists cs. split; [exact Hcs |]. intros r c Hr0 Hc0.
      assert (Hj : 0 <= r * grid_width g + c) by nia.
      destruct (Z.eq_dec rows 0) as [-> | Hnz].
      + rewrite Z.mul_0_r, Z.add_0_r in Hcs.
        apply scroll_rows_same in Hcs; [| lia]. subst cs.
        rewrite Z.add_0_r. now destruct (scroll_moved _ _ _ _ _ _ _).
      + rewrite (scroll_rows_lookup k (grid_width g) (right_ - left_)
                   (grid_width g * rows) ltac:(lia)
                   ltac:(left; nia) _ _ _ Hcs).
        rewrite Z2Nat.id by exact Hj.
        rewrite in_rows_up_coord by lia.
        unfold scroll_moved. subst k.
        destruct (Z.leb_spec top r) as [B1 | B1],
                 (Z.ltb_spec r (top + Z.of_nat (Z.to_nat (bottom - top - rows))))
                   as [B2 | B2],
                 (Z.ltb_spec r bottom) as [B3 | B3],
                 (Z.leb_spec top (r + rows)) as [B4 | B4],
                 (Z.ltb_spec (r + rows) bottom) as [B5 | B5],
                 (Z.leb_spec left_ c) as [B6 | B6],
                 (Z.ltb_spec c right_) as [B7 | B7];
          cbn [andb]; try reflexivity;
          try (f_equal; f_equal; ring); exfalso; lia.
    - rewrite as_long_small by lia.
      set (k := Z.to_nat (bottom - top + rows)).
      destruct (scroll_rows_in_bounds k (cells g)
                  ((bottom - 1) * grid_width g + left_)
                  ((bottom - 1) * grid_width g + left_ + grid_width g * rows)
                  (- grid_width g) (right_ - left_) ltac:(lia)) as [cs Hcs].
      { intros i Hi. rewrite Hlen.
        assert (0 <= (bottom - 1 - i) * grid_width g) by nia.
        assert ((bottom - 1 - i + 1) * grid_width g
                <= grid_width g * grid_height g) by nia.
        assert (0 <= (bottom - 1 - i + rows) * grid_width g) by nia.
        assert ((bottom - 1 - i + rows + 1) * grid_width g
                <= grid_width g * grid_height g) by nia.
        lia. }
      exists cs. split; [exact Hcs |]. intros r c Hr0 Hc0.
      assert (Hj : 0 <= r * grid_width g + c) by nia.
      rewrite (scroll_rows_lookup k (- grid_width g) (right_ - left_)
                 (grid_width g * rows) ltac:(lia)
                 ltac:(right; nia) _ _ _ Hcs).
      rewrite Z2Nat.id by exact Hj.
      rewrite in_rows_down_coord by lia.
      unfold scroll_moved. subst k.
      destruct (Z.leb_spec top r) as [B1 | B1],
               (Z.leb_spec (bottom - Z.of_nat (Z.to_nat (bottom - top + rows)))
                           r) as [B2 | B2],
               (Z.ltb_spec r bottom) as [B3 | B3],
               (Z.leb_spec top (r + rows)) as [B4 | B4],
               (Z.ltb_spec (r + rows) bottom) as [B5 | B5],
               (Z.leb_spec left_ c) as [B6 | B6],
               (Z.ltb_spec c right_) as [B7 | B7];
        cbn [andb]; try reflexivity;
        try (f_equal; f_equal; ring); exfalso; lia. }
  destruct Hcore as (cs & Hcs & Hcells). rewrite Hcs. cbn [bind].
  fold (set_writing_grid (set_cells cs g) ui).
  exists (set_writing_grid (set_cells cs g) ui). split; [reflexivity |].
  rewrite writing_grid_set_writing_grid.
  cbn [cells set_cells grid_width grid_height cursor_row cursor_col].
  split; [apply (scroll_rows_length _ _ _ _ _ _ _) in Hcs; [exact Hcs | lia] |].
  split; [exact Hcells |].
  repeat split.
Qed.

(** *** A font list that ends with a separator *)

Lemma find_index_only_spaces (k : nat) :
  find_index (fun x => negb (Ascii.eqb " " x)) (replicate k " "%char) = None.
Proof.
  induction k as [| k IH]; [reflexivity |].
  cbn [replicate find_index]. rewrite Ascii.eqb_refl. cbn [negb].
  now rewrite IH.
Qed.

Lemma starts_field_app (x y : list ascii) :
  starts_field x = true -> starts_field (x ++ y) = true.
Proof. destruct x; [discriminate | trivial]. Qed.

(** [get_fonts] on a field, a comma and spaces: the comma is found, the
    search for the start of the next field gives [npos], and the next
    iteration calls [substr(npos)]. *)
Lemma get_fonts_trailing_field (f : list ascii) (k : nat)
    (default_size : double) :
  is_field f = true ->
  Z.of_nat (length (f ++ ","%char :: replicate k " "%char)) < npos ->
  parse_font_list
    (string_of_list_ascii (f ++ ","%char :: replicate k " "%char))
    default_size
  = Fault fault_out_of_range.
Proof.
  intros Hf Hlen.
  unfold is_field in Hf. apply andb_true_iff in Hf as [Hf Hlast].
  apply andb_true_iff in Hf as [Hne Hnosep].
  apply negb_true_iff in Hlast. apply negb_true_iff, Nat.eqb_neq in Hne.
  set (sp := replicate k " "%char) in Hlen |- *.
  set (L := f ++ ","%char :: sp) in Hlen |- *.
  assert (HL : Z.of_nat (length L) = Z.of_nat (length f) + 1 + Z.of_nat k).
  { unfold L, sp. rewrite length_app. cbn [length].
    rewrite length_replicate. lia. }
  rewrite parse_font_list_loop by (unfold L; destruct f; discriminate).
  cbn [get_fonts_loop].
  assert (Hpos : find_unescaped_comma L 0 = Z.of_nat (length f)).
  { apply (first_spec_unique (is_separator L) 0 (Z.of_nat (length L)));
      [lia | apply find_unescaped_comma_spec; lia |].
    right. split; [lia |]. split.
    - unfold is_separator.
      assert (Hc : L !! length f = Some ","%char)
        by (unfold L; rewrite lookup_app_r by lia; now rewrite Nat.sub_diag).
      rewrite (char_at_lookup _ _ _ Hc).
      destruct (Z.eqb_spec (Z.of_nat (length f)) 0) as [E | _]; [lia |].
      rewrite char_at_char_sat. unfold L.
      rewrite char_sat_app_l by lia.
      now rewrite <- char_at_char_sat, Hlast.
    - intros j Hj.
      rewrite <- (no_separator_all f j Hnosep).
      unfold is_separator, L. rewrite !char_at_char_sat.
      now rewrite !char_sat_app_l by lia. }
  rewrite Hpos.
  destruct (Z.eqb_spec (Z.of_nat (length f)) npos) as [E | _]; [lia |].
  unfold substr. destruct (Z.ltb_spec (Z.of_nat (length L)) 0); [lia |].
  cbn [bind].
  assert (Hidx : find_first_not_of L " " (as_size_t (Z.of_nat (length f) + 1))
                 = npos).
  { unfold as_size_t. rewrite Z.mod_small by (unfold npos in Hlen; lia).
    unfold find_first_not_of, find_if.
    destruct (Z.leb_spec (Z.of_nat (length L)) (Z.of_nat (length f) + 1));
      [reflexivity |].
    replace (drop (Z.to_nat (Z.of_nat (length f) + 1)) L) with sp.
    - unfold sp. now rewrite find_index_only_spaces.
    - unfold L. replace (Z.to_nat (Z.of_nat (length f) + 1))
        with (length (f ++ [","%char]))
        by (rewrite length_app; cbn [length]; lia).
      replace (f ++ ","%char :: sp) with ((f ++ [","%char]) ++ sp)
        by now rewrite <- app_assoc.
      now rewrite drop_app_length. }
  rewrite Hidx.
  destruct (length L) as [| n] eqn:En; [lia |].
  rewrite get_fonts_loop_npos by (rewrite En; lia).
  reflexivity.
Qed.

(** X14. A stored font list that ends with a separating comma, with or
    without spaces after it, makes [get_fonts] throw [std::out_of_range]:
    after the last field the search for the start of the next one gives
    [npos], and the loop goes on with [substr(npos)].  No list of fonts is
    returned, also not the fonts of the fields before the comma. *)
Theorem get_fonts_trailing_separator_throws (default_size : double)
    (more : list (nat * list ascii)) :
  forall (f : list ascii) (k : nat) (ui : ui_controller),
    is_field f = true ->
    Forall (fun kf => is_field (snd kf) = true
                      /\ starts_field (snd kf) = true) more ->
    Z.of_nat (length (join_fields f more ++ ","%char :: replicate k " "%char))
    < npos ->
    option_guifont ui
    = string_of_list_ascii
        (join_fields f more ++ ","%char :: replicate k " "%char) ->
    get_fonts default_size ui = Fault fault_out_of_range.
Proof.
  intros f k ui Hf Hall Hlen Hopt. unfold get_fonts. rewrite Hopt. clear Hopt.
  revert f Hf Hlen.
  induction Hall as [| [k' f'] more [Hf' Hs'] Hall IH]; intros f Hf Hlen.
  - cbn [join_fields] in Hlen |- *. now apply get_fonts_trailing_field.
  - cbn [snd] in Hf', Hs'. cbn [join_fields] in Hlen |- *.
    assert (Hshape :
      (f ++ ","%char :: replicate k' " "%char ++ join_fields f' more)
      ++ ","%char :: replicate k " "%char
      = f ++ ","%char :: replicate k' " "%char
          ++ (join_fields f' more ++ ","%char :: replicate k " "%char)).
    { rewrite <- app_assoc. cbn [app]. now rewrite <- app_assoc. }
    rewrite Hshape in Hlen |- *.
    rewrite get_fonts_first_field;
      [| exact Hf | now apply starts_field_app, starts_field_join
       | exact Hlen].
    rewrite IH; [reflexivity | exact Hf' |].
    rewrite length_app in Hlen. cbn [length] in Hlen.
    rewrite length_app in Hlen. lia.
Qed.

(** X15. [find_unescaped_comma] always returns, and what it returns from
    [pos] is the least index from [pos] on that holds a comma, is not 0 and
    does not follow a backslash, or [npos] when the string has no such
    index: a comma that is the first character of the string is passed
    over like an escaped one, and a comma after a backslash is passed over
    also when that backslash is itself escaped. *)
Theorem find_unescaped_comma_least_separator (s : list ascii) (pos : Z) :
  0 <= pos -> Z.of_nat (length s) < npos ->
  let r := find_unescaped_comma s pos in
  (r = npos /\
   forall j, pos <= j < Z.of_nat (length s) -> is_separator s j = false)
  \/ (pos <= r < Z.of_nat (length s) /\ 0 < r /\
      char_at s r "," = true /\ char_at s (r - 1) "\" = false /\
      forall j, pos <= j < r -> is_separator s j = false).
Proof.
  intros Hpos Hlen r.
  destruct (find_unescaped_comma_spec s pos Hpos Hlen)
    as [[Hr Hnone] | (Hr & Hq & Hmin)]; [left; now split |].
  right. fold r in Hr, Hq, Hmin. unfold is_separator in Hq.
  apply andb_true_iff in Hq as [Hq Hesc].
  apply andb_true_iff in Hq as [Hcomma Hnz].
  apply negb_true_iff in Hesc. apply negb_true_iff, Z.eqb_neq in Hnz.
  split; [exact Hr |]. split; [lia |]. split; [exact Hcomma |].
  split; [exact Hesc | exact Hmin].
Qed.

(** *** Options *)

Lemma options_eqb_refl (o : options) : options_eqb o o = true.
Proof. now apply options_eqb_eq. Qed.

Lemma set_option_unknown (name : string) (value : msg_object)
    (ui : ui_controller) :
  ~ In name known_options -> set_option name value ui = Ok ui.
Proof.
  intros Hn. unfold set_option.
  repeat match goal with
         | |- context [String.eqb name ?k] =>
             let E := fresh "E" in
             destruct (String.eqb_spec name k) as [E | E];
               [exfalso; apply Hn; rewrite E; unfold known_options;
                cbn [In]; repeat first [left; reflexivity | right] |]
         end.
  reflexivity.
Qed.

(** X16. An [option_set] tuple for [guifont] with a string stores the
    string and calls [window.font_set()], also when the string is the one
    already stored, and never calls [window.options_set()]; with a value
    that is not a string it only logs.  A tuple for an option name the
    controller does not know changes nothing and logs nothing. *)
Theorem option_set_font_and_unknown (ui : ui_controller) :
  (forall s : string,
      redraw_event (MArr [MStr "option_set"; MArr [MStr "guifont"; MStr s]]) ui
      = Ok (emit window_font_set (set_option_guifont s ui))) /\
  (forall value : msg_object,
      (forall s, value <> MStr s) ->
      redraw_event (MArr [MStr "option_set"; MArr [MStr "guifont"; value]]) ui
      = Ok (os_log (info_option_type "guifont" value) ui)) /\
  (forall (name : string) (value : msg_object),
      ~ In name known_options ->
      redraw_event (MArr [MStr "option_set"; MArr [MStr name; value]]) ui
      = Ok ui).
Proof.
  assert (Hev : forall name value,
    redraw_event (MArr [MStr "option_set"; MArr [MStr name; value]]) ui
    = let* ui' := set_option name value ui in
      if negb (options_eqb (opts ui') (opts ui))
      then Ok (emit window_options_set ui') else Ok ui').
  { intros name value. cbn [redraw_event String.eqb Ascii.eqb Bool.eqb].
    cbn [apply apply_one length Nat.leb is_all is_ andb call get_ bind].
    destruct (set_option name value ui); reflexivity. }
  split; [| split].
  - intros s. rewrite Hev. cbn [set_option String.eqb Ascii.eqb Bool.eqb].
    cbn [bind set_font_option]. cbn [opts emit set_trace set_option_guifont].
    now rewrite options_eqb_refl.
  - intros value Hv. rewrite Hev.
    cbn [set_option String.eqb Ascii.eqb Bool.eqb]. cbn [bind].
    assert (E : set_font_option value ui
                = os_log (info_option_type "guifont" value) ui).
    { destruct value; try reflexivity. now destruct (Hv s). }
    rewrite E. cbn [opts os_log emit set_trace].
    now rewrite options_eqb_refl.
  - intros name value Hn. rewrite Hev, (set_option_unknown _ _ _ Hn).
    cbn [bind]. now rewrite options_eqb_refl.
Qed.

(** *** The mode table *)

Lemma mode_info_set_loop_length (property_maps : list msg_object) :
  forall ui ui' : ui_controller,
    mode_info_set_loop property_maps ui = Ok ui' ->
    length (mode_info_table ui')
    = (length (mode_info_table ui) + property_map_count property_maps)%nat.
Proof.
  unfold property_map_count.
  induction property_maps as [| object rest IH]; intros ui ui' H.
  - cbn in H. inversion H; subst. cbn. lia.
  - cbn [mode_info_set_loop] in H.
    destruct object as [| | | | | map];
      try (apply IH in H; cbn [List.filter]; rewrite H; reflexivity).
    apply bind_Ok in H as ([info ui1] & H1 & H).
    apply to_mode_info_logged in H1 as [l ->].
    apply IH in H. cbn [List.filter length]. rewrite H.
    cbn [mode_info_table set_mode_info_table logged set_trace].
    rewrite length_app. cbn [length]. lia.
Qed.

(** X17. [mode_info_set] replaces the mode table: whatever it held, the
    table afterwards has one entry per property map of the event, objects
    that are not maps being skipped.  So a [mode_change] that follows
    selects the cursor of its index when the index is below the number of
    property maps, and is rejected with a log record when it is not. *)
Theorem mode_info_set_rebuilds_table (enabled : bool)
    (property_maps : list msg_object) (ui : ui_controller) :
  hltable ui <> [] ->
  exists ui',
    mode_info_set enabled property_maps ui = Ok ui' /\
    length (mode_info_table ui') = property_map_count property_maps /\
    (forall (name : string) (index : Z),
        0 <= index < Z.of_nat (property_map_count property_maps) ->
        exists info,
          mode_info_table ui' !! Z.to_nat index = Some info /\
          mode_change name index ui'
          = Ok (set_writing_grid
                  (set_cursor_attrs (mode_cursor_attrs info)
                                    (writing_grid ui')) ui')) /\
    (forall (name : string) (index : Z),
        Z.of_nat (property_map_count property_maps) <= index ->
        mode_change name index ui'
        = Ok (os_log (err_mode_index_out_of_bounds
                        (Z.of_nat (property_map_count property_maps)) index)
                     ui')).
Proof.
  intros Hne. unfold mode_info_set.
  destruct (mode_info_set_loop_total property_maps
              (set_current_mode 0 (set_mode_info_table [] ui)) Hne)
    as (ui' & Hrun & _).
  exists ui'. split; [exact Hrun |].
  apply mode_info_set_loop_length in Hrun.
  cbn [mode_info_table set_current_mode set_mode_info_table length] in Hrun.
  rewrite Nat.add_0_l in Hrun.
  split; [exact Hrun |]. split.
  - intros name index Hi. unfold mode_change. rewrite Hrun.
    destruct (Z.leb_spec (Z.of_nat (property_map_count property_maps)) index)
      as [E | _]; [lia |].
    destruct (mode_info_table ui' !! Z.to_nat index) as [info |] eqn:El.
    + exists info. split; reflexivity.
    + apply lookup_ge_None in El. lia.
  - intros name index Hi. unfold mode_change. rewrite Hrun.
    destruct (Z.leb_spec (Z.of_nat (property_map_count property_maps)) index)
      as [_ | E]; [reflexivity | lia].
Qed.

(** *** Flushing *)

Lemma flush_trace (ui : ui_controller) :
  exists ui',
    flush ui = Ok ui' /\
    flush_wait ui' = false /\
    trace ui'
    = trace ui ++ [if flush_wait ui then semaphore_signal else window_redraw].
Proof.
  destruct ui as [g0 g1 w c hl mt cm ti gf op fw tr].
  destruct fw, w, c; cbn; eexists; repeat split.
Qed.

Lemma redraw_event_flush (ui : ui_controller) :
  redraw_event (MArr [MStr "flush"; MArr []]) ui = flush ui.
Proof.
  cbn [redraw_event String.eqb Ascii.eqb Bool.eqb].
  cbn [apply apply_one length Nat.leb is_all andb call bind].
  destruct (flush ui); reflexivity.
Qed.

Lemma redraw_flush_again (k : nat) :
  forall ui : ui_controller,
    flush_wait ui = false ->
    exists ui',
      redraw (replicate k (MArr [MStr "flush"; MArr []])) ui = Ok ui' /\
      flush_wait ui' = false /\
      trace ui' = trace ui ++ replicate k window_redraw.
Proof.
  induction k as [| k IH]; intros ui Hw.
  - exists ui. cbn [replicate redraw]. rewrite app_nil_r. now repeat split.
  - destruct (flush_trace ui) as (ui1 & Hf & Hw1 & Ht1). rewrite Hw in Ht1.
    destruct (IH ui1 Hw1) as (ui' & Hr & Hw' & Ht').
    exists ui'. cbn [replicate redraw]. rewrite redraw_event_flush, Hf.
    cbn [bind]. split; [exact Hr |]. split; [exact Hw' |].
    rewrite Ht', Ht1, <- app_assoc. reflexivity.
Qed.

(** X18. A registered semaphore is signalled by the first [flush] only:
    that flush signals it instead of asking the window to redraw, and takes
    it off, so in a batch of flushes every later one calls
    [window.redraw()].  Without a registered semaphore every flush calls
    [window.redraw()].  A [flush] event that carries no argument tuple
    flushes nothing. *)
Theorem flush_signals_waiter_once (k : nat) (ui : ui_controller) :
  (exists ui',
      redraw (replicate (S k) (MArr [MStr "flush"; MArr []])) ui = Ok ui' /\
      flush_wait ui' = false /\
      trace ui'
      = trace ui
        ++ (if flush_wait ui then semaphore_signal else window_redraw)
           :: replicate k window_redraw) /\
  redraw_event (MArr [MStr "flush"]) ui = Ok ui.
Proof.
  split; [| reflexivity].
  destruct (flush_trace ui) as (ui1 & Hf & Hw1 & Ht1).
  destruct (redraw_flush_again k ui1 Hw1) as (ui' & Hr & Hw' & Ht').
  exists ui'. cbn [replicate redraw]. rewrite redraw_event_flush, Hf.
  cbn [bind]. split; [exact Hr |]. split; [exact Hw' |].
  rewrite Ht', Ht1, <- app_assoc. reflexivity.
Qed.

End Controller.

(** * The properties on the concrete controller *)

(** [hl_attr_define(2, {foreground: 0xff0000})] on a table that holds the
    default highlight only: the table gets two elements, the red foreground
    is stored at id 1, and id 2 resolves to the default. *)
Lemma hl_attr_define_past_end_witness :
  hltable sample_ui !! 0%nat = Some sample_attrs /\
  Z.of_nat (length (hltable sample_ui)) < 2 /\
  exists attrs ui',
    hl_attr_define 2 [(MStr "foreground", MInt 16711680)] sample_ui = Ok ui' /\
    hltable ui' =
      hltable sample_ui
      ++ replicate (Z.to_nat 2 - length (hltable sample_ui) - 1)%nat
                   sample_attrs
      ++ [attrs] /\
    Z.of_nat (length (hltable ui')) = 2 /\
    resolve (hltable ui') 2 = Ok sample_attrs.
Proof.
  split; [reflexivity |]. split; [reflexivity |].
  apply (hl_attr_define_past_end 2 [(MStr "foreground", MInt 16711680)]
           sample_ui sample_attrs); reflexivity.
Defined.

(** A tuple of four integers for [grid_cursor_goto], which declares three
    parameters: the tuple is not a sequence of exactly three values, and yet
    the handler is called and moves the cursor, and nothing is logged. *)
Lemma apply_one_longer_tuple_counterexample :
  ~ tuple_exact [p_size_t; p_size_t; p_size_t]
                (MArr [MInt 1; MInt 1; MInt 2; MInt 99]) /\
  redraw_event sample_make_cell sample_cell sample_mode_info
    (MArr [MStr "grid_cursor_goto"; MArr [MInt 1; MInt 1; MInt 2; MInt 99]])
    sample_ui
  = Ok (set_writing_grid (set_cursor 1 2 sample_grid) sample_ui).
Proof.
  split; [| reflexivity].
  intros (args & Heq & Hall). inversion Heq; subst; clear Heq.
  repeat match goal with
         | H : Forall2 _ _ _ |- _ => inversion H; subst; clear H
         end.
Qed.

Lemma apply_one_binds_leading_values_witness :
  Forall2 (fun T o => is_ T o = true) [p_size_t; p_size_t; p_size_t]
          [MInt 1; MInt 1; MInt 2] /\
  apply_one [p_size_t; p_size_t; p_size_t] grid_cursor_goto
            "grid_cursor_goto" (MArr ([MInt 1; MInt 1; MInt 2] ++ [MInt 99]))
            sample_ui
  = call [p_size_t; p_size_t; p_size_t] grid_cursor_goto
         [MInt 1; MInt 1; MInt 2] sample_ui.
Proof.
  assert (H : Forall2 (fun T o => is_ T o = true)
                      [p_size_t; p_size_t; p_size_t]
                      [MInt 1; MInt 1; MInt 2])
    by (repeat constructor).
  split; [exact H |].
  exact (proj1 (apply_one_binds_leading_values
                  sample_make_cell sample_cell sample_mode_info
                  [p_size_t; p_size_t; p_size_t] grid_cursor_goto
                  "grid_cursor_goto")
               [MInt 1; MInt 1; MInt 2] [MInt 99] sample_ui H).
Defined.


(** [mode_change("insert", 1)] with a table of two modes: the cursor
    attributes of mode 1 are installed, and the current-mode index still
    is 0. *)
Lemma mode_change_keeps_current_mode_counterexample :
  exists ui',
    mode_change "insert" 1 sample_ui = Ok ui' /\
    cursor_attrs (writing_grid ui') = sample_bar /\
    current_mode sample_ui = 0 /\
    current_mode ui' <> 1.
Proof.
  eexists. split; [reflexivity |]. split; [reflexivity |].
  split; [reflexivity |]. discriminate.
Qed.

Lemma mode_change_selects_cursor_witness :
  0 <= 1 /\
  mode_info_table sample_ui !! Z.to_nat 1
  = Some (mk_mode_info "insert" sample_bar) /\
  exists ui',
    mode_change "insert" 1 sample_ui = Ok ui' /\
    cursor_attrs (writing_grid ui')
    = mode_cursor_attrs (mk_mode_info "insert" sample_bar) /\
    current_mode ui' = current_mode sample_ui.
Proof.
  split; [lia |]. split; [reflexivity |].
  apply (proj1 (proj2 (mode_change_selects_cursor sample_mode_info)));
    [lia | reflexivity].
Defined.


Lemma grid_line_row_overflow_witness :
  0 < grid_height (writing_grid sample_ui) /\
  1 < grid_width (writing_grid sample_ui) /\
  grid_line sample_make_cell 1 0 1
    ([MArr [MStr "a"; MInt 0]]
     ++ MArr [MStr "b"; MInt 0; MInt 9] :: [MArr [MStr "c"]])
    sample_ui
  = Ok (os_log err_row_overflow
          (set_writing_grid
             (set_cells
                (<[1%nat := sample_make_cell "a" (Some sample_attrs)]>
                   (cells sample_grid))
                (writing_grid sample_ui)) sample_ui)).
Proof.
  split; [reflexivity |]. split; [reflexivity |].
  exact (proj1 (grid_line_row_overflow
                  sample_make_cell sample_ui 0 1
                  [MArr [MStr "a"; MInt 0]] [MArr [MStr "c"]]
                  (MArr [MStr "b"; MInt 0; MInt 9])
                  (mk_line_state
                     (<[1%nat := sample_make_cell "a" (Some sample_attrs)]>
                        (cells sample_grid))
                     2 2 (mk_cell_update "a" (Some 0%nat) 1))
                  (mk_cell_update "b" (Some 0%nat) 9)
                  eq_refl eq_refl eq_refl eq_refl eq_refl)).
Defined.


(** The parser and the parser as the specification words it differ on a
    list with two spaces after the comma, where [get_fonts] skips both
    spaces and not one, and on a field with the size suffix [":h0"], which
    [make_font] does not strip. *)
Lemma parse_font_list_not_spec_counterexample :
  parse_font_list sample_double sample_double_of_size_t
                  "Menlo,  Courier" 13
  = Ok [mk_font sample_double "Menlo" 13; mk_font sample_double "Courier" 13]
  /\
  parse_font_list_spec sample_double sample_double_of_size_t
                       "Menlo,  Courier" 13
  = [mk_font sample_double "Menlo" 13; mk_font sample_double " Courier" 13]
  /\
  parse_font_list sample_double sample_double_of_size_t "Menlo:h0" 13
  = Ok [mk_font sample_double "Menlo:h0" 13] /\
  parse_font_list_spec sample_double sample_double_of_size_t "Menlo:h0" 13
  = [mk_font sample_double "Menlo" 0] /\
  parse_font_list sample_double sample_double_of_size_t
                  "Menlo,  Courier" 13
  <> Ok (parse_font_list_spec sample_double sample_double_of_size_t
                              "Menlo,  Courier" 13).
Proof.
  repeat (split; [reflexivity |]). vm_compute. discriminate.
Qed.

Lemma parse_font_list_fields_witness :
  is_field (list_ascii_of_string "Menlo:h14") = true /\
  starts_field (list_ascii_of_string "Courier") = true /\
  Z.of_nat (length (list_ascii_of_string "Menlo:h14"
                    ++ ","%char :: replicate 2 " "%char
                    ++ list_ascii_of_string "Courier")) < npos /\
  parse_font_list sample_double sample_double_of_size_t
    (string_of_list_ascii
       (list_ascii_of_string "Menlo:h14"
        ++ ","%char :: replicate 2 " "%char
        ++ list_ascii_of_string "Courier")) 13
  = bind (parse_font_list sample_double sample_double_of_size_t
            (string_of_list_ascii (list_ascii_of_string "Courier")) 13)
         (fun fonts =>
            Ok (make_font sample_double sample_double_of_size_t
                          (list_ascii_of_string "Menlo:h14") 13 :: fonts)).
Proof.
  split; [reflexivity |]. split; [reflexivity |]. split; [reflexivity |].
  exact (proj1 (proj2 (proj2 (parse_font_list_fields
                                sample_double sample_double_of_size_t 13)))
               (list_ascii_of_string "Menlo:h14")
               (list_ascii_of_string "Courier") 2%nat
               eq_refl eq_refl eq_refl).
Defined.

(** ** Further properties on the concrete controller *)

(** The id 7 on a table that holds the default highlight only. *)
Lemma resolve_falls_back_witness :
  [sample_attrs] !! 0%nat = Some sample_attrs /\
  0 <= 7 /\
  resolve [sample_attrs] 7 = Ok sample_attrs.
Proof.
  split; [reflexivity |]. split; [lia |].
  apply (proj2 (resolve_falls_back [sample_attrs] 7 sample_attrs eq_refl
                  ltac:(lia))).
  simpl. lia.
Defined.

(** [hl_attr_define(1, {foreground: 0xff0000})] on a table of length 1
    appends the entry of id 1. *)
Lemma hl_attr_define_within_table_witness :
  hltable sample_ui !! 0%nat = Some sample_attrs /\
  0 <= 1 <= Z.of_nat (length (hltable sample_ui)) /\
  exists attrs ui',
    hl_attr_define 1 [(MStr "foreground", MInt 16711680)] sample_ui = Ok ui' /\
    length (hltable ui') = 2%nat /\
    resolve (hltable ui') 1 = Ok attrs.
Proof.
  split; [reflexivity |]. split; [simpl; lia |].
  destruct (hl_attr_define_within_table 1 [(MStr "foreground", MInt 16711680)]
              sample_ui sample_attrs eq_refl ltac:(simpl; lia))
    as (attrs & ui' & H1 & H2 & H3 & _).
  exists attrs, ui'. split; [exact H1 |]. split; [exact H2 | exact H3].
Defined.

(** A definition with the key [bold] (and the value [false]) and two
    foregrounds: the last foreground is stored. *)
Lemma hl_attr_define_fields_witness :
  hltable sample_ui !! 0%nat = Some sample_attrs /\
  0 <= 1 <= Z.of_nat (length (hltable sample_ui)) /\
  exists attrs ui',
    hl_attr_define 1 [(MStr "foreground", MInt 1); (MStr "bold", MBool false);
                      (MStr "foreground", MInt 255)] sample_ui = Ok ui' /\
    resolve (hltable ui') 1 = Ok attrs /\
    foreground attrs
    = defined_color "foreground"
        [(MStr "foreground", MInt 1); (MStr "bold", MBool false);
         (MStr "foreground", MInt 255)] (foreground sample_attrs).
Proof.
  split; [reflexivity |]. split; [simpl; lia |].
  destruct (hl_attr_define_fields 1
              [(MStr "foreground", MInt 1); (MStr "bold", MBool false);
               (MStr "foreground", MInt 255)]
              sample_ui sample_attrs eq_refl ltac:(simpl; lia))
    as (attrs & ui' & H1 & H2 & H3 & _).
  exists attrs, ui'. split; [exact H1 |]. split; [exact H2 | exact H3].
Defined.

(** The 4 x 2 grid resized to 3 x 3. *)
Lemma grid_resize_truncates_or_extends_witness :
  0 <= 3 * 3 < 2 ^ 64 /\
  exists ui',
    grid_resize sample_cell 1 3 3 sample_ui = Ok ui' /\
    Z.of_nat (length (cells (writing_grid ui'))) = 3 * 3 /\
    cells (writing_grid ui') !! 8%nat = Some sample_cell.
Proof.
  split; [lia |].
  destruct (grid_resize_truncates_or_extends sample_cell 3 3 sample_ui
              ltac:(lia))
    as (ui' & H1 & _ & _ & H4 & _ & H6 & _).
  exists ui'. split; [exact H1 |]. split; [exact H4 |].
  apply H6; simpl; lia.
Defined.

(** [grid_clear] for the grid 2. *)
Lemma other_grid_aborts_witness :
  2 <> 1 /\ grid_clear sample_cell 2 sample_ui = Fault fault_abort.
Proof.
  split; [lia |].
  exact (proj1 (proj2 (proj2 (other_grid_aborts sample_make_cell sample_cell
                                sample_mode_info 2 sample_ui ltac:(lia))))).
Defined.

(** A batch that resizes the grid and moves the cursor. *)
Lemma redraw_keeps_grid_size_witness :
  grids_sized sample_ui /\
  exists ui',
    redraw sample_make_cell sample_cell sample_mode_info
      [MArr [MStr "grid_resize"; MArr [MInt 1; MInt 3; MInt 3]];
       MArr [MStr "grid_cursor_goto"; MArr [MInt 1; MInt 1; MInt 2]]]
      sample_ui
    = Ok ui' /\
    grids_sized ui'.
Proof.
  assert (H : grids_sized sample_ui) by (split; reflexivity).
  split; [exact H |]. eexists. split; [reflexivity |].
  eapply (proj2 (redraw_keeps_grid_size sample_make_cell sample_cell
                   sample_mode_info)
                [MArr [MStr "grid_resize"; MArr [MInt 1; MInt 3; MInt 3]];
                 MArr [MStr "grid_cursor_goto"; MArr [MInt 1; MInt 1; MInt 2]]]
                sample_ui); [exact H | reflexivity].
Defined.

(** A batch that clears the grid. *)
Lemma redraw_keeps_highlight_ids_witness :
  exists ui',
    redraw sample_make_cell sample_cell sample_mode_info
      [MArr [MStr "grid_clear"; MArr [MInt 1]]] sample_ui
    = Ok ui' /\
    (length (hltable sample_ui) <= length (hltable ui'))%nat.
Proof.
  eexists. split; [reflexivity |].
  eapply (redraw_keeps_highlight_ids sample_make_cell sample_cell
            sample_mode_info [MArr [MStr "grid_clear"; MArr [MInt 1]]]
            sample_ui).
  reflexivity.
Defined.

(** Three cells written from column 1 of row 0 of the 4 x 2 grid. *)
Lemma grid_line_stays_in_row_witness :
  hltable sample_ui <> [] /\
  0 <= 0 < grid_height (writing_grid sample_ui) /\
  0 <= 1 < grid_width (writing_grid sample_ui) /\
  exists ui',
    grid_line sample_make_cell 1 0 1
      [MArr [MStr "a"]; MArr [MStr "b"; MInt 0; MInt 2]] sample_ui
    = Ok ui' /\
    length (cells (writing_grid ui'))
    = length (cells (writing_grid sample_ui)).
Proof.
  split; [discriminate |]. split; [simpl; lia |]. split; [simpl; lia |].
  destruct (grid_line_stays_in_row sample_make_cell 0 1
              [MArr [MStr "a"]; MArr [MStr "b"; MInt 0; MInt 2]] sample_ui
              ltac:(discriminate) eq_refl eq_refl ltac:(simpl; lia)
              ltac:(simpl; lia) ltac:(repeat constructor))
    as (ui' & H1 & H2 & _).
  exists ui'. split; [exact H1 | exact H2].
Defined.

(** One cell written at the last column of row 0, then an update with the
    repeat count 0: the cell of index 4, the first of row 1, is
    overwritten. *)
Lemma grid_line_zero_repeat_writes_next_row_witness :
  grid_line_run sample_make_cell (hltable sample_ui)
    (grid_get sample_grid 0 0) [MArr [MStr "a"]]
    (grid_line_enter sample_grid 0 3)
  = Some (mk_line_state
            (<[3%nat := sample_make_cell "a" None]> (cells sample_grid))
            4 0 (mk_cell_update "a" None 1)) /\
  exists a,
    resolve (hltable sample_ui) (as_size_t 0) = Ok a /\
    grid_line sample_make_cell 1 0 3
      [MArr [MStr "a"]; MArr [MStr "b"; MInt 0; MInt 0]] sample_ui
    = Ok (set_writing_grid
            (set_cells
               (<[4%nat := sample_make_cell "b" (Some a)]>
                  (<[3%nat := sample_make_cell "a" None]>
                     (cells sample_grid)))
               sample_grid) sample_ui).
Proof.
  split; [reflexivity |].
  destruct (grid_line_zero_repeat_writes_next_row sample_make_cell 0 3
              [MArr [MStr "a"]] "b" 0
              (mk_line_state
                 (<[3%nat := sample_make_cell "a" None]> (cells sample_grid))
                 4 0 (mk_cell_update "a" None 1))
              sample_ui
              ltac:(discriminate) eq_refl eq_refl ltac:(lia)
              ltac:(simpl; lia) ltac:(simpl; lia) ltac:(repeat constructor)
              eq_refl eq_refl ltac:(discriminate))
    as (a & Ha & _ & Hline).
  exists a. split; [exact Ha | exact Hline].
Defined.

(** An empty text as the first update for column 0: the update after it is
    dropped. *)
Lemma grid_line_empty_text_at_row_start_witness :
  cell_update_set (MArr [MStr ""]) (hltable sample_ui) cell_update_new
  = Some (mk_cell_update "" None 1) /\
  grid_line sample_make_cell 1 0 0 [MArr [MStr ""]; MArr [MStr "x"]]
            sample_ui
  = Ok sample_ui.
Proof.
  split; [reflexivity |].
  apply (grid_line_empty_text_at_row_start sample_make_cell 0
           (MArr [MStr ""]) [MArr [MStr "x"]] (mk_cell_update "" None 1)
           sample_ui);
    first [reflexivity | simpl; lia].
Defined.

(** An integer where a cell update is expected, after one good update. *)
Lemma grid_line_malformed_update_witness :
  grid_line_run sample_make_cell (hltable sample_ui)
    (grid_get sample_grid 0 0) [MArr [MStr "a"]]
    (grid_line_enter sample_grid 0 0)
  = Some (mk_line_state
            (<[0%nat := sample_make_cell "a" None]> (cells sample_grid))
            1 3 (mk_cell_update "a" None 1)) /\
  grid_line sample_make_cell 1 0 0
    ([MArr [MStr "a"]] ++ MInt 5 :: [MArr [MStr "c"]]) sample_ui
  = Ok (os_log (err_cell_update_type (MInt 5))
          (set_writing_grid
             (set_cells
                (<[0%nat := sample_make_cell "a" None]> (cells sample_grid))
                sample_grid) sample_ui)).
Proof.
  split; [reflexivity |].
  apply (grid_line_malformed_update sample_make_cell sample_ui 0 0
           [MArr [MStr "a"]] [MArr [MStr "c"]] (MInt 5)
           (mk_line_state
              (<[0%nat := sample_make_cell "a" None]> (cells sample_grid))
              1 3 (mk_cell_update "a" None 1)));
    first [reflexivity | intros t h r; repeat split; discriminate].
Defined.

(** The whole 4 x 2 grid scrolled by one row. *)
Lemma grid_scroll_moves_rows_witness :
  0 <= 0 <= 2 /\ 2 <= grid_height (writing_grid sample_ui) /\
  0 <= 0 <= 4 /\ 4 <= grid_width (writing_grid sample_ui) /\
  exists ui',
    grid_scroll 1 0 2 0 4 1 sample_ui = Ok ui' /\
    cells (writing_grid ui') !! Z.to_nat (grid_get sample_grid 0 2)
    = cells sample_grid !! Z.to_nat (grid_get sample_grid 1 2).
Proof.
  split; [lia |]. split; [simpl; lia |]. split; [lia |].
  split; [simpl; lia |].
  destruct (grid_scroll_moves_rows 0 2 0 4 1 sample_ui eq_refl
              ltac:(simpl; lia) ltac:(simpl; lia) ltac:(simpl; lia)
              ltac:(lia) ltac:(simpl; lia) ltac:(lia) ltac:(simpl; lia)
              ltac:(lia))
    as (ui' & H1 & _ & H3 & _).
  exists ui'. split; [exact H1 |].
  exact (H3 0 2 ltac:(simpl; lia) ltac:(simpl; lia)).
Defined.

(** The font list ["Menlo, Courier,"], which ends with a comma. *)
Lemma get_fonts_trailing_separator_throws_witness :
  is_field (list_ascii_of_string "Menlo") = true /\
  option_guifont (set_option_guifont "Menlo, Courier," sample_ui)
  = string_of_list_ascii
      (join_fields (list_ascii_of_string "Menlo")
                   [(1%nat, list_ascii_of_string "Courier")]
       ++ ","%char :: replicate 0 " "%char) /\
  get_fonts sample_double sample_double_of_size_t 13
            (set_option_guifont "Menlo, Courier," sample_ui)
  = Fault fault_out_of_range.
Proof.
  split; [reflexivity |]. split; [reflexivity |].
  apply (get_fonts_trailing_separator_throws sample_double
           sample_double_of_size_t 13
           [(1%nat, list_ascii_of_string "Courier")]
           (list_ascii_of_string "Menlo") 0%nat
           (set_option_guifont "Menlo, Courier," sample_ui)).
  - reflexivity.
  - repeat constructor.
  - reflexivity.
  - reflexivity.
Defined.

(** A string that starts with a comma and holds an escaped one: what the
    search from 0 returns is not 0. *)
Lemma find_unescaped_comma_least_separator_witness :
  0 <= 0 /\
  Z.of_nat (length (list_ascii_of_string ",a\,b,c")) < npos /\
  find_unescaped_comma (list_ascii_of_string ",a\,b,c") 0 <> 0.
Proof.
  split; [lia |]. split; [reflexivity |].
  destruct (find_unescaped_comma_least_separator
              (list_ascii_of_string ",a\,b,c") 0 ltac:(lia) eq_refl)
    as [[Hr _] | (_ & Hr & _)].
  - rewrite Hr. discriminate.
  - lia.
Defined.

(** Two property maps and an integer between them. *)
Lemma mode_info_set_rebuilds_table_witness :
  hltable sample_ui <> [] /\
  exists ui',
    mode_info_set sample_mode_info true [MMap []; MInt 3; MMap []] sample_ui
    = Ok ui' /\
    length (mode_info_table ui') = 2%nat.
Proof.
  split; [discriminate |].
  destruct (mode_info_set_rebuilds_table sample_mode_info true
              [MMap []; MInt 3; MMap []] sample_ui ltac:(discriminate))
    as (ui' & H1 & H2 & _).
  exists ui'. split; [exact H1 | exact H2].
Defined.

(** A flush after the cursor was moved on the writing grid: the grid that
    was complete is the new writing target and has lost what it held. *)
Lemma flush_writing_equals_published_witness :
  pointers_distinct
    (set_writing_grid (set_cursor 1 2 sample_grid) sample_ui) /\
  exists ui',
    flush (set_writing_grid (set_cursor 1 2 sample_grid) sample_ui) = Ok ui' /\
    writing ui'
    = complete (set_writing_grid (set_cursor 1 2 sample_grid) sample_ui) /\
    pointers_distinct ui' /\
    writing_grid ui' = set_draw_tick 1 (set_cursor 1 2 sample_grid) /\
    writing_grid ui'
    <> complete_grid
         (set_writing_grid (set_cursor 1 2 sample_grid) sample_ui).
Proof.
  assert (Hd : pointers_distinct
                 (set_writing_grid (set_cursor 1 2 sample_grid) sample_ui))
    by discriminate.
  split; [exact Hd |].
  destruct (flush_writing_equals_published
              (set_writing_grid (set_cursor 1 2 sample_grid) sample_ui))
    as (ui' & Hf & _ & Hw & Hc & He & _ & _ & _ & _ & _ & Hafter).
  destruct (Hafter Hd) as (Hd' & _ & _).
  exists ui'. split; [exact Hf |]. split; [exact Hw |].
  split; [exact Hd' |].
  assert (Hg : writing_grid ui' = set_draw_tick 1 (set_cursor 1 2 sample_grid))
    by (rewrite He; exact Hc).
  split; [exact Hg |]. rewrite Hg. discriminate.
Defined.
